(** * Rational-function quiz engine: generator, analyzer and question builder

    A shallow embedding of [function_generator.py]
    (class [RationalFunctionGenerator]) and the properties of its
    specification.

    Conventions of the embedding.
    - A Python [int] is a [Z].  A Python [float] is the rational it stands
      for ([Q], compared with [Qeq]); rounding to binary64 is outside the
      model.
    - The process-wide random source is an explicit state: a tape of raw
      draws and a read position.  Every primitive of [random] consumes one
      raw draw.
    - A Python exception is the outcome [Raises]; a [while] loop takes a
      fuel and the outcome [OutOfFuel] stands for a loop that is still
      running when the fuel is spent.
    - sympy is a library: what the module asks of it is gathered in the
      record [Lib], and [exact_lib] is its behaviour on the polynomials
      the generator builds.  The repository pins no release of sympy, and
      [Integer == float] changed with release 1.13, so [exact_lib] takes
      the release as an argument. *)

From Stdlib Require Import ZArith QArith Reals Lia.
From Stdlib Require Qcanon.
From Stdlib Require Import Ascii.
From stdpp Require Import gmap strings list sorting pretty.

Local Open Scope Z_scope.
Set Warnings "-register-all".

(** ** Outcomes *)

Inductive exn : Type :=
| ValueError
| TypeError
| IndexError
| KeyError
| NotImplementedError.

(** A call that uses no randomness and has no loop of its own either
    returns or raises. *)
Inductive result (A : Type) : Type :=
| Ok (a : A)
| Err (e : exn).

Arguments Ok {A} a.
Arguments Err {A} e.

Definition rbind {A B} (c : result A) (k : A -> result B) : result B :=
  match c with
  | Ok a => k a
  | Err e => Err e
  end.

(** [try: body  except: handler]; a bare [except] catches everything. *)
Definition try_except {A} (body : result A) (handler : result A) : result A :=
  match body with
  | Ok a => Ok a
  | Err _ => handler
  end.

(** A call that draws random numbers and may loop. *)
Inductive outcome (A : Type) : Type :=
| Returns (a : A)
| Raises (e : exn)
| OutOfFuel.

Arguments Returns {A} a.
Arguments Raises {A} e.
Arguments OutOfFuel {A}.

(** ** The random source *)

Record rng : Type := Rng { tape : nat -> Z; pos : nat }.

Definition advance (s : rng) : rng := Rng (tape s) (S (pos s)).

Definition M (A : Type) : Type := rng -> outcome (A * rng).

Definition ret {A} (a : A) : M A := fun s => Returns (a, s).

Definition bind {A B} (c : M A) (k : A -> M B) : M B :=
  fun s =>
    match c s with
    | Returns (a, s') => k a s'
    | Raises e => Raises e
    | OutOfFuel => OutOfFuel
    end.

Definition raise {A} (e : exn) : M A := fun _ => Raises e.

Definition out_of_fuel {A} : M A := fun _ => OutOfFuel.

Declare Scope rand_scope.
Delimit Scope rand_scope with rand.
Notation "x <- c1 ;; c2" := (bind c1 (fun x => c2))
  (at level 100, c1 at next level, right associativity) : rand_scope.
Notation "x <~ c1 ;; c2" := (rbind c1 (fun x => c2))
  (at level 100, c1 at next level, right associativity) : rand_scope.
Local Open Scope rand_scope.

Definition lift {A} (c : result A) : M A :=
  fun s =>
    match c with
    | Ok a => Returns (a, s)
    | Err e => Raises e
    end.

(** One raw draw from the tape. *)
Definition next_raw : M Z := fun s => Returns (tape s (pos s), advance s).

(** [random._randbelow(n)]: an integer in [0, n). *)
Definition randbelow (n : Z) : M Z := r <- next_raw ;; ret (r mod n).

(** [random.randint(a, b)]: an integer in [a, b]; an empty range raises. *)
Definition randint (a b : Z) : M Z :=
  if b <? a then raise ValueError
  else r <- randbelow (b - a + 1) ;; ret (a + r).

(** [random.random()]: a multiple of 2^-53 in [0, 1). *)
Definition random : M Q :=
  r <- next_raw ;; ret ((r mod 9007199254740992) # 9007199254740992).

(** [random.choice(seq)]. *)
Definition choice {A} (seq : list A) : M A :=
  i <- randbelow (Z.of_nat (length seq)) ;;
  match seq !! Z.to_nat i with
  | Some a => ret a
  | None => raise IndexError
  end.

(** [for _ in range(n): acc = body(acc)]. *)
Fixpoint for_range {A} (n : nat) (body : A -> M A) (acc : A) : M A :=
  match n with
  | O => ret acc
  | S n' => acc' <- body acc ;; for_range n' body acc'
  end.

(** [while cond(x): x = body()]. *)
Fixpoint while_loop {A} (fuel : nat) (cond : A -> bool) (body : M A) (x : A)
    : M A :=
  if cond x then
    match fuel with
    | O => out_of_fuel
    | S fuel' => x' <- body ;; while_loop fuel' cond body x'
    end
  else ret x.

(** [x[i], x[j] = x[j], x[i]]. *)
Definition swap {A} (i j : nat) (x : list A) : list A :=
  match x !! i, x !! j with
  | Some xi, Some xj => <[j := xi]> (<[i := xj]> x)
  | _, _ => x
  end.

(** The loop of [random.shuffle]: [i] runs from [len(x) - 1] down to 1. *)
Fixpoint shuffle_from {A} (i : nat) (x : list A) : M (list A) :=
  match i with
  | O => ret x
  | S i' =>
      j <- randbelow (Z.of_nat i + 1) ;;
      shuffle_from i' (swap i (Z.to_nat j) x)
  end.

(** [random.shuffle(x)], returning the shuffled list. *)
Definition shuffle {A} (x : list A) : M (list A) :=
  shuffle_from (length x - 1) x.

Definition Qltb (a b : Q) : bool := negb (Qle_bool b a).

(** ** Polynomials

    Every expression the generator builds is a product
    [coeff * x^xpow * (x - a1) * ... * (x - an)], which sympy keeps as a
    product.  [lin] lists the [ai] in the order they were multiplied in. *)

Record Polynomial : Type := Poly { coeff : Z; xpow : nat; lin : list Z }.

(** The integer constant [c]. *)
Definition pconst (c : Z) : Polynomial := Poly c 0 [].

(** [self.x - a]. *)
Definition linear (a : Z) : Polynomial := Poly 1 0 [a].

(** [self.x ** k]. *)
Definition xpower (k : Z) : Polynomial := Poly 1 (Z.to_nat k) [].

(** [p * q]. *)
Definition pmul (p q : Polynomial) : Polynomial :=
  Poly (coeff p * coeff q) (xpow p + xpow q) (lin p ++ lin q).

(** [p == 0]: a product collapses to sympy's zero exactly when its
    numeric coefficient is zero. *)
Definition is_zero (p : Polynomial) : bool := coeff p =? 0.

(** Total degree of a nonzero polynomial. *)
Definition degree_of (p : Polynomial) : nat := (xpow p + length (lin p))%nat.

(** Value of the polynomial at an integer point. *)
Definition peval (p : Polynomial) (x : Z) : Z :=
  coeff p * x ^ Z.of_nat (xpow p) * foldr (fun a acc => (x - a) * acc) 1 (lin p).

(** Value of the polynomial at a real point. *)
Definition pevalR (p : Polynomial) (x : R) : R :=
  (IZR (coeff p) * x ^ xpow p
   * foldr (fun a acc => (x - IZR a) * acc) 1 (lin p))%R.

(** ** The library interface *)

(** A number returned by [solve]: an integer, or something that is not
    real. *)
Inductive root : Type :=
| RInt (z : Z)
| RNonReal (k : nat).

(** A three-valued sympy assumption: [True], [False] or [None]. *)
Definition fuzzy : Type := option bool.

(** What [limit] can return. *)
Inductive limval : Type :=
| LNum (q : Q)          (* a rational number *)
| LOo                   (* oo *)
| LNegOo                (* -oo *)
| LZoo                  (* zoo, complex infinity *)
| LNan                  (* nan *)
| LComplex (re im : Q). (* a finite number off the real line *)

(** The simplified quotient kept under the key ['function']. *)
Definition Quotient : Type := (Polynomial * Polynomial)%type.

Record Lib : Type := {
  (** [solve(p, x)] *)
  sp_solve : Polynomial -> result (list root);
  (** [limit(num/den, x, oo)] *)
  sp_limit : Polynomial -> Polynomial -> result limval;
  (** [simplify(num / den)] *)
  sp_simplify : Polynomial -> Polynomial -> Quotient;
  (** [float(func.subs(x, 0))] *)
  sp_float_at_zero : Quotient -> result Q;
  (** [root == h] for a sympy number [root] and a Python float [h] *)
  sp_eq_float : root -> Q -> bool;
  (** [str(func)] and [sp.latex(func)] *)
  sp_str : Quotient -> string;
  sp_latex : Quotient -> string;
  (** [str(f)] for a Python float that is not an integer *)
  float_repr : Q -> string
}.

(** ** The generator *)

Record Config : Type := { max_degree : Z; max_factors : Z; holes_prob : Q }.

Definition difficulty_configs : gmap Z Config :=
  {[ 1 := {| max_degree := 2; max_factors := 2; holes_prob := 3 # 10 |};
     2 := {| max_degree := 3; max_factors := 3; holes_prob := 4 # 10 |};
     3 := {| max_degree := 4; max_factors := 4; holes_prob := 5 # 10 |};
     4 := {| max_degree := 5; max_factors := 5; holes_prob := 6 # 10 |};
     5 := {| max_degree := 6; max_factors := 6; holes_prob := 7 # 10 |} ]}.

Record FunctionSpec : Type := {
  function : Quotient;
  numerator : Polynomial;
  denominator : Polynomial;
  function_str : string;
  latex : string
}.

(** [d[k]] on a dict. *)
Definition getitem {V} (d : gmap Z V) (k : Z) : M V :=
  match d !! k with
  | Some v => ret v
  | None => raise KeyError
  end.

Definition _generate_linear_factor : M Polynomial :=
  a <- randint (-5) 5 ;;
  ret (linear a).

Definition _generate_polynomial (max_degree max_factors : Z) : M Polynomial :=
  degree <- randint 1 max_degree ;;
  factors <- randint 1 (Z.min max_factors degree) ;;
  polynomial <- for_range (Z.to_nat factors)
                  (fun polynomial =>
                     factor <- _generate_linear_factor ;;
                     ret (pmul polynomial factor))
                  (pconst 1) ;;
  let remaining_degree := degree - factors in
  if 0 <? remaining_degree then
    coeff <- randint (-5) 5 ;;
    let coeff := if coeff =? 0 then 1 else coeff in
    ret (pmul polynomial (pmul (pconst coeff) (xpower remaining_degree)))
  else ret polynomial.

Definition generate_function (L : Lib) (fuel : nat) (difficulty : Z)
    : M FunctionSpec :=
  level1 <- getitem difficulty_configs 1 ;;
  let config := default level1 (difficulty_configs !! difficulty) in
  numerator <- _generate_polynomial (max_degree config) (max_factors config) ;;
  denominator <- _generate_polynomial (max_degree config) (max_factors config) ;;
  denominator <- while_loop fuel is_zero
                   (_generate_polynomial (max_degree config) (max_factors config))
                   denominator ;;
  r <- random ;;
  nd <- (if Qltb r (holes_prob config) then
           hole_factor <- _generate_linear_factor ;;
           ret (pmul numerator hole_factor, pmul denominator hole_factor)
         else ret (numerator, denominator)) ;;
  let numerator := fst nd in
  let denominator := snd nd in
  let simplified := sp_simplify L numerator denominator in
  ret {| function := simplified;
         numerator := numerator;
         denominator := denominator;
         function_str := sp_str L simplified;
         latex := sp_latex L simplified |}.

(** [_generate_polynomial] as the spec words it, with the resampling
    coefficient in place of the source's substitution. *)
Definition spec_generate_polynomial (fuel : nat) (max_degree max_factors : Z)
    : M Polynomial :=
  degree <- randint 1 max_degree ;;
  factors <- randint 1 (Z.min max_factors degree) ;;
  polynomial <- for_range (Z.to_nat factors)
                  (fun polynomial =>
                     factor <- _generate_linear_factor ;;
                     ret (pmul polynomial factor))
                  (pconst 1) ;;
  let remaining_degree := degree - factors in
  if 0 <? remaining_degree then
    coeff <- randint (-5) 5 ;;
    coeff <- while_loop fuel (Z.eqb 0) (randint (-5) 5) coeff ;;
    ret (pmul polynomial (pmul (pconst coeff) (xpower remaining_degree)))
  else ret polynomial.

(** ** The analyzer *)

(** [root.is_real]. *)
Definition is_real (r : root) : bool :=
  match r with
  | RInt _ => true
  | RNonReal _ => false
  end.

(** [a == b] on two sympy numbers: exact, structural equality. *)
Definition root_eqb (a b : root) : bool :=
  match a, b with
  | RInt x, RInt y => x =? y
  | RNonReal i, RNonReal j => (i =? j)%nat
  | _, _ => false
  end.

(** [float(root)]. *)
Definition root_float (r : root) : result Q :=
  match r with
  | RInt z => Ok (inject_Z z)
  | RNonReal _ => Err TypeError
  end.

(** [limit_inf.is_finite] and [limit_inf.is_real]. *)
Definition lim_is_finite (l : limval) : fuzzy :=
  match l with
  | LNum _ => Some true
  | LOo | LNegOo | LZoo => Some false
  | LNan => None
  | LComplex _ _ => Some true
  end.

Definition lim_is_real (l : limval) : fuzzy :=
  match l with
  | LNum _ => Some true
  | LOo | LNegOo | LZoo => Some false
  | LNan => None
  | LComplex _ _ => Some false
  end.

(** Truth value of a three-valued assumption in an [if]. *)
Definition truthy (f : fuzzy) : bool :=
  match f with
  | Some true => true
  | _ => false
  end.

(** [limit_inf == oo] and [limit_inf == -oo]. *)
Definition is_oo (l : limval) : bool :=
  match l with LOo => true | _ => false end.

Definition is_neg_oo (l : limval) : bool :=
  match l with LNegOo => true | _ => false end.

(** [float(limit_inf)]. *)
Definition lim_float (l : limval) : result Q :=
  match l with
  | LNum q => Ok q
  | _ => Err TypeError
  end.

(** Python values that end up in a list of choices. *)
Inductive pyval : Type :=
| PNone
| PInt (n : Z)
| PFloat (q : Q)
| PStr (s : string)
| PList (l : list pyval).

Record Analysis : Type := {
  vertical_asymptotes : list Q;
  holes : list Q;
  horizontal_asymptote : pyval;
  x_intercepts : list Q;
  y_intercept : option Q
}.

Definition _find_horizontal_asymptote (L : Lib) (num den : Polynomial) : pyval :=
  let body :=
    limit_inf <~ sp_limit L num den ;;
    if truthy (lim_is_finite limit_inf) && truthy (lim_is_real limit_inf) then
      f <~ lim_float limit_inf ;; Ok (PFloat f)
    else if is_oo limit_inf || is_neg_oo limit_inf then
      Ok PNone
    else
      Ok (PInt 0) in
  match try_except body (Ok (PInt 0)) with
  | Ok v => v
  | Err _ => PInt 0
  end.

(** The loop over [den_roots], threading the two lists it appends to. *)
Fixpoint classify_den_roots (num_roots den_roots : list root)
    (vertical_asymptotes holes : list Q) : result (list Q * list Q) :=
  match den_roots with
  | [] => Ok (vertical_asymptotes, holes)
  | root :: rest =>
      if is_real root then
        if existsb (root_eqb root) num_roots then
          f <~ root_float root ;;
          classify_den_roots num_roots rest vertical_asymptotes (holes ++ [f])
        else
          f <~ root_float root ;;
          classify_den_roots num_roots rest (vertical_asymptotes ++ [f]) holes
      else classify_den_roots num_roots rest vertical_asymptotes holes
  end.

(** The loop over [num_roots]. *)
Fixpoint collect_x_intercepts (L : Lib) (holes : list Q) (num_roots : list root)
    (x_intercepts : list Q) : result (list Q) :=
  match num_roots with
  | [] => Ok x_intercepts
  | root :: rest =>
      if is_real root && negb (existsb (sp_eq_float L root) holes) then
        f <~ root_float root ;;
        collect_x_intercepts L holes rest (x_intercepts ++ [f])
      else collect_x_intercepts L holes rest x_intercepts
  end.

Definition analyze_function (L : Lib) (function_dict : FunctionSpec)
    : result Analysis :=
  let func := function function_dict in
  let num := numerator function_dict in
  let den := denominator function_dict in
  den_roots <~ sp_solve L den ;;
  num_roots <~ sp_solve L num ;;
  vh <~ classify_den_roots num_roots den_roots [] [] ;;
  let vertical_asymptotes := fst vh in
  let holes := snd vh in
  let horizontal_asymptote := _find_horizontal_asymptote L num den in
  x_intercepts <~ collect_x_intercepts L holes num_roots [] ;;
  y_intercept <~ try_except
                   (y <~ sp_float_at_zero L func ;; Ok (Some y))
                   (Ok None) ;;
  Ok {| vertical_asymptotes := vertical_asymptotes;
        holes := holes;
        horizontal_asymptote := horizontal_asymptote;
        x_intercepts := x_intercepts;
        y_intercept := y_intercept |}.

(** ** Python values: equality, membership, printing *)

(** [a == b]. *)
Fixpoint py_eqb (a b : pyval) : bool :=
  match a, b with
  | PNone, PNone => true
  | PInt x, PInt y => x =? y
  | PInt x, PFloat q | PFloat q, PInt x => Qeq_bool (inject_Z x) q
  | PFloat p, PFloat q => Qeq_bool p q
  | PStr s, PStr t => String.eqb s t
  | PList l, PList k =>
      (fix all2 (l k : list pyval) : bool :=
         match l, k with
         | [], [] => true
         | x :: l', y :: k' => py_eqb x y && all2 l' k'
         | _, _ => false
         end) l k
  | _, _ => false
  end.

(** [x in l] for a list [l]. *)
Definition py_in (x : pyval) (l : list pyval) : bool :=
  existsb (fun e => py_eqb e x) l.

(** [not v] is [negb (py_truth v)]. *)
Definition py_truth (v : pyval) : bool :=
  match v with
  | PNone => false
  | PInt n => negb (n =? 0)
  | PFloat q => negb (Qeq_bool q 0)
  | PStr s => negb (String.eqb s EmptyString)
  | PList l => match l with [] => false | _ => true end
  end.

(** [a + k] for an int [k].  On two ints the sum is exact.  On a float
    the sum is the exact rational here, while binary64 rounds it; the two
    agree where the exact sum is a binary64 number ([binary64_exact]
    below), and for a float of magnitude up to 2^51 the rounded sums of
    different [k] of [-3, 3] differ as the exact ones do
    ([float_bounded] below).  Beyond that the rounded sum can be the
    float itself.  The properties of the horizontal-asymptote builder
    assume one of the two. *)
Definition py_add_int (a : pyval) (k : Z) : result pyval :=
  match a with
  | PInt n => Ok (PInt (n + k))
  | PFloat q => Ok (PFloat (q + inject_Z k))
  | _ => Err TypeError
  end.

Definition join (sep : string) (l : list string) : string :=
  match l with
  | [] => EmptyString
  | s :: rest => foldl (fun acc t => acc +:+ sep +:+ t) s rest
  end.

(** [str(f)] for a float: an integral value prints with [.0]. *)
Definition float_str (L : Lib) (q : Q) : string :=
  let r := Qred q in
  if (Qden r =? 1)%positive then pretty (Qnum r) +:+ ".0" else float_repr L q.

(** [repr(v)], as [str] of a list prints its items. *)
Fixpoint py_repr (L : Lib) (v : pyval) : string :=
  match v with
  | PNone => "None"
  | PInt n => pretty n
  | PFloat q => float_str L q
  | PStr s => "'" +:+ s +:+ "'"
  | PList l => "[" +:+ join ", " (map (py_repr L) l) +:+ "]"
  end.

(** [str(v)]. *)
Definition py_str (L : Lib) (v : pyval) : string :=
  match v with
  | PStr s => s
  | _ => py_repr L v
  end.

(** ** The question builder *)

Record Question : Type := {
  question : string;
  choices : list string;
  correct_answer : string;
  explanation : string
}.

(** [str(choice) if choice != "None" else "None"]. *)
Definition choice_str (L : Lib) (choice : pyval) : string :=
  if negb (py_eqb choice (PStr "None")) then py_str L choice else "None".

Definition floats (l : list Q) : list pyval := map PFloat l.

Definition _generate_va_question (L : Lib) (fuel : nat)
    (function_dict : FunctionSpec) (analysis : Analysis) : M Question :=
  let correct_answer := floats (vertical_asymptotes analysis) in
  wrong_answers <-
    for_range 3
      (fun wrong_answers =>
         wrong <- randint (-5) 5 ;;
         wrong <- while_loop fuel
                    (fun wrong => py_in (PInt wrong) correct_answer
                                  || py_in (PInt wrong) wrong_answers)
                    (randint (-5) 5) wrong ;;
         ret (wrong_answers ++ [PList [PInt wrong]]))
      [] ;;
  let cw :=
    if negb (py_truth (PList correct_answer)) then
      (PStr "None", [PList [PInt (-1)]; PList [PInt 0]; PList [PInt 1]])
    else (PList correct_answer, wrong_answers) in
  let correct_answer := fst cw in
  let wrong_answers := snd cw in
  choices <- shuffle (correct_answer :: wrong_answers) ;;
  ret {| question := "What are the vertical asymptotes of f(x) = "
                     +:+ function_str function_dict +:+ "?";
         choices := map (choice_str L) choices;
         correct_answer := choice_str L correct_answer;
         explanation := "Vertical asymptotes occur where the denominator equals zero but the numerator doesn't." |}.

Definition _generate_ha_question (L : Lib) (fuel : nat)
    (function_dict : FunctionSpec) (analysis : Analysis) : M Question :=
  let correct_answer := horizontal_asymptote analysis in
  cw <- match correct_answer with
        | PNone => ret (PStr "None", [PInt 0; PInt 1; PInt (-1)])
        | _ =>
            wrong_answers <-
              for_range 3
                (fun wrong_answers =>
                   let draw :=
                     k <- randint (-3) 3 ;; lift (py_add_int correct_answer k) in
                   wrong <- draw ;;
                   wrong <- while_loop fuel
                              (fun wrong => py_eqb wrong correct_answer
                                            || py_in wrong wrong_answers)
                              draw wrong ;;
                   ret (wrong_answers ++ [wrong]))
                [] ;;
            ret (correct_answer, wrong_answers)
        end ;;
  let correct_answer := fst cw in
  let wrong_answers := snd cw in
  choices <- shuffle (correct_answer :: wrong_answers) ;;
  ret {| question := "What is the horizontal asymptote of f(x) = "
                     +:+ function_str function_dict +:+ "?";
         choices := map (choice_str L) choices;
         correct_answer := choice_str L correct_answer;
         explanation := "Horizontal asymptotes depend on the degrees of numerator and denominator." |}.

(** The body shared, word for word, by the x-intercept and the holes
    builders; they differ in the feature read and in the two texts. *)
Definition list_question (L : Lib) (fuel : nat) (feature : list Q)
    (question_text explanation_text : string) : M Question :=
  let correct_answer := floats feature in
  wrong_answers <-
    for_range 3
      (fun wrong_answers =>
         let draw := w <- randint (-5) 5 ;; ret (PList [PInt w]) in
         wrong <- draw ;;
         wrong <- while_loop fuel
                    (fun wrong => py_eqb wrong (PList correct_answer)
                                  || py_in wrong wrong_answers)
                    draw wrong ;;
         ret (wrong_answers ++ [wrong]))
      [] ;;
  let cw :=
    if negb (py_truth (PList correct_answer)) then
      (PStr "None", [PList [PInt (-1)]; PList [PInt 0]; PList [PInt 1]])
    else (PList correct_answer, wrong_answers) in
  let correct_answer := fst cw in
  let wrong_answers := snd cw in
  choices <- shuffle (correct_answer :: wrong_answers) ;;
  ret {| question := question_text;
         choices := map (choice_str L) choices;
         correct_answer := choice_str L correct_answer;
         explanation := explanation_text |}.

Definition _generate_x_intercept_question (L : Lib) (fuel : nat)
    (function_dict : FunctionSpec) (analysis : Analysis) : M Question :=
  list_question L fuel (x_intercepts analysis)
    ("What are the x-intercepts of f(x) = " +:+ function_str function_dict +:+ "?")
    "X-intercepts occur where the numerator equals zero but the denominator doesn't.".

Definition _generate_holes_question (L : Lib) (fuel : nat)
    (function_dict : FunctionSpec) (analysis : Analysis) : M Question :=
  list_question L fuel (holes analysis)
    ("Where are the holes in f(x) = " +:+ function_str function_dict +:+ "?")
    "Holes occur where both numerator and denominator equal zero.".

Abbreviation builder := (FunctionSpec -> Analysis -> M Question).

(** The dispatch table of [generate_multiple_choice_question]. *)
Definition questions (L : Lib) (fuel : nat) : gmap string builder :=
  {[ "vertical_asymptotes" := _generate_va_question L fuel;
     "horizontal_asymptote" := _generate_ha_question L fuel;
     "x_intercepts" := _generate_x_intercept_question L fuel;
     "holes" := _generate_holes_question L fuel ]}.

Definition question_types : list string :=
  ["vertical_asymptotes"; "horizontal_asymptote"; "x_intercepts"; "holes"].

(** [_generate_random_question], with the method it calls back passed in. *)
Definition _generate_random_question
    (generate : FunctionSpec -> Analysis -> string -> M Question)
    (function_dict : FunctionSpec) (analysis : Analysis) : M Question :=
  question_type <- choice question_types ;;
  generate function_dict analysis question_type.

(** The fuel also bounds the depth of the call back into the method. *)
Fixpoint generate_multiple_choice_question (L : Lib) (fuel : nat)
    (function_dict : FunctionSpec) (analysis : Analysis)
    (question_type : string) : M Question :=
  match questions L fuel !! question_type with
  | Some build => build function_dict analysis
  | None =>
      match fuel with
      | O => out_of_fuel
      | S fuel' =>
          _generate_random_question
            (generate_multiple_choice_question L fuel')
            function_dict analysis
      end
  end.

(** ** sympy on the generator's polynomials

    What [solve], [limit], [simplify] and evaluation at zero give on a
    product [c * x^k * (x - a1) ... (x - an)]: such a product has the
    integer roots [ai] (and 0 when [k > 0]) and no other root; its limit
    at infinity is decided by degrees and leading coefficients. *)

(** The distinct roots, in ascending order. *)
Definition exact_roots (p : Polynomial) : list Z :=
  merge_sort Z.le
    (remove_dups ((if (0 <? xpow p)%nat then [0] else []) ++ lin p)).

Definition exact_solve (p : Polynomial) : result (list root) :=
  if is_zero p then Ok [] else Ok (map RInt (exact_roots p)).

(** A zero denominator is not an expression the generator produces;
    sympy's answer to it is taken to be [nan]. *)
Definition exact_limit (num den : Polynomial) : result limval :=
  if is_zero den then Ok LNan
  else if is_zero num then Ok (LNum 0)
  else
    match (degree_of num ?= degree_of den)%nat with
    | Lt => Ok (LNum 0)
    | Eq => Ok (LNum (Qred (inject_Z (coeff num) / inject_Z (coeff den))))
    | Gt => if 0 <? coeff num * coeff den then Ok LOo else Ok LNegOo
    end.

(** Factors [(x - 0)] are powers of [x]. *)
Definition normalize (p : Polynomial) : Polynomial :=
  Poly (coeff p)
       (xpow p + length (filter (fun a => a = 0) (lin p)))
       (filter (fun a => a <> 0) (lin p)).

Fixpoint remove_one (a : Z) (l : list Z) : option (list Z) :=
  match l with
  | [] => None
  | b :: l' =>
      if a =? b then Some l'
      else match remove_one a l' with
           | Some r => Some (b :: r)
           | None => None
           end
  end.

(** Cancel the linear factors two products share, one for one. *)
Fixpoint cancel (n d : list Z) : list Z * list Z :=
  match n with
  | [] => ([], d)
  | a :: n' =>
      match remove_one a d with
      | Some d' => cancel n' d'
      | None => let r := cancel n' d in (a :: fst r, snd r)
      end
  end.

Definition exact_simplify (num den : Polynomial) : Quotient :=
  let n := normalize num in
  let d := normalize den in
  let k := Nat.min (xpow n) (xpow d) in
  let l := cancel (lin n) (lin d) in
  let g := Z.gcd (coeff n) (coeff d) * Z.sgn (coeff d) in
  (Poly (coeff n / g) (xpow n - k) (fst l),
   Poly (coeff d / g) (xpow d - k) (snd l)).

(** A pole at zero substitutes to [zoo], which [float] refuses. *)
Definition exact_float_at_zero (f : Quotient) : result Q :=
  if peval (snd f) 0 =? 0 then Err TypeError
  else Ok (Qred (inject_Z (peval (fst f) 0) / inject_Z (peval (snd f) 0))).

(** The two behaviours of [Integer == float] among sympy's releases. *)
Inductive sympy_release : Type :=
| Before_1_13
| Since_1_13.

(** [root == h] for a sympy number and a Python float.  Before release
    1.13 a sympy integer equals a float of the same value.  Since 1.13 a
    sympy integer and a float are never equal, with one exception: zero
    equals every number that is zero. *)
Definition exact_eq_float (release : sympy_release) (r : root) (h : Q)
    : bool :=
  match r with
  | RInt z =>
      match release with
      | Before_1_13 => Qeq_bool (inject_Z z) h
      | Since_1_13 => (z =? 0) && Qeq_bool 0 h
      end
  | RNonReal _ => false
  end.

Definition exact_lib (release : sympy_release)
    (str_of latex_of : Quotient -> string) (repr_of : Q -> string) : Lib :=
  {| sp_solve := exact_solve;
     sp_limit := exact_limit;
     sp_simplify := exact_simplify;
     sp_float_at_zero := exact_float_at_zero;
     sp_eq_float := exact_eq_float release;
     sp_str := str_of;
     sp_latex := latex_of;
     float_repr := repr_of |}.

(** ** Worked inputs

    A plain printer, a few tapes and a few specs on which the functions
    above are run below.  The properties do not depend on the printer. *)

Definition show_poly (p : Polynomial) : string :=
  pretty (coeff p) +:+ "*x**" +:+ pretty (Z.of_nat (xpow p))
  +:+ foldr (fun a acc => "*(x - " +:+ pretty a +:+ ")" +:+ acc) EmptyString
       (lin p).

Definition show_quotient (f : Quotient) : string :=
  "(" +:+ show_poly (fst f) +:+ ")/(" +:+ show_poly (snd f) +:+ ")".

Definition show_fraction (q : Q) : string :=
  pretty (Qnum (Qred q)) +:+ "/" +:+ pretty (Zpos (Qden (Qred q))).

(** The plain printer on a sympy before release 1.13 and on one since. *)
Definition plain_lib : Lib :=
  exact_lib Before_1_13 show_quotient show_quotient show_fraction.

Definition plain_lib_1_13 : Lib :=
  exact_lib Since_1_13 show_quotient show_quotient show_fraction.

(** The tape that reads [l] and then zeros. *)
Definition tape_of_list (l : list Z) : nat -> Z := fun n => default 0 (l !! n).

(** The tape 0, 1, 2, ... *)
Definition counting_tape : nat -> Z := Z.of_nat.

(** Every residue of every modulus comes up again after any position. *)
Definition fair (t : nat -> Z) : Prop :=
  forall (m r : Z) (p : nat), 0 <= r < m ->
    exists n, (p <= n)%nat /\ t n mod m = r.

(** The spec built from a numerator and a denominator. *)
Definition spec_of (L : Lib) (num den : Polynomial) : FunctionSpec :=
  let simplified := sp_simplify L num den in
  {| function := simplified;
     numerator := num;
     denominator := den;
     function_str := sp_str L simplified;
     latex := sp_latex L simplified |}.

(** [(x - 1) / (x - 2)]. *)
Definition spec_one_pole : FunctionSpec :=
  spec_of plain_lib (linear 1) (linear 2).

(** [(x - 2) / ((x - 2) (x - 3))]. *)
Definition spec_hole_and_pole : FunctionSpec :=
  spec_of plain_lib (linear 2) (pmul (linear 2) (linear 3)).


(** The tape on which level 1 builds [spec_hole_and_pole]: degree 1 and
    one factor [(x - 2)] for the numerator, degree 2 and the factors
    [(x - 2)], [(x - 3)] for the denominator, then [random()] gives 0.5
    and no hole factor is added.  The factor [(x - 2)] is shared by
    chance. *)
Definition tape_shared_root : nat -> Z :=
  tape_of_list [0; 0; 7; 1; 1; 7; 8; 4503599627370496].



(** The product [(x - a1) * ... * (x - an)] built by the factor loop. *)
Definition linear_product (roots : list Z) : Polynomial :=
  foldl (fun p a => pmul p (linear a)) (pconst 1) roots.

(** The [n] values [randint(-5, 5)] reads from position [p] of tape [t]. *)
Definition factor_draws (t : nat -> Z) (p n : nat) : list Z :=
  map (fun i => -5 + t i mod 11) (seq p n).

(** The tape on which level 1 draws a zero coefficient: degree 2, one
    factor [(x + 2)], then the coefficient draw 0; a 4 would be next. *)
Definition tape_zero_coeff : nat -> Z := tape_of_list [1; 0; 3; 5; 9].

(** The analysis of [spec_one_pole]. *)
Definition analysis_one_pole : Analysis :=
  {| vertical_asymptotes := [2%Q];
     holes := [];
     horizontal_asymptote := PFloat 1;
     x_intercepts := [1%Q];
     y_intercept := Some (1 # 2) |}.

(** A wrong answer of the list kinds: the one-element list [[v]]. *)
Definition singleton_answer (v : Z) : pyval := PList [PInt v].

(** The tape on which [randint(-5, 5)] is 1 at every draw. *)
Definition tape_always_one : nat -> Z := fun _ => 6.

(** A tape on which [randint(-5, 5)] gives 1, 2, 2, 3, 4 and the shuffle
    then reads zeros. *)
Definition tape_with_collisions : nat -> Z := tape_of_list [6; 7; 7; 8; 9].

(** The feature a question of kind [kind] asks about is empty. *)
Definition answer_is_none (analysis : Analysis) (kind : string) : Prop :=
  (kind = "vertical_asymptotes" /\ vertical_asymptotes analysis = [])
  \/ (kind = "horizontal_asymptote" /\ horizontal_asymptote analysis = PNone)
  \/ (kind = "x_intercepts" /\ x_intercepts analysis = [])
  \/ (kind = "holes" /\ holes analysis = []).

(** The printed distractors of a question whose answer is "None". *)
Definition fixed_distractors (kind : string) : list string :=
  if String.eqb kind "horizontal_asymptote" then ["0"; "1"; "-1"]
  else ["[-1]"; "[0]"; "[1]"].

(** The value a computation returns from the start of tape [t]. *)
Definition run {A} (c : M A) (t : nat -> Z) : outcome A :=
  match c (Rng t 0) with
  | Returns (a, _) => Returns a
  | Raises e => Raises e
  | OutOfFuel => OutOfFuel
  end.

(** [c] returns from state [s], with a value and a final state in [P]. *)
Definition returns_with {A} (c : M A) (s : rng) (P : A -> rng -> Prop) : Prop :=
  exists a s', c s = Returns (a, s') /\ P a s'.

(** From some fuel on, [c] returns from [s] one and the same value and
    final state, and they are in [P]. *)
Definition settles {A} (c : nat -> M A) (s : rng) (P : A -> rng -> Prop)
    : Prop :=
  exists fuel0 a s',
    P a s' /\ forall fuel, (fuel0 <= fuel)%nat -> c fuel s = Returns (a, s').

(** ** Practice mode: a new question ([multiplayer_quiz.py], class
    [PracticeMode]) *)

(** The dict stored in [st.session_state.practice_question]. *)
Record PracticeQuestion : Type := {
  pq_function_dict : FunctionSpec;
  pq_analysis : Analysis;
  pq_question_data : Question;
  pq_question_type : string;
  pq_difficulty : Z
}.

Definition type_mapping : gmap string string :=
  {[ "Vertical Asymptotes" := "vertical_asymptotes";
     "Horizontal Asymptotes" := "horizontal_asymptote";
     "X-intercepts" := "x_intercepts";
     "Holes" := "holes" ]}.

(** [_generate_new_question], returning the dict it stores in the
    session; the two other assignments (the submitted flag and the start
    time) are left out. *)
Definition _generate_new_question (L : Lib) (fuel : nat) (difficulty : Z)
    (question_type : string) : M PracticeQuestion :=
  function_dict <- generate_function L fuel difficulty ;;
  analysis <- lift (analyze_function L function_dict) ;;
  q_type <- (if String.eqb question_type "Random" then
               choice ["vertical_asymptotes"; "horizontal_asymptote";
                       "x_intercepts"; "holes"]
             else
               ret (default "vertical_asymptotes"
                      (type_mapping !! question_type))) ;;
  question_data <- generate_multiple_choice_question L fuel function_dict
                     analysis q_type ;;
  ret {| pq_function_dict := function_dict;
         pq_analysis := analysis;
         pq_question_data := question_data;
         pq_question_type := q_type;
         pq_difficulty := difficulty |}.

(** ** Generating the questions of a quiz ([multiplayer_quiz.py], class
    [MultiplayerQuiz]) and of a timed challenge ([timed_challenge.py],
    class [TimedChallenge]) *)

(** [for i in items: acc = body(i, acc)]. *)
Fixpoint for_in {A S} (items : list A) (body : A -> S -> M S) (acc : S)
    : M S :=
  match items with
  | [] => ret acc
  | i :: rest => acc' <- body i acc ;; for_in rest body acc'
  end.

(** [generate_multiple_choice_question] called with any value for the
    question type: a string is looked up as above, a list cannot be
    hashed, and any other value is no key of the dispatch table. *)
Definition generate_multiple_choice_question_py (L : Lib) (fuel : nat)
    (function_dict : FunctionSpec) (analysis : Analysis)
    (question_type : pyval) : M Question :=
  match question_type with
  | PStr key =>
      generate_multiple_choice_question L fuel function_dict analysis key
  | PList _ => raise TypeError
  | _ =>
      match fuel with
      | O => out_of_fuel
      | S fuel' =>
          _generate_random_question
            (generate_multiple_choice_question L fuel')
            function_dict analysis
      end
  end.

(** An entry of [st.session_state.mp_questions]. *)
Record QuizQuestion : Type := {
  qq_function_dict : FunctionSpec;
  qq_analysis : Analysis;
  qq_question_data : Question;
  qq_difficulty : Z;
  qq_number : Z
}.

(** [_generate_quiz_questions], returning the list it leaves in
    [st.session_state.mp_questions]. *)
Definition _generate_quiz_questions (L : Lib) (fuel : nat)
    (num_questions : Z) : M (list QuizQuestion) :=
  for_in (seqZ 0 num_questions)
    (fun i mp_questions =>
       difficulty <- (if i <? num_questions / 3 then randint 1 2
                      else if i <? (2 * num_questions) / 3 then randint 2 4
                      else randint 3 5) ;;
       function_dict <- generate_function L fuel difficulty ;;
       analysis <- lift (analyze_function L function_dict) ;;
       question_data <- generate_multiple_choice_question_py L fuel
                          function_dict analysis PNone ;;
       ret (mp_questions
            ++ [{| qq_function_dict := function_dict;
                   qq_analysis := analysis;
                   qq_question_data := question_data;
                   qq_difficulty := difficulty;
                   qq_number := i + 1 |}]))
    [].

(** An entry of [challenge_configs]; the display name, which
    [_start_challenge] does not read, is left out. *)
Record ChallengeConfig : Type := {
  duration : Z;
  config_questions : Z
}.

Definition challenge_configs : gmap string ChallengeConfig :=
  {[ "sprint" := {| duration := 60; config_questions := 10 |};
     "marathon" := {| duration := 300; config_questions := 25 |};
     "blitz" := {| duration := 30; config_questions := 5 |} ]}.

(** [d[k]] on a dict with string keys. *)
Definition getitem_str {V} (d : gmap string V) (k : string) : M V :=
  match d !! k with
  | Some v => ret v
  | None => raise KeyError
  end.

(** An entry of [st.session_state.timed_questions]. *)
Record TimedQuestion : Type := {
  tq_function_dict : FunctionSpec;
  tq_analysis : Analysis;
  tq_question_data : Question;
  tq_difficulty : Z
}.

(** [_start_challenge], returning the list it leaves in
    [st.session_state.timed_questions]; the other session fields it
    resets and the rerun of the page are left out. *)
Definition _start_challenge (L : Lib) (fuel : nat) (challenge_type : string)
    : M (list TimedQuestion) :=
  config <- getitem_str challenge_configs challenge_type ;;
  for_in (seqZ 0 (config_questions config))
    (fun i timed_questions =>
       difficulty <- (if String.eqb challenge_type "sprint" then
                        ret (Z.min 5 (i / 2 + 1))
                      else if String.eqb challenge_type "marathon" then
                        ret (Z.min 5 (i / 5 + 1))
                      else randint 1 3) ;;
       function_dict <- generate_function L fuel difficulty ;;
       analysis <- lift (analyze_function L function_dict) ;;
       question_data <- generate_multiple_choice_question_py L fuel
                          function_dict analysis PNone ;;
       ret (timed_questions
            ++ [{| tq_function_dict := function_dict;
                   tq_analysis := analysis;
                   tq_question_data := question_data;
                   tq_difficulty := difficulty |}]))
    [].

(** ** Scoring ([scoring_system.py], class [ScoringSystem]) *)

(** [base_points['difficulty_multiplier']].  The decimal literals are the
    rationals they denote; times 100 they are integers, and those integers
    are also what binary64 arithmetic gives. *)
Definition difficulty_multiplier : gmap Z Q :=
  {[ 1 := 1%Q; 2 := (12 # 10)%Q; 3 := (15 # 10)%Q; 4 := (18 # 10)%Q;
     5 := 2%Q ]}.

(** [int(f)] for a float: truncation towards zero. *)
Definition py_int (q : Q) : Z := Z.quot (Qnum q) (Zpos (Qden q)).

Definition calculate_score (is_correct : bool) (difficulty_level : Z)
    (time_taken : Q) (current_streak : Z) : Z :=
  if negb is_correct then 0
  else
    let score := inject_Z 100 in
    let multiplier :=
      default 1%Q (difficulty_multiplier !! difficulty_level) in
    let score := (score * multiplier)%Q in
    let score :=
      if Qltb time_taken 5 then (score + inject_Z 50)%Q else score in
    let score :=
      if 3 <=? current_streak then
        let streak_bonus := Z.min (current_streak - 2) 10 * 25 in
        (score + inject_Z streak_bonus)%Q
      else score in
    py_int score.

(** The statistics [check_achievements] reads: integer counters under
    string keys, and the list of achievements already earned; either may
    be missing. *)
Record PlayerStats : Type := {
  counters : gmap string Z;
  earned_achievements : option (list string)
}.

(** [player_stats.get(key, dflt)] on a counter. *)
Definition counter (player_stats : PlayerStats) (key : string) (dflt : Z) : Z :=
  default dflt (counters player_stats !! key).

(** [key not in player_stats.get('earned_achievements', [])]. *)
Definition not_earned (player_stats : PlayerStats) (key : string) : bool :=
  bool_decide (key ∉ default [] (earned_achievements player_stats)).

(** [check_achievements]: the list it returns and the statistics as it
    leaves them. *)
Definition check_achievements (player_stats : PlayerStats)
    : list string * PlayerStats :=
  let new_achievements := [] in
  let new_achievements :=
    if (counter player_stats "total_correct" 0 =? 1)
       && not_earned player_stats "first_correct"
    then new_achievements ++ ["first_correct"] else new_achievements in
  let new_achievements :=
    if (5 <=? counter player_stats "quick_answers" 0)
       && not_earned player_stats "speed_demon"
    then new_achievements ++ ["speed_demon"] else new_achievements in
  let new_achievements :=
    if (10 <=? counter player_stats "max_streak" 0)
       && not_earned player_stats "perfectionist"
    then new_achievements ++ ["perfectionist"] else new_achievements in
  let new_achievements :=
    if (20 <=? counter player_stats "asymptotes_correct" 0)
       && not_earned player_stats "asymptote_master"
    then new_achievements ++ ["asymptote_master"] else new_achievements in
  let new_achievements :=
    if (15 <=? counter player_stats "intercepts_correct" 0)
       && not_earned player_stats "intercept_hunter"
    then new_achievements ++ ["intercept_hunter"] else new_achievements in
  let new_achievements :=
    if (10 <=? counter player_stats "holes_correct" 0)
       && not_earned player_stats "hole_finder"
    then new_achievements ++ ["hole_finder"] else new_achievements in
  let current_level := counter player_stats "current_level" 1 in
  let max_earned_level := counter player_stats "max_earned_level" 0 in
  if max_earned_level <? current_level then
    (new_achievements ++ ["level_up"],
     {| counters := <["max_earned_level" := current_level]>
                      (counters player_stats);
        earned_achievements := earned_achievements player_stats |})
  else (new_achievements, player_stats).

(** The keys of [self.achievements]. *)
Definition achievement_keys : list string :=
  ["first_correct"; "speed_demon"; "perfectionist"; "asymptote_master";
   "intercept_hunter"; "hole_finder"; "level_up"].

(** The six threshold tests of [check_achievements], in its order. *)
Definition threshold_tests (player_stats : PlayerStats) : list (bool * string) :=
  [((counter player_stats "total_correct" 0 =? 1)
    && not_earned player_stats "first_correct", "first_correct");
   ((5 <=? counter player_stats "quick_answers" 0)
    && not_earned player_stats "speed_demon", "speed_demon");
   ((10 <=? counter player_stats "max_streak" 0)
    && not_earned player_stats "perfectionist", "perfectionist");
   ((20 <=? counter player_stats "asymptotes_correct" 0)
    && not_earned player_stats "asymptote_master", "asymptote_master");
   ((15 <=? counter player_stats "intercepts_correct" 0)
    && not_earned player_stats "intercept_hunter", "intercept_hunter");
   ((10 <=? counter player_stats "holes_correct" 0)
    && not_earned player_stats "hole_finder", "hole_finder")].

(** ** The leaderboard ([leaderboard.py], class [LeaderboardManager]) *)

Record GameRecord : Type := {
  gr_score : Z;
  gr_level : Z;
  gr_mode : string;
  gr_date : string
}.

Record PlayerData : Type := {
  total_score : Z;
  games_played : Z;
  best_score : Z;
  max_level : Z;
  last_played : option string;
  game_scores : list GameRecord
}.

(** [l[start:]]. *)
Definition py_slice_from {A} (start : Z) (l : list A) : list A :=
  if start <? 0 then
    drop (Z.to_nat (Z.max 0 (Z.of_nat (length l) + start))) l
  else drop (Z.to_nat start) l.

(** The record [update_player_score] stores for a player it has not seen. *)
Definition new_player : PlayerData :=
  {| total_score := 0; games_played := 0; best_score := 0; max_level := 1;
     last_played := None; game_scores := [] |}.

(** [update_player_score] on the dict [leaderboard_data]; the two calls
    of [datetime.now().isoformat()] are the arguments [now_played] and
    [now_recorded], and the write to the file, whose failure is ignored,
    is left out. *)
Definition update_player_score (now_played now_recorded : string)
    (leaderboard_data : gmap string PlayerData) (player_name : string)
    (score level : Z) (game_mode : string) : gmap string PlayerData :=
  let leaderboard_data :=
    match leaderboard_data !! player_name with
    | None => <[player_name := new_player]> leaderboard_data
    | Some _ => leaderboard_data
    end in
  match leaderboard_data !! player_name with
  | None => leaderboard_data
  | Some player_data =>
      let game_record := {| gr_score := score; gr_level := level;
                            gr_mode := game_mode; gr_date := now_recorded |} in
      let scores := game_scores player_data ++ [game_record] in
      let scores :=
        if (50 <? length scores)%nat then py_slice_from (-50) scores
        else scores in
      <[player_name :=
          {| total_score := total_score player_data + score;
             games_played := games_played player_data + 1;
             best_score := Z.max (best_score player_data) score;
             max_level := Z.max (max_level player_data) level;
             last_played := Some now_played;
             game_scores := scores |}]> leaderboard_data
  end.

Definition get_player_history (leaderboard_data : gmap string PlayerData)
    (player_name : string) (limit : Z) : list GameRecord :=
  match leaderboard_data !! player_name with
  | None => []
  | Some player_data =>
      match game_scores player_data with
      | [] => []
      | _ => py_slice_from (- limit) (game_scores player_data)
      end
  end.

Definition reset_player_data (leaderboard_data : gmap string PlayerData)
    (player_name : string) : gmap string PlayerData :=
  match leaderboard_data !! player_name with
  | Some _ => delete player_name leaderboard_data
  | None => leaderboard_data
  end.

(** A leaderboard built from the empty one by updates and resets. *)
Inductive built : gmap string PlayerData -> Prop :=
| built_empty : built ∅
| built_update now_played now_recorded data player_name score level game_mode :
    built data ->
    built (update_player_score now_played now_recorded data player_name
             score level game_mode)
| built_reset data player_name :
    built data -> built (reset_player_data data player_name).

(** What the arithmetic of [get_player_stats] can raise. *)
Inductive stats_exn : Type :=
| ZeroDivisionError
| MaxOfEmptySequence.

(** [a / b] on integers: the quotient as a float. *)
Definition py_truediv (a b : Z) : stats_exn + Q :=
  if b =? 0 then inl ZeroDivisionError
  else inr (inject_Z a / inject_Z b)%Q.

(** [max(seq)]. *)
Definition py_max (seq : list Z) : stats_exn + Z :=
  match seq with
  | [] => inl MaxOfEmptySequence
  | x :: rest => inr (foldl Z.max x rest)
  end.

(** [sum(seq)]. *)
Definition py_sum (seq : list Z) : Z := foldl Z.add 0 seq.

(** The dict [get_player_stats] returns; the averages are floats, and
    the integer [0] that stands for a missing recent average is the
    rational [0]. *)
Record Stats : Type := {
  stats_total_score : Z;
  stats_games_played : Z;
  stats_best_score : Z;
  stats_max_level : Z;
  stats_avg_score : Q;
  stats_last_played : option string;
  stats_recent_avg : Q;
  stats_recent_best : Z;
  stats_recent_games : Z
}.

(** [get_player_stats]: [None] for an unknown player. *)
Definition get_player_stats (leaderboard_data : gmap string PlayerData)
    (player_name : string) : stats_exn + option Stats :=
  match leaderboard_data !! player_name with
  | None => inr None
  | Some data =>
      match py_truediv (total_score data) (Z.max (games_played data) 1) with
      | inl e => inl e
      | inr avg_score =>
          match game_scores data with
          | [] =>
              inr (Some {| stats_total_score := total_score data;
                           stats_games_played := games_played data;
                           stats_best_score := best_score data;
                           stats_max_level := max_level data;
                           stats_avg_score := avg_score;
                           stats_last_played := last_played data;
                           stats_recent_avg := 0;
                           stats_recent_best := 0;
                           stats_recent_games := 0 |})
          | _ :: _ =>
              let recent_games := py_slice_from (-10) (game_scores data) in
              let recent_scores := map gr_score recent_games in
              match py_truediv (py_sum recent_scores)
                      (Z.of_nat (length recent_scores)) with
              | inl e => inl e
              | inr recent_avg =>
                  match py_max recent_scores with
                  | inl e => inl e
                  | inr recent_best =>
                      inr (Some {| stats_total_score := total_score data;
                                   stats_games_played := games_played data;
                                   stats_best_score := best_score data;
                                   stats_max_level := max_level data;
                                   stats_avg_score := avg_score;
                                   stats_last_played := last_played data;
                                   stats_recent_avg := recent_avg;
                                   stats_recent_best := recent_best;
                                   stats_recent_games :=
                                     Z.of_nat (length recent_games) |})
                  end
              end
          end
      end
  end.

(** What holds of every record of a leaderboard built from the empty
    one: the history keeps the last fifty games, no kept game beats the
    best score or the highest level, and while nothing has been dropped
    the total is the sum of the history. *)
Definition consistent_player (data : PlayerData) : Prop :=
  1 <= games_played data
  /\ Z.of_nat (length (game_scores data)) = Z.min 50 (games_played data)
  /\ Forall (fun game => gr_score game <= best_score data
                         /\ gr_level game <= max_level data)
       (game_scores data)
  /\ 0 <= best_score data
  /\ 1 <= max_level data
  /\ last_played data <> None
  /\ (games_played data <= 50 ->
      total_score data = py_sum (map gr_score (game_scores data))).

(** The record of a player after one game. *)
Definition one_game_record : PlayerData :=
  {| total_score := 120; games_played := 1; best_score := 120;
     max_level := 2; last_played := Some "2024-05-01T10:00:00";
     game_scores := [{| gr_score := 120; gr_level := 2;
                        gr_mode := "general";
                        gr_date := "2024-05-01T10:00:01" |}] |}.

(** A leaderboard with one player and one game. *)
Definition one_game_board : gmap string PlayerData :=
  update_player_score "2024-05-01T10:00:00" "2024-05-01T10:00:01" ∅
    "ann" 120 2 "general".

(** ** Predicates and inputs for the properties of the remaining code *)

(** What [_generate_polynomial] can return under the bound [md] on the
    degree and [mf] on the number of factors. *)
Definition generated_polynomial (md mf : Z) (p : Polynomial) : Prop :=
  coeff p <> 0 /\ -5 <= coeff p <= 5
  /\ Forall (fun a => -5 <= a <= 5) (lin p)
  /\ 1 <= Z.of_nat (length (lin p)) <= mf
  /\ Z.of_nat (degree_of p) <= md.

(** The characters of a printed integer: a digit or the minus sign. *)
Definition numeral_char (c : Ascii.ascii) : bool :=
  match c with
  | "-"%char | "0"%char | "1"%char | "2"%char | "3"%char | "4"%char
  | "5"%char | "6"%char | "7"%char | "8"%char | "9"%char => true
  | _ => false
  end.

Fixpoint numeral (s : string) : bool :=
  match s with
  | EmptyString => true
  | String c r => numeral_char c && numeral r
  end.

(** The horizontal asymptote moved by the integer [k], as
    [correct_answer + k] computes it on a number. *)
Definition ha_offset (correct : pyval) (k : Z) : pyval :=
  match correct with
  | PInt n => PInt (n + k)
  | PFloat q => PFloat (q + inject_Z k)
  | _ => correct
  end.

(** A horizontal asymptote as the analyzer reports it: a number or the
    none-marker. *)
Definition number_or_none (v : pyval) : Prop :=
  v = PNone \/ (exists q, v = PFloat q) \/ (exists n, v = PInt n).

(** A float of magnitude at most 2^51, or no float.  Up to there
    binary64 numbers are at most 1/2 apart, so that the rounded sums
    [q + k] for the integers [k] of [-3, 3] are pairwise different, and
    different from [q] for [k <> 0], as the exact sums are. *)
Definition float_bounded (v : pyval) : Prop :=
  match v with
  | PFloat q => (inject_Z (- 2 ^ 51)%Z <= q <= inject_Z (2 ^ 51)%Z)%Q
  | _ => True
  end.

(** A rational that binary64 holds exactly: [m / 2^j] with [|m| < 2^53]
    and [j <= 1074]. *)
Definition binary64_exact (q : Q) : Prop :=
  exists (m : Z) (j : nat),
    (j <= 1074)%nat /\ Z.abs m < 2 ^ 53
    /\ (q == inject_Z m / inject_Z (2 ^ Z.of_nat j)%Z)%Q.

(** An analysis every builder can make a question of: some integer of
    [-5, 5] is not a vertical asymptote, and the horizontal asymptote is
    the none-marker, an int, or a float of magnitude at most 2^51. *)
Definition answerable (analysis : Analysis) : Prop :=
  (exists v, -5 <= v <= 5
             /\ py_in (PInt v) (floats (vertical_asymptotes analysis)) = false)
  /\ number_or_none (horizontal_asymptote analysis)
  /\ float_bounded (horizontal_asymptote analysis).

(** The printed form of the wrong answer [[v]]. *)
Definition bracketed (v : Z) : string := "[" +:+ pretty v +:+ "]".

(** [((x - 1) (x - 4)) / ((x - 3) (x - 4))]: the factor [(x - 4)] is
    shared. *)
Definition spec_shared_factor : FunctionSpec :=
  spec_of plain_lib (pmul (linear 1) (linear 4)) (pmul (linear 3) (linear 4)).

(** A computation that leaves the tape of the random source as it is. *)
Definition keeps_tape {A} (c : M A) : Prop :=
  forall s a s', c s = Returns (a, s') -> tape s' = tape s.

(** A question a player can answer: four choices, the correct one among
    them. *)
Definition playable (q : Question) : Prop :=
  length (choices q) = 4%nat /\ correct_answer q ∈ choices q.

(** The difficulty [_generate_quiz_questions] may give question [i] of
    [num_questions]. *)
Definition quiz_band (num_questions i difficulty : Z) : Prop :=
  if i <? num_questions / 3 then 1 <= difficulty <= 2
  else if i <? (2 * num_questions) / 3 then 2 <= difficulty <= 4
  else 3 <= difficulty <= 5.

(** The difficulty [_start_challenge] gives question [i]. *)
Definition challenge_band (challenge_type : string) (i difficulty : Z)
    : Prop :=
  if String.eqb challenge_type "sprint" then difficulty = Z.min 5 (i / 2 + 1)
  else if String.eqb challenge_type "marathon" then
    difficulty = Z.min 5 (i / 5 + 1)
  else 1 <= difficulty <= 3.

(** * Properties *)

(** ** Running computations *)

Lemma returns_ret {A} (a : A) s (P : A -> rng -> Prop) :
  P a s -> returns_with (ret a) s P.
Proof. intros HP. exists a, s. split; [reflexivity | exact HP]. Qed.

Lemma returns_bind {A B} (c : M A) (k : A -> M B) s (P : B -> rng -> Prop) :
  returns_with c s (fun a s' => returns_with (k a) s' P) ->
  returns_with (x <- c ;; k x) s P.
Proof.
  intros (a & s1 & Hc & b & s2 & Hk & HP).
  exists b, s2. split; [| exact HP].
  unfold bind. rewrite Hc. exact Hk.
Qed.

Lemma returns_mono {A} (c : M A) s (P Q : A -> rng -> Prop) :
  (forall a s', P a s' -> Q a s') -> returns_with c s P -> returns_with c s Q.
Proof. intros HPQ (a & s' & Hc & HP). exists a, s'. auto. Qed.

Lemma bind_returns {A B} (c : M A) (k : A -> M B) s a s' :
  c s = Returns (a, s') -> (x <- c ;; k x) s = k a s'.
Proof. intros Hc. unfold bind. rewrite Hc. reflexivity. Qed.

Lemma randbelow_run n s :
  randbelow n s = Returns (tape s (pos s) mod n, advance s).
Proof. reflexivity. Qed.

Lemma randint_run a b s :
  a <= b ->
  randint a b s = Returns (a + tape s (pos s) mod (b - a + 1), advance s).
Proof.
  intros Hab. unfold randint.
  destruct (Z.ltb_spec b a) as [Hlt | _]; [lia | reflexivity].
Qed.

Lemma randint_range a b s :
  a <= b -> a <= a + tape s (pos s) mod (b - a + 1) <= b.
Proof.
  intros Hab.
  pose proof (Z.mod_pos_bound (tape s (pos s)) (b - a + 1)). lia.
Qed.

Lemma linear_factor_run s :
  _generate_linear_factor s
  = Returns (linear (-5 + tape s (pos s) mod 11), advance s).
Proof.
  unfold _generate_linear_factor.
  rewrite (bind_returns _ _ _ _ _ (randint_run (-5) 5 s ltac:(lia))).
  reflexivity.
Qed.

(** ** C10: the difficulty table *)

Lemma difficulty_configs_outside (d : Z) :
  ~ (1 <= d <= 5) -> difficulty_configs !! d = None.
Proof.
  intros Hd. unfold difficulty_configs.
  rewrite !lookup_insert_ne by lia.
  apply lookup_singleton_ne. lia.
Qed.

(** C10.  The table is strictly increasing in the level: for levels
    [1 <= i < j <= 5] both entries exist, level [j] has the larger
    [max_degree], the larger [max_factors] and the larger [holes_prob], and
    an entry of level [l] holds [l + 1], [l + 1] and [0.2 + 0.1 * l]. *)
Theorem difficulty_configs_strictly_monotone (i j : Z) :
  1 <= i -> i < j -> j <= 5 ->
  exists ci cj,
    difficulty_configs !! i = Some ci /\ difficulty_configs !! j = Some cj
    /\ max_degree ci < max_degree cj
    /\ max_factors ci < max_factors cj
    /\ (holes_prob ci < holes_prob cj)%Q
    /\ max_degree ci = i + 1 /\ max_factors ci = i + 1
    /\ (holes_prob ci == (2 # 10) + (1 # 10) * inject_Z i)%Q
    /\ max_degree cj = j + 1 /\ max_factors cj = j + 1
    /\ (holes_prob cj == (2 # 10) + (1 # 10) * inject_Z j)%Q.
Proof.
  intros Hi Hij Hj.
  assert (Hi' : i = 1 \/ i = 2 \/ i = 3 \/ i = 4) by lia.
  assert (Hj' : j = 2 \/ j = 3 \/ j = 4 \/ j = 5) by lia.
  destruct Hi' as [-> | [-> | [-> | ->]]];
    destruct Hj' as [-> | [-> | [-> | ->]]]; try lia;
    (eexists; eexists; split; [vm_compute; reflexivity |];
     split; [vm_compute; reflexivity |];
     repeat split; vm_compute; congruence).
Qed.

Lemma difficulty_configs_strictly_monotone_witness :
  exists ci cj,
    difficulty_configs !! 1 = Some ci /\ difficulty_configs !! 2 = Some cj
    /\ max_degree ci < max_degree cj
    /\ max_factors ci < max_factors cj
    /\ (holes_prob ci < holes_prob cj)%Q
    /\ max_degree ci = 1 + 1 /\ max_factors ci = 1 + 1
    /\ (holes_prob ci == (2 # 10) + (1 # 10) * inject_Z 1)%Q
    /\ max_degree cj = 2 + 1 /\ max_factors cj = 2 + 1
    /\ (holes_prob cj == (2 # 10) + (1 # 10) * inject_Z 2)%Q.
Proof.
  apply (difficulty_configs_strictly_monotone 1 2); lia.
Defined.

(** ** The polynomial builder *)

Lemma while_loop_skip {A} fuel (cond : A -> bool) body x s :
  cond x = false -> while_loop fuel cond body x s = Returns (x, s).
Proof. intros Hc. destruct fuel; simpl; rewrite Hc; reflexivity. Qed.

Lemma while_loop_exit {A} fuel (cond : A -> bool) body x s x' s' :
  while_loop fuel cond body x s = Returns (x', s') -> cond x' = false.
Proof.
  revert x s. induction fuel as [| fuel IH]; intros x s; simpl.
  - destruct (cond x) eqn:Hc; [discriminate |].
    intros [= <- _]. exact Hc.
  - destruct (cond x) eqn:Hc.
    + unfold bind. destruct (body s) as [[y s1] | e |]; try discriminate.
      apply IH.
    + intros [= <- _]. exact Hc.
Qed.

Lemma factor_loop_run n : forall p s,
  for_range n
    (fun polynomial =>
       factor <- _generate_linear_factor ;; ret (pmul polynomial factor)) p s
  = Returns (foldl (fun p a => pmul p (linear a)) p
               (factor_draws (tape s) (pos s) n),
             Rng (tape s) (pos s + n)).
Proof.
  induction n as [| n IH]; intros p s.
  - simpl. unfold ret. destruct s as [t k]. simpl.
    rewrite Nat.add_0_r. reflexivity.
  - cbn [for_range].
    rewrite (bind_returns _ _ s (pmul p (linear (-5 + tape s (pos s) mod 11)))
               (advance s)).
    + rewrite IH. simpl. do 2 f_equal. f_equal. lia.
    + rewrite (bind_returns _ _ _ _ _ (linear_factor_run s)). reflexivity.
Qed.

Lemma coeff_foldl_linear roots : forall p,
  coeff (foldl (fun p a => pmul p (linear a)) p roots) = coeff p.
Proof.
  induction roots as [| a roots IH]; intros p; simpl; [reflexivity |].
  rewrite IH. simpl. lia.
Qed.

Lemma xpow_foldl_linear roots : forall p,
  xpow (foldl (fun p a => pmul p (linear a)) p roots) = xpow p.
Proof.
  induction roots as [| a roots IH]; intros p; simpl; [reflexivity |].
  rewrite IH. simpl. lia.
Qed.

Lemma lin_foldl_linear roots : forall p,
  lin (foldl (fun p a => pmul p (linear a)) p roots) = lin p ++ roots.
Proof.
  induction roots as [| a roots IH]; intros p; simpl.
  - rewrite app_nil_r. reflexivity.
  - rewrite IH. simpl. rewrite <- app_assoc. reflexivity.
Qed.

Lemma linear_product_shape roots : linear_product roots = Poly 1 0 roots.
Proof.
  unfold linear_product.
  pose proof (coeff_foldl_linear roots (pconst 1)) as Hc.
  pose proof (xpow_foldl_linear roots (pconst 1)) as Hx.
  pose proof (lin_foldl_linear roots (pconst 1)) as Hl.
  destruct (foldl _ _ _) as [c k l]. simpl in *. congruence.
Qed.

Lemma factor_draws_length t p n : length (factor_draws t p n) = n.
Proof. unfold factor_draws. rewrite length_map, length_seq. reflexivity. Qed.

Lemma factor_draws_range t p n :
  Forall (fun a => -5 <= a <= 5) (factor_draws t p n).
Proof.
  unfold factor_draws. apply Forall_map, Forall_forall. intros i _. simpl.
  pose proof (Z.mod_pos_bound (t i) 11). lia.
Qed.

(** What [_generate_polynomial] returns, read off the tape. *)
Lemma generate_polynomial_run md mf s :
  1 <= md -> 1 <= mf ->
  let degree := 1 + tape s (pos s) mod md in
  let factors := 1 + tape s (S (pos s)) mod (Z.min mf degree) in
  let q := linear_product
             (factor_draws (tape s) (S (S (pos s))) (Z.to_nat factors)) in
  let s3 := Rng (tape s) (S (S (pos s)) + Z.to_nat factors) in
  _generate_polynomial md mf s
  = if 0 <? degree - factors then
      let drawn := -5 + tape s3 (pos s3) mod 11 in
      let c := if drawn =? 0 then 1 else drawn in
      Returns (pmul q (pmul (pconst c) (xpower (degree - factors))), advance s3)
    else Returns (q, s3).
Proof.
  intros Hmd Hmf degree factors q s3.
  assert (Hdeg : 1 <= degree <= md).
  { pose proof (Z.mod_pos_bound (tape s (pos s)) md). lia. }
  unfold _generate_polynomial.
  rewrite (bind_returns _ _ _ _ _ (randint_run 1 md s Hmd)).
  replace (md - 1 + 1) with md by lia. fold degree.
  rewrite (bind_returns _ _ _ _ _
             (randint_run 1 (Z.min mf degree) (advance s) ltac:(lia))).
  replace (Z.min mf degree - 1 + 1) with (Z.min mf degree) by lia.
  cbn [advance tape pos]. fold factors.
  rewrite (bind_returns _ _ _ _ _ (factor_loop_run (Z.to_nat factors) _ _)).
  cbn [advance tape pos]. fold (linear_product
    (factor_draws (tape s) (S (S (pos s))) (Z.to_nat factors))). fold q. fold s3.
  destruct (0 <? degree - factors); [| reflexivity].
  rewrite (bind_returns _ _ _ _ _ (randint_run (-5) 5 s3 ltac:(lia))).
  reflexivity.
Qed.

Lemma generate_polynomial_nonzero md mf s :
  1 <= md -> 1 <= mf ->
  returns_with (_generate_polynomial md mf) s (fun p _ => coeff p <> 0).
Proof.
  intros Hmd Hmf. unfold returns_with.
  rewrite (generate_polynomial_run md mf s Hmd Hmf). cbv zeta.
  destruct (0 <? _).
  - eexists; eexists; split; [reflexivity |].
    rewrite linear_product_shape. cbn [coeff pmul pconst xpower].
    cbn [tape pos].
    match goal with |- context [if ?d =? 0 then _ else _] =>
      destruct (Z.eqb_spec d 0) end; lia.
  - eexists; eexists; split; [reflexivity |].
    rewrite linear_product_shape. simpl. lia.
Qed.

(** ** C7: the denominator is never the zero polynomial *)

Lemma abs_sum_nonneg l : 0 <= foldr (fun a acc => Z.abs a + acc) 0 l.
Proof. induction l as [| a l IH]; simpl; lia. Qed.

Lemma linear_factors_positive l : forall x,
  1 + foldr (fun a acc => Z.abs a + acc) 0 l <= x ->
  0 < foldr (fun a acc => (x - a) * acc) 1 l.
Proof.
  induction l as [| a l IH]; intros x Hx; simpl in *; [lia |].
  pose proof (abs_sum_nonneg l).
  apply Z.mul_pos_pos; [lia | apply IH; lia].
Qed.

Lemma peval_nonzero_point p : coeff p <> 0 -> exists x, peval p x <> 0.
Proof.
  intros Hc.
  set (x := 1 + foldr (fun a acc => Z.abs a + acc) 0 (lin p)).
  assert (Hx : 1 <= x).
  { subst x. pose proof (abs_sum_nonneg (lin p)). lia. }
  exists x. unfold peval.
  pose proof (linear_factors_positive (lin p) x ltac:(subst x; lia)) as Hprod.
  pose proof (Z.pow_pos_nonneg x (Z.of_nat (xpow p)) ltac:(lia) ltac:(lia)).
  apply Z.neq_mul_0. split; [apply Z.neq_mul_0; split; lia | lia].
Qed.

(** The test [p == 0] holds exactly of the polynomial that vanishes
    everywhere. *)
Lemma is_zero_iff p : is_zero p = true <-> forall x, peval p x = 0.
Proof.
  unfold is_zero. split.
  - intros Hc x. apply Z.eqb_eq in Hc. unfold peval. rewrite Hc. lia.
  - intros Hall. apply Z.eqb_eq.
    destruct (Z.eq_dec (coeff p) 0) as [Hc | Hc]; [exact Hc |].
    destruct (peval_nonzero_point p Hc) as [x Hx]. elim Hx. apply Hall.
Qed.

Lemma config_bounds (level1 : Config) (difficulty : Z) :
  difficulty_configs !! 1 = Some level1 ->
  let config := default level1 (difficulty_configs !! difficulty) in
  1 <= max_degree config /\ 1 <= max_factors config.
Proof.
  intros H1.
  destruct (decide (1 <= difficulty <= 5)) as [Hin | Hout].
  - assert (Hd : difficulty = 1 \/ difficulty = 2 \/ difficulty = 3
                 \/ difficulty = 4 \/ difficulty = 5) by lia.
    destruct Hd as [-> | [-> | [-> | [-> | ->]]]]; vm_compute; split; congruence.
  - rewrite (difficulty_configs_outside difficulty Hout).
    vm_compute in H1. injection H1 as <-. vm_compute; split; congruence.
Qed.

Lemma generate_function_returns L fuel difficulty s :
  returns_with (generate_function L fuel difficulty) s
    (fun spec _ => coeff (denominator spec) <> 0 /\ coeff (numerator spec) <> 0).
Proof.
  unfold generate_function.
  apply returns_bind. exists {| max_degree := 2; max_factors := 2;
                                holes_prob := 3 # 10 |}, s.
  split; [reflexivity |].
  destruct (config_bounds _ difficulty eq_refl) as [Hmd Hmf].
  set (config := default _ (difficulty_configs !! difficulty)) in *.
  apply returns_bind.
  eapply returns_mono; [| apply (generate_polynomial_nonzero _ _ s Hmd Hmf)].
  intros num s1 Hnum.
  apply returns_bind.
  eapply returns_mono; [| apply (generate_polynomial_nonzero _ _ s1 Hmd Hmf)].
  intros den s2 Hden.
  apply returns_bind. exists den, s2. split.
  { apply while_loop_skip. unfold is_zero. apply Z.eqb_neq. exact Hden. }
  apply returns_bind. eexists; eexists; split; [reflexivity |].
  apply returns_bind.
  destruct (Qltb _ _).
  - apply returns_bind. eexists; eexists; split; [apply linear_factor_run |].
    apply returns_ret. apply returns_ret. cbv beta in *. simpl. split; lia.
  - apply returns_ret. apply returns_ret. cbv beta in *. simpl.
    split; assumption.
Qed.

(** C7.  For every difficulty, in or out of range, every fuel and every
    state of the random source, [generate_function] returns a spec whose
    denominator is not the zero polynomial: the test [denominator == 0]
    fails on it and it takes a nonzero value somewhere; this is the
    denominator after the shared hole factor, when there is one, has been
    multiplied in.  The regeneration loop itself only ever exits on a
    denominator that passes the test. *)
Theorem generate_function_denominator_nonzero
    (L : Lib) (fuel : nat) (difficulty : Z) (s : rng) :
  (exists spec s',
     generate_function L fuel difficulty s = Returns (spec, s')
     /\ is_zero (denominator spec) = false
     /\ exists x, peval (denominator spec) x <> 0)
  /\ (forall regenerate den0 s0 den1 s1,
        while_loop fuel is_zero regenerate den0 s0 = Returns (den1, s1) ->
        is_zero den1 = false).
Proof.
  split.
  - destruct (generate_function_returns L fuel difficulty s)
      as (spec & s' & Hrun & Hden & _).
    exists spec, s'. split; [exact Hrun |]. split.
    + unfold is_zero. apply Z.eqb_neq. exact Hden.
    + apply peval_nonzero_point. exact Hden.
  - intros regenerate den0 s0 den1 s1 Hloop.
    exact (while_loop_exit _ _ _ _ _ _ _ Hloop).
Qed.

(** ** C9: the monomial of the remaining degree *)

(** C9, as the code has it.  When the degree drawn exceeds the number of
    factors drawn, [_generate_polynomial] returns the product of that many
    linear factors [(x - a)], [a] in [-5, 5], times exactly one monomial
    [c * x^(degree - factors)]; [c] comes from a single draw in [-5, 5],
    a drawn 0 being replaced by 1, so [c] is a nonzero integer of
    [-5, 5], and no further draw is made. *)
Theorem generate_polynomial_monomial
    (md mf : Z) (s s1 s2 : rng) (degree factors : Z) :
  randint 1 md s = Returns (degree, s1) ->
  randint 1 (Z.min mf degree) s1 = Returns (factors, s2) ->
  factors < degree ->
  exists roots s3 drawn s4 c,
    length roots = Z.to_nat factors
    /\ Forall (fun a => -5 <= a <= 5) roots
    /\ for_range (Z.to_nat factors)
         (fun polynomial =>
            factor <- _generate_linear_factor ;; ret (pmul polynomial factor))
         (pconst 1) s2 = Returns (linear_product roots, s3)
    /\ randint (-5) 5 s3 = Returns (drawn, s4)
    /\ c = (if drawn =? 0 then 1 else drawn)
    /\ c <> 0 /\ -5 <= c <= 5
    /\ _generate_polynomial md mf s
       = Returns (pmul (linear_product roots)
                    (pmul (pconst c) (xpower (degree - factors))), s4).
Proof.
  intros Hdeg Hfac Hlt.
  assert (Hmd : 1 <= md).
  { unfold randint in Hdeg.
    destruct (Z.ltb_spec md 1); [discriminate | assumption]. }
  rewrite (randint_run 1 md s Hmd) in Hdeg.
  replace (md - 1 + 1) with md in Hdeg by lia.
  injection Hdeg as <- <-.
  set (degree := 1 + tape s (pos s) mod md) in *.
  assert (Hmf : 1 <= Z.min mf degree).
  { unfold randint in Hfac.
    destruct (Z.ltb_spec (Z.min mf degree) 1); [discriminate | assumption]. }
  rewrite (randint_run 1 _ (advance s) Hmf) in Hfac.
  replace (Z.min mf degree - 1 + 1) with (Z.min mf degree) in Hfac by lia.
  cbn [advance tape pos] in Hfac.
  injection Hfac as <- <-.
  set (factors := 1 + tape s (S (pos s)) mod Z.min mf degree) in *.
  pose proof (generate_polynomial_run md mf s Hmd ltac:(lia)) as Hrun.
  cbv zeta in Hrun. fold degree in Hrun. fold factors in Hrun.
  set (roots := factor_draws (tape s) (S (S (pos s))) (Z.to_nat factors)) in *.
  set (s3 := Rng (tape s) (S (S (pos s)) + Z.to_nat factors)) in *.
  set (drawn := -5 + tape s3 (pos s3) mod 11) in *.
  exists roots, s3, drawn, (advance s3), (if drawn =? 0 then 1 else drawn).
  assert (Hdrawn : -5 <= drawn <= 5).
  { subst drawn. pose proof (Z.mod_pos_bound (tape s3 (pos s3)) 11). lia. }
  split; [apply factor_draws_length |].
  split; [apply factor_draws_range |].
  split; [apply (factor_loop_run (Z.to_nat factors) (pconst 1)
                   (Rng (tape s) (S (S (pos s))))) |].
  split; [apply randint_run; lia |].
  split; [reflexivity |].
  split; [destruct (Z.eqb_spec drawn 0); lia |].
  split; [destruct (Z.eqb_spec drawn 0); lia |].
  rewrite Hrun.
  destruct (Z.ltb_spec 0 (degree - factors)); [reflexivity | lia].
Qed.

Lemma generate_polynomial_monomial_witness :
  exists roots s3 drawn s4 c,
    length roots = Z.to_nat 1
    /\ Forall (fun a => -5 <= a <= 5) roots
    /\ for_range (Z.to_nat 1)
         (fun polynomial =>
            factor <- _generate_linear_factor ;; ret (pmul polynomial factor))
         (pconst 1) (Rng tape_zero_coeff 2) = Returns (linear_product roots, s3)
    /\ randint (-5) 5 s3 = Returns (drawn, s4)
    /\ c = (if drawn =? 0 then 1 else drawn)
    /\ c <> 0 /\ -5 <= c <= 5
    /\ _generate_polynomial 2 2 (Rng tape_zero_coeff 0)
       = Returns (pmul (linear_product roots)
                    (pmul (pconst c) (xpower (2 - 1))), s4).
Proof.
  apply (generate_polynomial_monomial 2 2 (Rng tape_zero_coeff 0)
           (Rng tape_zero_coeff 1) (Rng tape_zero_coeff 2) 2 1);
    [reflexivity | reflexivity | lia].
Defined.

(** C9 as the spec has it fails: on the tape that draws degree 2, one
    factor and then a zero coefficient, the code returns the coefficient 1
    where drawing again gives the 4 that is next on the tape. *)
Lemma generate_polynomial_zero_draw_not_resampled :
  run (_generate_polynomial 2 2) tape_zero_coeff = Returns (Poly 1 1 [-2])
  /\ run (spec_generate_polynomial 1 2 2) tape_zero_coeff
     = Returns (Poly 4 1 [-2])
  /\ run (_generate_polynomial 2 2) tape_zero_coeff
     <> run (spec_generate_polynomial 1 2 2) tape_zero_coeff.
Proof.
  split; [reflexivity |]. split; [reflexivity |].
  vm_compute. discriminate.
Qed.

(** ** The analyzer *)

Lemma root_eqb_eq a b : root_eqb a b = true <-> a = b.
Proof.
  destruct a as [x | i], b as [y | j]; simpl; split; try discriminate.
  - intros H. apply Z.eqb_eq in H. congruence.
  - intros [= ->]. apply Z.eqb_refl.
  - intros H. apply Nat.eqb_eq in H. congruence.
  - intros [= ->]. apply Nat.eqb_refl.
Qed.

Lemma existsb_root_eqb r l : existsb (root_eqb r) l = true <-> r ∈ l.
Proof.
  rewrite existsb_exists. split.
  - intros (x & Hin & Heq). apply root_eqb_eq in Heq. subst x.
    apply list_elem_of_In. exact Hin.
  - intros Hin. exists r. split; [apply list_elem_of_In; exact Hin |].
    apply root_eqb_eq. reflexivity.
Qed.

Lemma inject_Z_inj x y : inject_Z x = inject_Z y -> x = y.
Proof. intros [= H]. exact H. Qed.

(** The loop over the denominator's roots: a real root goes to the holes
    when it is among the numerator's roots, to the vertical asymptotes
    when it is not, and nothing else is added. *)
Lemma classify_den_roots_spec num_roots den_roots : forall vas hs,
  exists vas' hs',
    classify_den_roots num_roots den_roots vas hs = Ok (vas', hs')
    /\ (forall q, q ∈ hs' <->
          q ∈ hs \/ exists z, RInt z ∈ den_roots /\ RInt z ∈ num_roots
                              /\ q = inject_Z z)
    /\ (forall q, q ∈ vas' <->
          q ∈ vas \/ exists z, RInt z ∈ den_roots /\ (RInt z ∉ num_roots)
                               /\ q = inject_Z z).
Proof.
  induction den_roots as [| r rest IH]; intros vas hs.
  - exists vas, hs. split; [reflexivity |].
    split; intros q; split; auto; intros [H | (z & Hz & _)]; auto;
      inversion Hz.
  - cbn [classify_den_roots]. destruct r as [z | k]; cbn [is_real].
    + destruct (existsb (root_eqb (RInt z)) num_roots) eqn:Hmem;
        cbn [root_float rbind].
      * apply existsb_root_eqb in Hmem.
        destruct (IH vas (hs ++ [inject_Z z])) as (vas' & hs' & Hrun & Hh & Hv).
        exists vas', hs'. split; [exact Hrun |]. split; intros q.
        -- rewrite Hh, elem_of_app, list_elem_of_singleton. split.
           ++ intros [[H | ->] | (y & Hy & Hn & ->)]; eauto.
              ** right. exists z. split; [left | auto].
              ** right. exists y. split; [right; exact Hy | auto].
           ++ intros [H | (y & Hy & Hn & ->)]; auto.
              apply elem_of_cons in Hy as [[= ->] | Hy]; eauto 6.
        -- rewrite Hv. split.
           ++ intros [H | (y & Hy & Hn & ->)]; auto.
              right. exists y. split; [right; exact Hy | auto].
           ++ intros [H | (y & Hy & Hn & ->)]; auto.
              apply elem_of_cons in Hy as [[= ->] | Hy]; [contradiction |].
              eauto 6.
      * assert (Hnot : RInt z ∉ num_roots).
        { intros Hin. apply existsb_root_eqb in Hin. congruence. }
        destruct (IH (vas ++ [inject_Z z]) hs) as (vas' & hs' & Hrun & Hh & Hv).
        exists vas', hs'. split; [exact Hrun |]. split; intros q.
        -- rewrite Hh. split.
           ++ intros [H | (y & Hy & Hn & ->)]; auto.
              right. exists y. split; [right; exact Hy | auto].
           ++ intros [H | (y & Hy & Hn & ->)]; auto.
              apply elem_of_cons in Hy as [[= ->] | Hy]; [contradiction |].
              eauto 6.
        -- rewrite Hv, elem_of_app, list_elem_of_singleton. split.
           ++ intros [[H | ->] | (y & Hy & Hn & ->)]; eauto.
              ** right. exists z. split; [left | auto].
              ** right. exists y. split; [right; exact Hy | auto].
           ++ intros [H | (y & Hy & Hn & ->)]; auto.
              apply elem_of_cons in Hy as [[= ->] | Hy]; eauto 6.
    + destruct (IH vas hs) as (vas' & hs' & Hrun & Hh & Hv).
      exists vas', hs'. split; [exact Hrun |]. split; intros q.
      * rewrite Hh. split; (intros [H | (y & Hy & Hn & ->)]; [auto |]).
        -- right. exists y. split; [right; exact Hy | auto].
        -- apply elem_of_cons in Hy as [[=] | Hy]. eauto 6.
      * rewrite Hv. split; (intros [H | (y & Hy & Hn & ->)]; [auto |]).
        -- right. exists y. split; [right; exact Hy | auto].
        -- apply elem_of_cons in Hy as [[=] | Hy]. eauto 6.
Qed.

(** The loop over the numerator's roots, for a library that compares a
    sympy integer and a float by value. *)
Lemma collect_x_intercepts_spec (L : Lib) hs num_roots :
  (forall z h, sp_eq_float L (RInt z) h = Qeq_bool (inject_Z z) h) ->
  forall acc,
  exists xs,
    collect_x_intercepts L hs num_roots acc = Ok xs
    /\ forall q, q ∈ xs <->
         q ∈ acc \/ exists z, RInt z ∈ num_roots /\ q = inject_Z z
                              /\ ~ (exists h, h ∈ hs /\ (inject_Z z == h)%Q).
Proof.
  intros Heq. induction num_roots as [| r rest IH]; intros acc.
  - exists acc. split; [reflexivity |].
    intros q; split; auto. intros [H | (z & Hz & _)]; auto. inversion Hz.
  - cbn [collect_x_intercepts]. destruct r as [z | k]; cbn [is_real andb].
    + destruct (existsb (sp_eq_float L (RInt z)) hs) eqn:Hmem; cbn [negb].
      * assert (Hhole : exists h, h ∈ hs /\ (inject_Z z == h)%Q).
        { apply existsb_exists in Hmem as (h & Hin & Hh).
          exists h. split; [apply list_elem_of_In; exact Hin |].
          rewrite Heq in Hh. apply Qeq_bool_iff. exact Hh. }
        destruct (IH acc) as (xs & Hrun & Hx).
        exists xs. split; [exact Hrun |]. intros q. rewrite Hx. split.
        -- intros [H | (y & Hy & -> & Hn)]; auto.
           right. exists y. split; [right; exact Hy | auto].
        -- intros [H | (y & Hy & -> & Hn)]; auto.
           apply elem_of_cons in Hy as [[= ->] | Hy]; [contradiction |].
           eauto 6.
      * assert (Hfree : ~ exists h, h ∈ hs /\ (inject_Z z == h)%Q).
        { intros (h & Hin & Hh).
          assert (existsb (sp_eq_float L (RInt z)) hs = true); [| congruence].
          apply existsb_exists. exists h.
          split; [apply list_elem_of_In; exact Hin |].
          rewrite Heq. apply Qeq_bool_iff. exact Hh. }
        cbn [root_float rbind].
        destruct (IH (acc ++ [inject_Z z])) as (xs & Hrun & Hx).
        exists xs. split; [exact Hrun |]. intros q.
        rewrite Hx, elem_of_app, list_elem_of_singleton. split.
        -- intros [[H | ->] | (y & Hy & -> & Hn)]; auto.
           ++ right. exists z. split; [left | auto].
           ++ right. exists y. split; [right; exact Hy | auto].
        -- intros [H | (y & Hy & -> & Hn)]; auto.
           apply elem_of_cons in Hy as [[= ->] | Hy]; eauto 6.
    + destruct (IH acc) as (xs & Hrun & Hx).
      exists xs. split; [exact Hrun |]. intros q. rewrite Hx.
      split; (intros [H | (y & Hy & -> & Hn)]; [auto |]).
      * right. exists y. split; [right; exact Hy | auto].
      * apply elem_of_cons in Hy as [[=] | Hy]. eauto 6.
Qed.

(** Once both [solve] calls have returned, nothing else in the analysis
    can raise. *)
Lemma analyze_function_solved (L : Lib) spec den_roots num_roots :
  sp_solve L (denominator spec) = Ok den_roots ->
  sp_solve L (numerator spec) = Ok num_roots ->
  exists vas hs xs,
    classify_den_roots num_roots den_roots [] [] = Ok (vas, hs)
    /\ collect_x_intercepts L hs num_roots [] = Ok xs
    /\ analyze_function L spec
       = Ok {| vertical_asymptotes := vas;
               holes := hs;
               horizontal_asymptote :=
                 _find_horizontal_asymptote L (numerator spec) (denominator spec);
               x_intercepts := xs;
               y_intercept :=
                 match sp_float_at_zero L (function spec) with
                 | Ok y => Some y
                 | Err _ => None
                 end |}.
Proof.
  intros Hden Hnum.
  destruct (classify_den_roots_spec num_roots den_roots [] [])
    as (vas & hs & Hcl & _).
  assert (Hxs : exists xs, collect_x_intercepts L hs num_roots [] = Ok xs).
  { clear. generalize (@nil Q).
    induction num_roots as [| r rest IH]; intros acc; [eauto |].
    cbn [collect_x_intercepts].
    destruct (is_real r && negb (existsb (sp_eq_float L r) hs)) eqn:Hc; [| auto].
    destruct r as [z | k]; [| discriminate]. cbn [root_float rbind]. auto. }
  destruct Hxs as [xs Hxs].
  exists vas, hs, xs. split; [exact Hcl |]. split; [exact Hxs |].
  unfold analyze_function. rewrite Hden, Hnum. cbn [rbind].
  rewrite Hcl. cbn [rbind fst snd]. rewrite Hxs. cbn [rbind].
  destruct (sp_float_at_zero L (function spec)); reflexivity.
Qed.

(** ** Roots of a product of linear factors *)

Lemma elem_of_exact_roots p z :
  z ∈ exact_roots p <-> (z = 0 /\ (0 < xpow p)%nat) \/ z ∈ lin p.
Proof.
  unfold exact_roots.
  rewrite merge_sort_Permutation, elem_of_remove_dups, elem_of_app.
  destruct (Nat.ltb_spec 0 (xpow p)) as [Hk | Hk].
  - rewrite list_elem_of_singleton. intuition.
  - split.
    + intros [H | H]; [inversion H | auto].
    + intros [[_ H] | H]; [lia | auto].
Qed.

Lemma linear_factors_root (r : R) l :
  foldr (fun a acc => (r - IZR a) * acc)%R 1%R l = 0%R
  <-> exists a, a ∈ l /\ r = IZR a.
Proof.
  induction l as [| a l IH]; simpl.
  - split; [intros H; exfalso; apply R1_neq_R0; exact H |].
    intros (a & Ha & _). inversion Ha.
  - split.
    + intros H. apply Rmult_integral in H as [H | H].
      * exists a. split; [left |]. apply Rminus_diag_uniq. exact H.
      * apply IH in H as (b & Hb & ->). exists b. split; [right |]; auto.
    + intros (b & Hb & ->). apply elem_of_cons in Hb as [-> | Hb].
      * rewrite Rminus_diag. apply Rmult_0_l.
      * rewrite (proj2 IH); [apply Rmult_0_r |]. eauto.
Qed.

Lemma power_root (r : R) (k : nat) :
  (r ^ k)%R = 0%R <-> (0 < k)%nat /\ r = 0%R.
Proof.
  split.
  - intros H. destruct k as [| k].
    + simpl in H. exfalso. apply R1_neq_R0. exact H.
    + split; [lia |].
      destruct (Req_dec r 0) as [Hr | Hr]; [exact Hr |].
      exfalso. apply (pow_nonzero r (S k) Hr). exact H.
  - intros [Hk ->]. apply pow_i. exact Hk.
Qed.

(** The numbers [exact_solve] lists are the real roots, all of them. *)
Lemma pevalR_root p (r : R) :
  coeff p <> 0 ->
  pevalR p r = 0%R <-> exists z, z ∈ exact_roots p /\ r = IZR z.
Proof.
  intros Hc. unfold pevalR. split.
  - intros H. apply Rmult_integral in H as [H | H].
    + apply Rmult_integral in H as [H | H].
      * apply eq_IZR_R0 in H. contradiction.
      * apply power_root in H as [Hk ->].
        exists 0. split; [apply elem_of_exact_roots; auto | reflexivity].
    + apply linear_factors_root in H as (a & Ha & ->).
      exists a. split; [apply elem_of_exact_roots; auto | reflexivity].
  - intros (z & Hz & ->). apply elem_of_exact_roots in Hz as [[-> Hk] | Hz].
    + rewrite (proj2 (power_root 0 (xpow p))) by auto.
      rewrite Rmult_0_r. apply Rmult_0_l.
    + rewrite (proj2 (linear_factors_root (IZR z) (lin p))) by eauto.
      apply Rmult_0_r.
Qed.

Lemma exact_solve_nonzero p :
  is_zero p = false -> exact_solve p = Ok (map RInt (exact_roots p)).
Proof. intros H. unfold exact_solve. rewrite H. reflexivity. Qed.

Lemma exact_solve_total p : exists roots, exact_solve p = Ok roots.
Proof. unfold exact_solve. destruct (is_zero p); eauto. Qed.

Lemma elem_of_map_RInt z l : RInt z ∈ map RInt l <-> z ∈ l.
Proof.
  rewrite list_elem_of_fmap. split.
  - intros (y & [= ->] & Hy). exact Hy.
  - intros Hz. eauto.
Qed.

(** ** C3: holes and vertical asymptotes *)

(** C3.  On sympy's exact answers, for a spec whose numerator and
    denominator are not the zero polynomial, [analyze_function] returns,
    and every real root [r] of the denominator is an integer that is
    listed among the holes exactly when [r] is a root of the numerator and
    among the vertical asymptotes exactly when it is not.  The membership
    test between roots is equality itself. *)
Theorem analyze_function_hole_or_asymptote
    (release : sympy_release)
    (str_of latex_of : Quotient -> string) (repr_of : Q -> string)
    (spec : FunctionSpec) :
  is_zero (numerator spec) = false ->
  is_zero (denominator spec) = false ->
  (exists an,
     analyze_function (exact_lib release str_of latex_of repr_of) spec = Ok an
     /\ forall r : R,
          pevalR (denominator spec) r = 0%R ->
          exists z,
            r = IZR z
            /\ (inject_Z z ∈ holes an <-> pevalR (numerator spec) r = 0%R)
            /\ (inject_Z z ∈ vertical_asymptotes an
                <-> pevalR (numerator spec) r <> 0%R))
  /\ (forall a b, root_eqb a b = true <-> a = b).
Proof.
  intros Hnum Hden. split; [| exact root_eqb_eq].
  set (L := exact_lib release str_of latex_of repr_of).
  destruct (analyze_function_solved L spec _ _
              (exact_solve_nonzero _ Hden) (exact_solve_nonzero _ Hnum))
    as (vas & hs & xs & Hcl & _ & Hrun).
  eexists. split; [exact Hrun |]. cbn [holes vertical_asymptotes].
  destruct (classify_den_roots_spec
              (map RInt (exact_roots (numerator spec)))
              (map RInt (exact_roots (denominator spec))) [] [])
    as (vas' & hs' & Hcl' & Hh & Hv).
  rewrite Hcl in Hcl'. injection Hcl' as <- <-.
  assert (Hcn : coeff (numerator spec) <> 0)
    by (apply Z.eqb_neq; exact Hnum).
  assert (Hcd : coeff (denominator spec) <> 0)
    by (apply Z.eqb_neq; exact Hden).
  intros r Hr. apply (pevalR_root _ _ Hcd) in Hr as (z & Hz & ->).
  exists z. split; [reflexivity |].
  assert (Hroot : pevalR (numerator spec) (IZR z) = 0%R
                  <-> z ∈ exact_roots (numerator spec)).
  { rewrite (pevalR_root _ _ Hcn). split.
    - intros (y & Hy & Heq). apply eq_IZR in Heq. subst y. exact Hy.
    - eauto. }
  split.
  - rewrite Hh, Hroot. split.
    + intros [H | (y & _ & Hy & Heq)]; [inversion H |].
      apply inject_Z_inj in Heq. subst y.
      apply elem_of_map_RInt. exact Hy.
    + intros Hin. right. exists z.
      rewrite !elem_of_map_RInt. auto.
  - rewrite Hv, Hroot. split.
    + intros [H | (y & _ & Hy & Heq)]; [inversion H |].
      apply inject_Z_inj in Heq. subst y.
      rewrite elem_of_map_RInt in Hy. exact Hy.
    + intros Hnin. right. exists z.
      rewrite !elem_of_map_RInt. auto.
Qed.

Lemma analyze_function_hole_or_asymptote_witness :
  (exists an,
     analyze_function plain_lib spec_hole_and_pole = Ok an
     /\ forall r : R,
          pevalR (denominator spec_hole_and_pole) r = 0%R ->
          exists z,
            r = IZR z
            /\ (inject_Z z ∈ holes an
                <-> pevalR (numerator spec_hole_and_pole) r = 0%R)
            /\ (inject_Z z ∈ vertical_asymptotes an
                <-> pevalR (numerator spec_hole_and_pole) r <> 0%R))
  /\ (forall a b, root_eqb a b = true <-> a = b).
Proof.
  apply (analyze_function_hole_or_asymptote Before_1_13 show_quotient show_quotient
           show_fraction spec_hole_and_pole); reflexivity.
Defined.

(** ** C5: holes and x-intercepts *)

(** The loop over the numerator's roots keeps the real roots that the
    library's [==] finds equal to no hole. *)
Lemma collect_x_intercepts_test (L : Lib) hs num_roots :
  forall acc,
  exists xs,
    collect_x_intercepts L hs num_roots acc = Ok xs
    /\ forall q, q ∈ xs <->
         q ∈ acc \/ exists z, RInt z ∈ num_roots /\ q = inject_Z z
                              /\ existsb (sp_eq_float L (RInt z)) hs = false.
Proof.
  induction num_roots as [| r rest IH]; intros acc.
  - exists acc. split; [reflexivity |].
    intros q; split; auto. intros [H | (z & Hz & _)]; auto. inversion Hz.
  - cbn [collect_x_intercepts]. destruct r as [z | k]; cbn [is_real andb].
    + destruct (existsb (sp_eq_float L (RInt z)) hs) eqn:Hmem; cbn [negb].
      * destruct (IH acc) as (xs & Hrun & Hx).
        exists xs. split; [exact Hrun |]. intros q. rewrite Hx. split.
        -- intros [H | (y & Hy & -> & Hn)]; auto.
           right. exists y. split; [right; exact Hy | auto].
        -- intros [H | (y & Hy & -> & Hn)]; auto.
           apply elem_of_cons in Hy as [[= ->] | Hy]; [congruence |].
           eauto 6.
      * cbn [root_float rbind].
        destruct (IH (acc ++ [inject_Z z])) as (xs & Hrun & Hx).
        exists xs. split; [exact Hrun |]. intros q.
        rewrite Hx, elem_of_app, list_elem_of_singleton. split.
        -- intros [[H | ->] | (y & Hy & -> & Hn)]; auto.
           ++ right. exists z. split; [left | auto].
           ++ right. exists y. split; [right; exact Hy | auto].
        -- intros [H | (y & Hy & -> & Hn)]; auto.
           apply elem_of_cons in Hy as [[= ->] | Hy]; eauto 6.
    + destruct (IH acc) as (xs & Hrun & Hx).
      exists xs. split; [exact Hrun |]. intros q. rewrite Hx.
      split; (intros [H | (y & Hy & -> & Hn)]; [auto |]).
      * right. exists y. split; [right; exact Hy | auto].
      * apply elem_of_cons in Hy as [[=] | Hy]. eauto 6.
Qed.

(** For every spec and either release, no hole equals a vertical
    asymptote; with a sympy before release 1.13, where
    [root not in holes] compares by value, no hole equals an x-intercept
    either. *)
Lemma holes_disjoint_by_release
    (release : sympy_release)
    (str_of latex_of : Quotient -> string) (repr_of : Q -> string)
    (spec : FunctionSpec) :
  exists an,
    analyze_function (exact_lib release str_of latex_of repr_of) spec = Ok an
    /\ (forall h v, h ∈ holes an -> v ∈ vertical_asymptotes an ->
                    ~ (h == v)%Q)
    /\ (release = Before_1_13 ->
        forall h x, h ∈ holes an -> x ∈ x_intercepts an -> ~ (h == x)%Q).
Proof.
  set (L := exact_lib release str_of latex_of repr_of).
  destruct (exact_solve_total (denominator spec)) as [den_roots Hden].
  destruct (exact_solve_total (numerator spec)) as [num_roots Hnum].
  destruct (analyze_function_solved L spec den_roots num_roots Hden Hnum)
    as (vas & hs & xs & Hcl & Hxs & Hrun).
  eexists. split; [exact Hrun |].
  cbn [holes vertical_asymptotes x_intercepts].
  destruct (classify_den_roots_spec num_roots den_roots [] [])
    as (vas' & hs' & Hcl' & Hh & Hv).
  rewrite Hcl in Hcl'. injection Hcl' as <- <-.
  split.
  - intros h v Hin_h Hin_v Heq.
    apply Hh in Hin_h as [Hin_h | (z1 & _ & Hz1 & ->)]; [inversion Hin_h |].
    apply Hv in Hin_v as [Hin_v | (z2 & _ & Hz2 & ->)]; [inversion Hin_v |].
    unfold Qeq in Heq. simpl in Heq.
    assert (z1 = z2) by lia. subst z2. contradiction.
  - intros Hrel h x Hin_h Hin_x Heq. subst release.
    destruct (collect_x_intercepts_spec L hs num_roots
                (fun z h => eq_refl) []) as (xs' & Hxs' & Hx).
    rewrite Hxs in Hxs'. injection Hxs' as <-.
    apply Hx in Hin_x as [Hin_x | (z & _ & -> & Hfree)]; [inversion Hin_x |].
    apply Hfree. exists h. split; [exact Hin_h |]. symmetry. exact Heq.
Qed.

(** C5.  With a sympy since release 1.13 a hole is listed among the
    x-intercepts as well.  Level 1 builds [(x - 2) / ((x - 2) (x - 3))] on
    the tape [tape_shared_root]; its analysis has the hole 2, and
    [root not in holes] compares the sympy integer 2 with the float 2.0,
    which that sympy finds different, so that 2 is an x-intercept too.
    With a sympy before 1.13 the same spec has no x-intercept. *)
Theorem hole_listed_as_x_intercept :
  generate_function plain_lib_1_13 0 1 (Rng tape_shared_root 0)
  = Returns (spec_hole_and_pole, Rng tape_shared_root 8)
  /\ analyze_function plain_lib_1_13 spec_hole_and_pole
     = Ok {| vertical_asymptotes := [3%Q];
             holes := [2%Q];
             horizontal_asymptote := PFloat 0;
             x_intercepts := [2%Q];
             y_intercept := Some (-1 # 3) |}
  /\ analyze_function plain_lib spec_hole_and_pole
     = Ok {| vertical_asymptotes := [3%Q];
             holes := [2%Q];
             horizontal_asymptote := PFloat 0;
             x_intercepts := [];
             y_intercept := Some (-1 # 3) |}.
Proof. repeat split; vm_compute; reflexivity. Qed.

(** ** C2: the analysis of a generated spec returns *)



(** ** C4: the horizontal asymptote *)

(** C4.  The horizontal asymptote [analyze_function] reports is what
    [_find_horizontal_asymptote] makes of the limit at infinity: a finite
    real limit gives that number, a limit of [oo] or [-oo] gives the
    none-marker, and every other answer ([zoo], [nan], a number off the
    real line) as well as a [limit] that raises gives 0. *)
Theorem find_horizontal_asymptote_three_way (L : Lib) (spec : FunctionSpec) :
  let ha := _find_horizontal_asymptote L (numerator spec) (denominator spec) in
  match analyze_function L spec with
  | Ok an => horizontal_asymptote an = ha
  | Err _ => True
  end
  /\ match sp_limit L (numerator spec) (denominator spec) with
     | Ok (LNum q) => ha = PFloat q
     | Ok LOo | Ok LNegOo => ha = PNone
     | Ok LZoo | Ok LNan | Ok (LComplex _ _) => ha = PInt 0
     | Err _ => ha = PInt 0
     end.
Proof.
  intros ha. split.
  - unfold analyze_function.
    destruct (sp_solve L (denominator spec)) as [den_roots |]; [| exact I].
    destruct (sp_solve L (numerator spec)) as [num_roots |]; [| exact I].
    cbn [rbind].
    destruct (classify_den_roots _ _ _ _) as [vh |]; [| exact I].
    cbn [rbind].
    destruct (collect_x_intercepts _ _ _ _) as [xs |]; [| exact I].
    cbn [rbind].
    destruct (sp_float_at_zero L (function spec)); reflexivity.
  - subst ha. unfold _find_horizontal_asymptote.
    destruct (sp_limit L (numerator spec) (denominator spec)) as [l | e];
      [destruct l |]; reflexivity.
Qed.

(** ** Shuffling *)

Lemma swap_Permutation {A} (i j : nat) (x : list A) : swap i j x ≡ₚ x.
Proof.
  unfold swap.
  destruct (x !! i) as [xi |] eqn:Hi; [| reflexivity].
  destruct (x !! j) as [xj |] eqn:Hj; [| reflexivity].
  apply Permutation_insert_swap; assumption.
Qed.

Lemma shuffle_from_Permutation {A} (i : nat) : forall (x : list A) s,
  returns_with (shuffle_from i x) s (fun y s' => y ≡ₚ x /\ tape s' = tape s).
Proof.
  induction i as [| i IH]; intros x s.
  - apply returns_ret. split; reflexivity.
  - cbn [shuffle_from]. apply returns_bind.
    eexists; eexists; split; [apply randbelow_run |].
    eapply returns_mono; [| apply IH].
    intros y s' [Hperm Htape]. split.
    + rewrite Hperm. apply swap_Permutation.
    + rewrite Htape. reflexivity.
Qed.

Lemma shuffle_Permutation {A} (x : list A) s :
  returns_with (shuffle x) s (fun y s' => y ≡ₚ x /\ tape s' = tape s).
Proof. apply shuffle_from_Permutation. Qed.

(** ** C1: four distinct choices *)

(** C1 fails on the vertical-asymptote builder.  For [(x - 1) / (x - 2)],
    whose only vertical asymptote is 2, on the tape that keeps drawing
    the value 1 the builder returns the choices ["[1]"; "[1]"; "[2.0]";
    "[1]"]: the three wrong answers coincide, because a drawn integer is
    looked up in a list of one-element lists, where it never is. *)
Theorem va_question_repeats_a_distractor :
  exists an q,
    analyze_function plain_lib spec_one_pole = Ok an
    /\ run (_generate_va_question plain_lib 0 spec_one_pole an) tape_always_one
       = Returns q
    /\ run (generate_multiple_choice_question plain_lib 0 spec_one_pole an
              "vertical_asymptotes") tape_always_one
       = Returns q
    /\ choices q = ["[1]"; "[1]"; "[2.0]"; "[1]"]
    /\ correct_answer q = "[2.0]"
    /\ ~ NoDup (choices q).
Proof.
  eexists; eexists.
  split; [vm_compute; reflexivity |].
  split; [vm_compute; reflexivity |].
  split; [vm_compute; reflexivity |].
  split; [reflexivity |]. split; [reflexivity |].
  cbn [choices]. intros Hnd.
  apply NoDup_cons in Hnd as [Hnotin _]. apply Hnotin. left.
Qed.

(** The x-intercept builder on the same function, whose only x-intercept
    is 1: the first draw collides with the correct answer and the third
    with an earlier wrong answer; both are drawn again and the four
    choices differ. *)
Example x_intercept_question_resamples :
  exists q,
    run (_generate_x_intercept_question plain_lib 1 spec_one_pole
           analysis_one_pole) tape_with_collisions = Returns q
    /\ choices q = ["[2]"; "[3]"; "[4]"; "[1.0]"]
    /\ correct_answer q = "[1.0]"
    /\ NoDup (choices q).
Proof.
  eexists. split; [vm_compute; reflexivity |].
  split; [reflexivity |]. split; [reflexivity |].
  cbn [choices].
  repeat (apply NoDup_cons; split;
          [rewrite ?not_elem_of_cons; repeat split;
           first [discriminate | apply not_elem_of_nil] |]).
  apply NoDup_nil_2.
Qed.

(** ** C8: out-of-range arguments *)

Lemma questions_lookup_other (L : Lib) (fuel : nat) (question_type : string) :
  question_type ∉ question_types -> questions L fuel !! question_type = None.
Proof.
  intros Hout. unfold questions, question_types in *.
  rewrite !not_elem_of_cons in Hout.
  destruct Hout as (H1 & H2 & H3 & H4 & _).
  rewrite !lookup_insert_ne by congruence.
  apply lookup_singleton_ne. congruence.
Qed.

Lemma question_types_dispatch (L : Lib) (fuel : nat) (kind : string) :
  kind ∈ question_types ->
  exists build, questions L fuel !! kind = Some build.
Proof.
  intros Hin. unfold question_types in Hin.
  repeat (apply elem_of_cons in Hin as [-> | Hin];
          [eexists; vm_compute; reflexivity |]).
  inversion Hin.
Qed.

(** C8.  A difficulty outside 1..5 runs [generate_function] exactly as
    level 1 does, and it returns a spec.  A question type that is none of
    the four kinds makes [generate_multiple_choice_question] take one draw,
    pick the kind at index [draw mod 4] of the four kinds, which are
    distinct, and return what that kind's builder returns. *)
Theorem caller_misuse_is_normalized
    (L : Lib) (fuel : nat) (s : rng) (difficulty : Z)
    (function_dict : FunctionSpec) (analysis : Analysis)
    (question_type : string) :
  ~ (1 <= difficulty <= 5) ->
  question_type ∉ question_types ->
  (generate_function L fuel difficulty s = generate_function L fuel 1 s
   /\ exists spec s',
        generate_function L fuel difficulty s = Returns (spec, s'))
  /\ (exists kind build,
        question_types !! Z.to_nat (tape s (pos s) mod 4) = Some kind
        /\ questions L fuel !! kind = Some build
        /\ generate_multiple_choice_question L (S fuel) function_dict analysis
             question_type s
           = build function_dict analysis (advance s)
        /\ generate_multiple_choice_question L fuel function_dict analysis kind
           = build function_dict analysis)
  /\ NoDup question_types /\ length question_types = 4%nat.
Proof.
  intros Hd Hq. split; [| split].
  - split.
    + unfold generate_function.
      rewrite (difficulty_configs_outside difficulty Hd). reflexivity.
    + destruct (generate_function_returns L fuel difficulty s)
        as (spec & s' & Hrun & _). eauto.
  - pose proof (Z.mod_pos_bound (tape s (pos s)) 4 ltac:(lia)) as Hi.
    destruct (question_types !! Z.to_nat (tape s (pos s) mod 4))
      as [kind |] eqn:Hkind.
    2:{ apply lookup_ge_None in Hkind. simpl in Hkind. lia. }
    assert (Hin : kind ∈ question_types)
      by (apply list_elem_of_lookup; eauto).
    destruct (question_types_dispatch L fuel kind Hin) as [build Hbuild].
    exists kind, build. split; [reflexivity |]. split; [exact Hbuild |].
    split.
    + cbn [generate_multiple_choice_question].
      rewrite (questions_lookup_other L (S fuel) question_type Hq).
      unfold _generate_random_question, choice, bind.
      rewrite randbelow_run.
      change (Z.of_nat (length question_types)) with 4.
      rewrite Hkind. unfold ret.
      destruct fuel; cbn [generate_multiple_choice_question];
        rewrite Hbuild; reflexivity.
    + destruct fuel; cbn [generate_multiple_choice_question];
        rewrite Hbuild; reflexivity.
  - split; [| reflexivity].
    unfold question_types.
    repeat (apply NoDup_cons; split;
            [rewrite ?not_elem_of_cons; repeat split;
             first [discriminate | apply not_elem_of_nil] |]).
    apply NoDup_nil_2.
Qed.

Lemma caller_misuse_is_normalized_witness :
  (generate_function plain_lib 3 7 (Rng counting_tape 0)
   = generate_function plain_lib 3 1 (Rng counting_tape 0)
   /\ exists spec s',
        generate_function plain_lib 3 7 (Rng counting_tape 0)
        = Returns (spec, s'))
  /\ (exists kind build,
        question_types
          !! Z.to_nat (tape (Rng counting_tape 0) (pos (Rng counting_tape 0))
                       mod 4) = Some kind
        /\ questions plain_lib 3 !! kind = Some build
        /\ generate_multiple_choice_question plain_lib 4 spec_one_pole
             analysis_one_pole "random" (Rng counting_tape 0)
           = build spec_one_pole analysis_one_pole
               (advance (Rng counting_tape 0))
        /\ generate_multiple_choice_question plain_lib 3 spec_one_pole
             analysis_one_pole kind
           = build spec_one_pole analysis_one_pole)
  /\ NoDup question_types /\ length question_types = 4%nat.
Proof.
  apply (caller_misuse_is_normalized plain_lib 3 (Rng counting_tape 0) 7
           spec_one_pole analysis_one_pole "random"); [lia |].
  unfold question_types. rewrite !not_elem_of_cons.
  repeat split; first [discriminate | apply not_elem_of_nil].
Defined.

(** ** Loops that draw until a value is acceptable *)

Lemma settles_returns {A} (c : M A) s (P : A -> rng -> Prop) :
  returns_with c s P -> settles (fun _ => c) s P.
Proof. intros (a & s' & Hc & HP). exists 0%nat, a, s'. auto. Qed.

Lemma settles_bind {A B} (c : nat -> M A) (k : nat -> A -> M B) s
    (P : B -> rng -> Prop) :
  settles c s (fun a s1 => settles (fun fuel => k fuel a) s1 P) ->
  settles (fun fuel => x <- c fuel ;; k fuel x) s P.
Proof.
  intros (f0 & a & s1 & (f1 & b & s2 & HP & Hk) & Hc).
  exists (f0 `max` f1)%nat, b, s2. split; [exact HP |].
  intros fuel Hfuel. unfold bind. rewrite Hc by lia. apply Hk. lia.
Qed.

Lemma settles_mono {A} (c : nat -> M A) s (P Q : A -> rng -> Prop) :
  (forall a s', P a s' -> Q a s') -> settles c s P -> settles c s Q.
Proof. intros HPQ (f0 & a & s' & HP & Hc). exists f0, a, s'. auto. Qed.

(** A resampling loop whose body reads one raw draw stops as soon as the
    tape offers an acceptable value. *)
Lemma settles_while {A} (f : Z -> A) (cond : A -> bool) (body : M A) :
  (forall s, body s = Returns (f (tape s (pos s)), advance s)) ->
  forall n s x,
    cond (f (tape s (pos s + n))) = false ->
    settles (fun fuel => while_loop fuel cond body x) s
      (fun x' s' => cond x' = false /\ tape s' = tape s
                    /\ (x' = x \/ exists raw, x' = f raw)).
Proof.
  intros Hbody. induction n as [| n IH]; intros s x Hgood.
  - destruct (cond x) eqn:Hc.
    + exists 1%nat, (f (tape s (pos s))), (advance s).
      rewrite Nat.add_0_r in Hgood.
      split; [split; [exact Hgood | split; [reflexivity | eauto]] |].
      intros [| fuel] Hfuel; [lia |].
      cbn [while_loop]. rewrite Hc.
      rewrite (bind_returns _ _ _ _ _ (Hbody s)).
      apply while_loop_skip. exact Hgood.
    + exists 0%nat, x, s. split; [auto |].
      intros fuel _. apply while_loop_skip. exact Hc.
  - destruct (cond x) eqn:Hc.
    + destruct (IH (advance s) (f (tape s (pos s))))
        as (f0 & x' & s' & (Hx' & Htape & Hform) & Hrun).
      { cbn [advance tape pos].
        replace (S (pos s) + n)%nat with (pos s + S n)%nat by lia.
        exact Hgood. }
      exists (S f0), x', s'.
      split; [split; [exact Hx' | split; [exact Htape |]] |].
      * right. destruct Hform as [-> | Hraw]; eauto.
      * intros [| fuel] Hfuel; [lia |].
        cbn [while_loop]. rewrite Hc.
        rewrite (bind_returns _ _ _ _ _ (Hbody s)).
        apply Hrun. lia.
    + exists 0%nat, x, s. split; [auto |].
      intros fuel _. apply while_loop_skip. exact Hc.
Qed.

(** ** Membership of a one-element answer *)

Lemma py_eqb_singleton_answer a v :
  py_eqb (singleton_answer a) (singleton_answer v) = (a =? v).
Proof. simpl. apply andb_true_r. Qed.

Lemma py_in_singleton_answers v ws :
  py_in (singleton_answer v) (map singleton_answer ws) = true <-> v ∈ ws.
Proof.
  unfold py_in. rewrite existsb_exists. split.
  - intros (e & Hin & Heq). apply in_map_iff in Hin as (a & <- & Ha).
    rewrite py_eqb_singleton_answer in Heq. apply Z.eqb_eq in Heq. subst a.
    apply list_elem_of_In. exact Ha.
  - intros Hin. exists (singleton_answer v). split.
    + apply in_map. apply list_elem_of_In. exact Hin.
    + rewrite py_eqb_singleton_answer. apply Z.eqb_refl.
Qed.

Lemma py_in_int_among_lists w ws :
  py_in (PInt w) (map singleton_answer ws) = false.
Proof. unfold py_in. induction ws as [| a ws IH]; simpl; auto. Qed.

(** Among eleven values, one collides with neither the correct answer nor
    two earlier wrong answers. *)
Lemma fresh_value (c0 : Z -> bool) (ws : list Z) :
  (forall v v', c0 v = true -> c0 v' = true -> v = v') ->
  (length ws <= 2)%nat ->
  exists v, -5 <= v <= 5 /\ c0 v = false /\ v ∉ ws.
Proof.
  intros Huniq Hlen.
  assert (Hcap : forall x y z, x <> y -> y <> z -> x <> z ->
                   x ∈ ws -> y ∈ ws -> z ∈ ws -> False).
  { intros x y z Hxy Hyz Hxz Hx Hy Hz.
    destruct ws as [| a [| b [| c ws]]]; simpl in Hlen; try lia;
      repeat match goal with
             | H : _ ∈ [] |- _ => inversion H
             | H : _ ∈ _ :: _ |- _ => apply elem_of_cons in H as [H | H]
             end; lia. }
  assert (Hfour : exists v, (v = -5 \/ v = -4 \/ v = -3 \/ v = -2)
                            /\ c0 v = false /\ v ∉ ws).
  { destruct (c0 (-5)) eqn:H5, (c0 (-4)) eqn:H4, (c0 (-3)) eqn:H3,
             (c0 (-2)) eqn:H2;
      try (pose proof (Huniq _ _ H5 H4); lia);
      try (pose proof (Huniq _ _ H5 H3); lia);
      try (pose proof (Huniq _ _ H5 H2); lia);
      try (pose proof (Huniq _ _ H4 H3); lia);
      try (pose proof (Huniq _ _ H4 H2); lia);
      try (pose proof (Huniq _ _ H3 H2); lia);
      destruct (decide (-5 ∈ ws)) as [M5 | M5],
               (decide (-4 ∈ ws)) as [M4 | M4],
               (decide (-3 ∈ ws)) as [M3 | M3],
               (decide (-2 ∈ ws)) as [M2 | M2];
      first
        [ exists (-5); split; [lia |]; split; assumption
        | exists (-4); split; [lia |]; split; assumption
        | exists (-3); split; [lia |]; split; assumption
        | exists (-2); split; [lia |]; split; assumption
        | exfalso; apply (Hcap (-5) (-4) (-3)); (lia || assumption)
        | exfalso; apply (Hcap (-5) (-4) (-2)); (lia || assumption)
        | exfalso; apply (Hcap (-5) (-3) (-2)); (lia || assumption)
        | exfalso; apply (Hcap (-4) (-3) (-2)); (lia || assumption) ]. }
  destruct Hfour as (v & Hv & Hc & Hn). exists v. split; [lia | auto].
Qed.

Lemma fair_draw (t : nat -> Z) (p : nat) (v : Z) :
  fair t -> -5 <= v <= 5 ->
  exists n, -5 + t (p + n)%nat mod 11 = v.
Proof.
  intros Hfair Hv.
  destruct (Hfair 11 (v + 5) p ltac:(lia)) as (m & Hm & Hmod).
  exists (m - p)%nat. replace (p + (m - p))%nat with m by lia. lia.
Qed.

(** The three wrong answers of a list kind: on a fair tape each resampling
    loop stops, and the list keeps the shape of one-element answers. *)
Lemma list_wrong_answers_settle (correct : list pyval) :
  (forall v v',
     py_eqb (singleton_answer v) (PList correct) = true ->
     py_eqb (singleton_answer v') (PList correct) = true -> v = v') ->
  forall n ws s,
    fair (tape s) ->
    (length ws + n <= 3)%nat ->
    settles
      (fun fuel =>
         for_range n
           (fun wrong_answers =>
              let draw := w <- randint (-5) 5 ;; ret (PList [PInt w]) in
              wrong <- draw ;;
              wrong <- while_loop fuel
                         (fun wrong => py_eqb wrong (PList correct)
                                       || py_in wrong wrong_answers)
                         draw wrong ;;
              ret (wrong_answers ++ [wrong]))
           (map singleton_answer ws))
      s
      (fun wrongs s' =>
         tape s' = tape s
         /\ exists ws', wrongs = map singleton_answer ws'
                        /\ length ws' = (length ws + n)%nat).
Proof.
  intros Huniq. induction n as [| n IH]; intros ws s Hfair Hlen.
  - apply (settles_returns (ret (map singleton_answer ws))).
    apply returns_ret. split; [reflexivity |]. exists ws. split; [reflexivity | lia].
  - cbn [for_range]. cbv zeta.
    set (f := fun raw : Z => singleton_answer (-5 + raw mod 11)).
    set (draw := w <- randint (-5) 5 ;; ret (PList [PInt w])).
    assert (Hdraw : forall s0, draw s0 = Returns (f (tape s0 (pos s0)), advance s0)).
    { intros s0. unfold draw.
      rewrite (bind_returns _ _ _ _ _ (randint_run (-5) 5 s0 ltac:(lia))).
      reflexivity. }
    destruct (fresh_value
                (fun v => py_eqb (singleton_answer v) (PList correct)) ws Huniq
                ltac:(lia)) as (v & Hv & Hc0 & Hnew).
    destruct (fair_draw (tape s) (S (pos s)) v Hfair Hv) as [k Hk].
    apply (settles_bind
             (fun fuel =>
                wrong <- draw ;;
                wrong <- while_loop fuel
                           (fun wrong => py_eqb wrong (PList correct)
                                         || py_in wrong (map singleton_answer ws))
                           draw wrong ;;
                ret (map singleton_answer ws ++ [wrong]))
             (fun fuel acc =>
                for_range n
                  (fun wrong_answers =>
                     wrong <- draw ;;
                     wrong <- while_loop fuel
                                (fun wrong => py_eqb wrong (PList correct)
                                              || py_in wrong wrong_answers)
                                draw wrong ;;
                     ret (wrong_answers ++ [wrong]))
                  acc)).
    apply (settles_bind (fun _ => draw)
             (fun fuel wrong =>
                wrong <- while_loop fuel
                           (fun wrong => py_eqb wrong (PList correct)
                                         || py_in wrong (map singleton_answer ws))
                           draw wrong ;;
                ret (map singleton_answer ws ++ [wrong]))).
    apply settles_returns. eexists; eexists; split; [apply Hdraw |].
    apply (settles_bind
             (fun fuel =>
                while_loop fuel
                  (fun wrong => py_eqb wrong (PList correct)
                                || py_in wrong (map singleton_answer ws))
                  draw (f (tape s (pos s))))
             (fun _ wrong => ret (map singleton_answer ws ++ [wrong]))).
    eapply settles_mono;
      [| apply (settles_while f _ draw Hdraw k (advance s))].
    2:{ cbn [advance tape pos]. unfold f. rewrite Hk.
        rewrite Hc0. cbn [orb].
        destruct (py_in (singleton_answer v) (map singleton_answer ws)) eqn:Hin;
          [| reflexivity].
        apply py_in_singleton_answers in Hin. contradiction. }
    intros x' s1 (_ & Htape & Hform).
    assert (Hx' : exists v', x' = singleton_answer v').
    { destruct Hform as [-> | [raw ->]]; unfold f; eauto. }
    destruct Hx' as [v' ->].
    apply settles_returns, returns_ret.
    replace (map singleton_answer ws ++ [singleton_answer v'])
      with (map singleton_answer (ws ++ [v'])) by apply map_app.
    eapply settles_mono; [| apply (IH (ws ++ [v']) s1)].
    + intros wrongs s2 (Htape2 & ws' & -> & Hlen').
      split; [rewrite Htape2; exact Htape |].
      exists ws'. split; [reflexivity |].
      rewrite Hlen', length_app. simpl. lia.
    + rewrite Htape. exact Hfair.
    + rewrite length_app. simpl. lia.
Qed.

(** ** C6: the answer "None" and its fixed distractors *)

Lemma dispatch_named (L : Lib) (fuel : nat) fd an :
  generate_multiple_choice_question L fuel fd an "vertical_asymptotes"
  = _generate_va_question L fuel fd an
  /\ generate_multiple_choice_question L fuel fd an "horizontal_asymptote"
     = _generate_ha_question L fuel fd an
  /\ generate_multiple_choice_question L fuel fd an "x_intercepts"
     = _generate_x_intercept_question L fuel fd an
  /\ generate_multiple_choice_question L fuel fd an "holes"
     = _generate_holes_question L fuel fd an.
Proof. destruct fuel; repeat split; reflexivity. Qed.

Lemma list_question_none (L : Lib) (question_text explanation_text : string) s :
  fair (tape s) ->
  settles (fun fuel => list_question L fuel [] question_text explanation_text) s
    (fun q _ => correct_answer q = "None"
                /\ choices q ≡ₚ ["None"; "[-1]"; "[0]"; "[1]"]).
Proof.
  intros Hfair. unfold list_question.
  apply settles_bind.
  eapply settles_mono;
    [| apply (list_wrong_answers_settle [] ltac:(discriminate) 3 [] s Hfair);
       simpl; lia].
  intros wrongs s1 _. cbn [floats map py_truth negb fst snd].
  apply settles_returns, returns_bind.
  eapply returns_mono; [| apply shuffle_Permutation].
  intros order s2 [Hperm _]. apply returns_ret. cbn [correct_answer choices].
  split; [reflexivity |].
  apply (Permutation_map (choice_str L)) in Hperm. exact Hperm.
Qed.

(** With no vertical asymptote the collision test of the vertical
    asymptote builder is never true: each of the three rounds takes one
    draw, whatever the fuel. *)
Lemma va_wrong_answers_run (fuel : nat) : forall n ws s,
  for_range n
    (fun wrong_answers =>
       wrong <- randint (-5) 5 ;;
       wrong <- while_loop fuel
                  (fun wrong => py_in (PInt wrong) []
                                || py_in (PInt wrong) wrong_answers)
                  (randint (-5) 5) wrong ;;
       ret (wrong_answers ++ [PList [PInt wrong]]))
    (map singleton_answer ws) s
  = Returns (map singleton_answer (ws ++ factor_draws (tape s) (pos s) n),
             Rng (tape s) (pos s + n)).
Proof.
  induction n as [| n IH]; intros ws s.
  - cbn [for_range factor_draws seq map]. rewrite app_nil_r, Nat.add_0_r.
    destruct s; reflexivity.
  - cbn [for_range].
    rewrite (bind_returns _ _ s
               (map singleton_answer (ws ++ [-5 + tape s (pos s) mod 11]))
               (advance s)).
    + rewrite IH. cbn [advance tape pos factor_draws seq map].
      rewrite <- app_assoc. do 2 f_equal. f_equal. lia.
    + rewrite (bind_returns _ _ _ _ _ (randint_run (-5) 5 s ltac:(lia))).
      replace (5 - -5 + 1) with 11 by lia.
      rewrite (bind_returns _ _ _ (-5 + tape s (pos s) mod 11) (advance s)).
      * unfold ret. rewrite map_app. reflexivity.
      * apply while_loop_skip. cbn [py_in existsb orb].
        apply py_in_int_among_lists.
Qed.

Lemma va_question_none_fuel (L : Lib) (fuel : nat) fd an s :
  vertical_asymptotes an = [] ->
  _generate_va_question L fuel fd an s = _generate_va_question L 0 fd an s.
Proof.
  intros Hva. unfold _generate_va_question. rewrite Hva. cbn [floats map].
  rewrite (bind_returns _ _ _ _ _ (va_wrong_answers_run fuel 3 [] s)).
  rewrite (bind_returns _ _ _ _ _ (va_wrong_answers_run 0 3 [] s)).
  reflexivity.
Qed.

Lemma ha_question_none_fuel (L : Lib) (fuel : nat) fd an s :
  horizontal_asymptote an = PNone ->
  _generate_ha_question L fuel fd an s = _generate_ha_question L 0 fd an s.
Proof.
  intros Hha. unfold _generate_ha_question. rewrite Hha. reflexivity.
Qed.

Lemma va_question_none (L : Lib) (fuel : nat) fd an s :
  vertical_asymptotes an = [] ->
  returns_with (_generate_va_question L fuel fd an) s
    (fun q _ => correct_answer q = "None"
                /\ choices q ≡ₚ ["None"; "[-1]"; "[0]"; "[1]"]).
Proof.
  intros Hva. unfold _generate_va_question. rewrite Hva.
  cbn [floats map]. apply returns_bind.
  eexists; eexists; split; [apply (va_wrong_answers_run fuel 3 [] s) |].
  cbn [py_truth negb fst snd].
  apply returns_bind.
  eapply returns_mono; [| apply shuffle_Permutation].
  intros order s2 [Hperm _]. apply returns_ret. cbn [correct_answer choices].
  split; [reflexivity |].
  apply (Permutation_map (choice_str L)) in Hperm. exact Hperm.
Qed.

Lemma ha_question_none (L : Lib) (fuel : nat) fd an s :
  horizontal_asymptote an = PNone ->
  returns_with (_generate_ha_question L fuel fd an) s
    (fun q _ => correct_answer q = "None"
                /\ choices q ≡ₚ ["None"; "0"; "1"; "-1"]).
Proof.
  intros Hha. unfold _generate_ha_question. rewrite Hha.
  apply returns_bind. apply returns_ret. cbn [fst snd].
  apply returns_bind.
  eapply returns_mono; [| apply shuffle_Permutation].
  intros order s2 [Hperm _]. apply returns_ret. cbn [correct_answer choices].
  split; [reflexivity |].
  apply (Permutation_map (choice_str L)) in Hperm. exact Hperm.
Qed.

(** C6.  For each of the four kinds, when the feature asked about is
    empty (the none-marker, for the horizontal asymptote), on a fair tape
    there is a fuel from which the builder returns one and the same
    question: its correct answer is the literal "None" and its choices are
    "None" and the three fixed distractors, [-1], [0], [1] (0, 1, -1 for
    the horizontal asymptote), in the order the shuffle leaves them. *)
Theorem none_answer_has_fixed_distractors
    (L : Lib) (function_dict : FunctionSpec) (analysis : Analysis)
    (kind : string) (s : rng) :
  fair (tape s) ->
  answer_is_none analysis kind ->
  exists fuel0 q s',
    (correct_answer q = "None"
     /\ choices q ≡ₚ "None" :: fixed_distractors kind)
    /\ forall fuel, (fuel0 <= fuel)%nat ->
         generate_multiple_choice_question L fuel function_dict analysis kind s
         = Returns (q, s').
Proof.
  intros Hfair Hnone.
  change (settles
            (fun fuel => generate_multiple_choice_question L fuel function_dict
                           analysis kind) s
            (fun q _ => correct_answer q = "None"
                        /\ choices q ≡ₚ "None" :: fixed_distractors kind)).
  destruct Hnone as [[-> Hva] | [[-> Hha] | [[-> Hx] | [-> Hh]]]].
  - destruct (va_question_none L 0 function_dict analysis s Hva)
      as (q & s' & Hrun & HP).
    exists 0%nat, q, s'. split; [exact HP |]. intros fuel _.
    rewrite (proj1 (dispatch_named L fuel function_dict analysis)).
    rewrite (va_question_none_fuel L fuel _ _ _ Hva). exact Hrun.
  - destruct (ha_question_none L 0 function_dict analysis s Hha)
      as (q & s' & Hrun & HP).
    exists 0%nat, q, s'. split; [exact HP |]. intros fuel _.
    rewrite (proj1 (proj2 (dispatch_named L fuel function_dict analysis))).
    rewrite (ha_question_none_fuel L fuel _ _ _ Hha). exact Hrun.
  - destruct (list_question_none L
                ("What are the x-intercepts of f(x) = "
                 +:+ function_str function_dict +:+ "?")
                "X-intercepts occur where the numerator equals zero but the denominator doesn't."
                s Hfair) as (fuel0 & q & s' & HP & Hrun).
    exists fuel0, q, s'. split; [exact HP |]. intros fuel Hfuel.
    rewrite (proj1 (proj2 (proj2
               (dispatch_named L fuel function_dict analysis)))).
    unfold _generate_x_intercept_question. rewrite Hx.
    apply Hrun. exact Hfuel.
  - destruct (list_question_none L
                ("Where are the holes in f(x) = "
                 +:+ function_str function_dict +:+ "?")
                "Holes occur where both numerator and denominator equal zero."
                s Hfair) as (fuel0 & q & s' & HP & Hrun).
    exists fuel0, q, s'. split; [exact HP |]. intros fuel Hfuel.
    rewrite (proj2 (proj2 (proj2
               (dispatch_named L fuel function_dict analysis)))).
    unfold _generate_holes_question. rewrite Hh.
    apply Hrun. exact Hfuel.
Qed.

Lemma counting_tape_fair : fair counting_tape.
Proof.
  intros m r p Hr. exists (Z.to_nat (m * Z.of_nat p + r)). split; [nia |].
  unfold counting_tape. rewrite Z2Nat.id by nia.
  rewrite Z.add_comm, Z.mul_comm, Z.mod_add by lia.
  apply Z.mod_small. exact Hr.
Qed.

Lemma none_answer_has_fixed_distractors_witness :
  exists fuel0 q s',
    (correct_answer q = "None"
     /\ choices q ≡ₚ "None" :: fixed_distractors "holes")
    /\ forall fuel, (fuel0 <= fuel)%nat ->
         generate_multiple_choice_question plain_lib fuel spec_one_pole
           analysis_one_pole "holes" (Rng counting_tape 0)
         = Returns (q, s').
Proof.
  apply (none_answer_has_fixed_distractors plain_lib spec_one_pole
           analysis_one_pole "holes" (Rng counting_tape 0)).
  - exact counting_tape_fair.
  - right. right. right. split; reflexivity.
Defined.

(** * Further properties of the generator and the analyzer *)

Lemma generate_polynomial_spec md mf s :
  1 <= md -> 1 <= mf ->
  returns_with (_generate_polynomial md mf) s
    (fun p s' => tape s' = tape s /\ generated_polynomial md mf p).
Proof.
  intros Hmd Hmf. unfold returns_with.
  rewrite (generate_polynomial_run md mf s Hmd Hmf). cbv zeta.
  set (degree := 1 + tape s (pos s) mod md).
  set (factors := 1 + tape s (S (pos s)) mod Z.min mf degree).
  assert (Hdeg : 1 <= degree <= md).
  { subst degree. pose proof (Z.mod_pos_bound (tape s (pos s)) md). lia. }
  assert (Hfac : 1 <= factors <= Z.min mf degree).
  { subst factors.
    pose proof (Z.mod_pos_bound (tape s (S (pos s))) (Z.min mf degree)). lia. }
  pose proof (factor_draws_length (tape s) (S (S (pos s))) (Z.to_nat factors))
    as Hlen.
  pose proof (factor_draws_range (tape s) (S (S (pos s))) (Z.to_nat factors))
    as Hrange.
  rewrite linear_product_shape.
  destruct (Z.ltb_spec 0 (degree - factors)) as [Hrem | Hrem].
  - eexists; eexists; split; [reflexivity |]. split; [reflexivity |].
    unfold generated_polynomial, degree_of.
    cbn [coeff xpow lin pmul pconst xpower tape pos].
    rewrite !app_nil_r, Hlen.
    match goal with |- context [if ?d =? 0 then _ else _] =>
      pose proof (Z.mod_pos_bound (tape s (S (S (pos s)) + Z.to_nat factors)) 11);
      destruct (Z.eqb_spec d 0) end;
      (split; [lia |]; split; [lia |]; split; [exact Hrange |]; lia).
  - eexists; eexists; split; [reflexivity |]. split; [reflexivity |].
    unfold generated_polynomial, degree_of. cbn [coeff xpow lin].
    rewrite Hlen.
    split; [lia |]. split; [lia |]. split; [exact Hrange |]. lia.
Qed.

(** X1.  With bounds of at least 1, [_generate_polynomial] returns a
    product of at least one and at most [max_factors] linear factors
    [(x - a)], every [a] in [-5, 5], times a monomial with a nonzero
    coefficient in [-5, 5], of total degree between 1 and [max_degree]. *)
Theorem generate_polynomial_bounds (md mf : Z) (s : rng) :
  1 <= md -> 1 <= mf ->
  exists p s',
    _generate_polynomial md mf s = Returns (p, s')
    /\ coeff p <> 0 /\ -5 <= coeff p <= 5
    /\ Forall (fun a => -5 <= a <= 5) (lin p)
    /\ 1 <= Z.of_nat (length (lin p)) <= mf
    /\ 1 <= Z.of_nat (degree_of p) <= md.
Proof.
  intros Hmd Hmf.
  destruct (generate_polynomial_spec md mf s Hmd Hmf)
    as (p & s' & Hrun & _ & Hc & Hcr & Hl & Hn & Hd).
  exists p, s'. split; [exact Hrun |].
  repeat (split; [assumption |]). unfold degree_of in *. lia.
Qed.

Lemma generate_polynomial_bounds_witness :
  exists p s',
    _generate_polynomial 3 3 (Rng counting_tape 0) = Returns (p, s')
    /\ coeff p <> 0 /\ -5 <= coeff p <= 5
    /\ Forall (fun a => -5 <= a <= 5) (lin p)
    /\ 1 <= Z.of_nat (length (lin p)) <= 3
    /\ 1 <= Z.of_nat (degree_of p) <= 3.
Proof.
  apply (generate_polynomial_bounds 3 3 (Rng counting_tape 0)); lia.
Defined.

(** X2.  A degree bound or a factor bound below 1 leaves [randint] an
    empty range: [_generate_polynomial] raises [ValueError]. *)
Theorem generate_polynomial_empty_range (md mf : Z) (s : rng) :
  md < 1 \/ mf < 1 ->
  _generate_polynomial md mf s = Raises ValueError.
Proof.
  intros Hbad. unfold _generate_polynomial, bind.
  destruct (Z.ltb_spec md 1) as [Hmd | Hmd].
  - unfold randint. destruct (Z.ltb_spec md 1); [reflexivity | lia].
  - rewrite (randint_run 1 md s Hmd).
    unfold randint at 1.
    destruct (Z.ltb_spec (Z.min mf (1 + tape s (pos s) mod (md - 1 + 1))) 1);
      [reflexivity | lia].
Qed.

Lemma generate_polynomial_empty_range_witness :
  _generate_polynomial 0 2 (Rng counting_tape 0) = Raises ValueError.
Proof.
  apply (generate_polynomial_empty_range 0 2 (Rng counting_tape 0)). lia.
Defined.

Lemma config_of_level (difficulty : Z) :
  let config :=
    default {| max_degree := 2; max_factors := 2; holes_prob := 3 # 10 |}
      (difficulty_configs !! difficulty) in
  let bound := if decide (1 <= difficulty <= 5) then difficulty + 1 else 2 in
  max_degree config = bound /\ max_factors config = bound.
Proof.
  cbv zeta. destruct (decide (1 <= difficulty <= 5)) as [Hin | Hout].
  - assert (Hd : difficulty = 1 \/ difficulty = 2 \/ difficulty = 3
                 \/ difficulty = 4 \/ difficulty = 5) by lia.
    destruct Hd as [-> | [-> | [-> | [-> | ->]]]]; vm_compute; split; congruence.
  - rewrite (difficulty_configs_outside difficulty Hout). split; reflexivity.
Qed.

(** What [generate_function] returns: two generated polynomials, as they
    are or each times the same linear factor. *)
Lemma generate_function_spec L fuel difficulty s :
  let bound := if decide (1 <= difficulty <= 5) then difficulty + 1 else 2 in
  returns_with (generate_function L fuel difficulty) s
    (fun spec s' =>
       tape s' = tape s
       /\ function spec = sp_simplify L (numerator spec) (denominator spec)
       /\ function_str spec = sp_str L (function spec)
       /\ latex spec = sp_latex L (function spec)
       /\ exists n d,
            generated_polynomial bound bound n
            /\ generated_polynomial bound bound d
            /\ ((numerator spec = n /\ denominator spec = d)
                \/ exists a, -5 <= a <= 5
                             /\ numerator spec = pmul n (linear a)
                             /\ denominator spec = pmul d (linear a))).
Proof.
  intros bound. unfold generate_function.
  apply returns_bind. exists {| max_degree := 2; max_factors := 2;
                                holes_prob := 3 # 10 |}, s.
  split; [reflexivity |].
  destruct (config_of_level difficulty) as [Hmd Hmf]. fold bound in Hmd, Hmf.
  set (config := default _ (difficulty_configs !! difficulty)) in *.
  rewrite Hmd, Hmf.
  assert (Hb : 1 <= bound) by (subst bound; destruct (decide _); lia).
  apply returns_bind.
  eapply returns_mono; [| apply (generate_polynomial_spec _ _ s Hb Hb)].
  intros n s1 [Ht1 Hn].
  apply returns_bind.
  eapply returns_mono; [| apply (generate_polynomial_spec _ _ s1 Hb Hb)].
  intros d s2 [Ht2 Hd].
  apply returns_bind. exists d, s2. split.
  { apply while_loop_skip. unfold is_zero. apply Z.eqb_neq. apply Hd. }
  apply returns_bind. eexists; eexists; split; [reflexivity |].
  apply returns_bind.
  destruct (Qltb _ _).
  - apply returns_bind. eexists; eexists; split; [apply linear_factor_run |].
    apply returns_ret. apply returns_ret. cbn [fst snd function numerator
      denominator function_str latex advance tape].
    split; [congruence |]. repeat (split; [reflexivity |]).
    exists n, d. split; [exact Hn |]. split; [exact Hd |]. right.
    eexists. split; [| split; reflexivity].
    match goal with
    | |- -5 <= -5 + ?x mod 11 <= 5 =>
        pose proof (Z.mod_pos_bound x 11); lia
    end.
  - apply returns_ret. apply returns_ret. cbn [fst snd function numerator
      denominator function_str latex advance tape].
    split; [congruence |]. repeat (split; [reflexivity |]).
    exists n, d. auto.
Qed.

(** X3.  For every difficulty (level [l] in 1..5 bounds degrees by
    [l + 1], any other value by 2), [generate_function] returns a spec
    whose numerator and denominator are two generated polynomials, either
    as they are or both multiplied by one and the same factor [(x - a)],
    [a] in [-5, 5]; the simplified quotient and its two renderings are
    computed from that numerator and denominator. *)
Theorem generate_function_shape
    (L : Lib) (fuel : nat) (difficulty : Z) (s : rng) :
  let bound := if decide (1 <= difficulty <= 5) then difficulty + 1 else 2 in
  exists spec s' n d,
    generate_function L fuel difficulty s = Returns (spec, s')
    /\ generated_polynomial bound bound n
    /\ generated_polynomial bound bound d
    /\ ((numerator spec = n /\ denominator spec = d)
        \/ exists a, -5 <= a <= 5
                     /\ numerator spec = pmul n (linear a)
                     /\ denominator spec = pmul d (linear a))
    /\ function spec = sp_simplify L (numerator spec) (denominator spec)
    /\ function_str spec = sp_str L (function spec)
    /\ latex spec = sp_latex L (function spec).
Proof.
  intros bound.
  destruct (generate_function_spec L fuel difficulty s)
    as (spec & s' & Hrun & _ & Hf & Hs & Hl & n & d & Hn & Hd & Hshape).
  exists spec, s', n, d. auto 10.
Qed.

Lemma elem_of_exact_roots_factor p a : a ∈ exact_roots (pmul p (linear a)).
Proof. apply elem_of_exact_roots. right. simpl. set_solver. Qed.

(** X4.  On sympy's exact answers, when numerator and denominator are
    nonzero products that both end in the same factor [(x - a)], as the
    hole branch of [generate_function] builds them, the analysis lists
    [a] among the holes and not among the vertical asymptotes.  With a
    sympy before release 1.13 it does not list [a] among the x-intercepts
    either; with a sympy since 1.13 it does, unless [a] is 0. *)
Theorem shared_factor_is_a_hole
    (release : sympy_release)
    (str_of latex_of : Quotient -> string) (repr_of : Q -> string)
    (spec : FunctionSpec) (n d : Polynomial) (a : Z) :
  coeff n <> 0 -> coeff d <> 0 ->
  numerator spec = pmul n (linear a) ->
  denominator spec = pmul d (linear a) ->
  exists an,
    analyze_function (exact_lib release str_of latex_of repr_of) spec = Ok an
    /\ inject_Z a ∈ holes an
    /\ (inject_Z a ∉ vertical_asymptotes an)
    /\ (inject_Z a ∈ x_intercepts an <-> release = Since_1_13 /\ a <> 0).
Proof.
  intros Hn Hd Hnum Hden.
  set (L := exact_lib release str_of latex_of repr_of).
  assert (Hzn : is_zero (numerator spec) = false).
  { rewrite Hnum. unfold is_zero. simpl. apply Z.eqb_neq. lia. }
  assert (Hzd : is_zero (denominator spec) = false).
  { rewrite Hden. unfold is_zero. simpl. apply Z.eqb_neq. lia. }
  destruct (analyze_function_solved L spec _ _
              (exact_solve_nonzero _ Hzd) (exact_solve_nonzero _ Hzn))
    as (vas & hs & xs & Hcl & Hxs & Hrun).
  eexists. split; [exact Hrun |].
  cbn [holes vertical_asymptotes x_intercepts].
  destruct (classify_den_roots_spec
              (map RInt (exact_roots (numerator spec)))
              (map RInt (exact_roots (denominator spec))) [] [])
    as (vas' & hs' & Hcl' & Hh & Hv).
  rewrite Hcl in Hcl'. injection Hcl' as <- <-.
  destruct (collect_x_intercepts_test L hs
              (map RInt (exact_roots (numerator spec))) [])
    as (xs' & Hxs' & Hx).
  rewrite Hxs in Hxs'. injection Hxs' as <-.
  assert (Han : RInt a ∈ map RInt (exact_roots (numerator spec))).
  { apply elem_of_map_RInt. rewrite Hnum.
    apply elem_of_exact_roots_factor. }
  assert (Had : RInt a ∈ map RInt (exact_roots (denominator spec))).
  { apply elem_of_map_RInt. rewrite Hden.
    apply elem_of_exact_roots_factor. }
  assert (Hhole : inject_Z a ∈ hs) by (apply Hh; right; eauto).
  split; [exact Hhole |]. split.
  { intros Hin.
    apply Hv in Hin as [Hin | (z & _ & Hz & Heq)]; [inversion Hin |].
    apply inject_Z_inj in Heq. subst z. contradiction. }
  assert (Hlisted : inject_Z a ∈ xs
                    <-> existsb (sp_eq_float L (RInt a)) hs = false).
  { rewrite Hx. split.
    - intros [Hin | (z & _ & Heq & Htest)]; [inversion Hin |].
      apply inject_Z_inj in Heq. subst z. exact Htest.
    - intros Htest. right. exists a. auto. }
  rewrite Hlisted. subst L. cbn [sp_eq_float exact_lib].
  destruct release.
  - split; [| intros [Hrel _]; discriminate].
    intros Htest. exfalso.
    assert (Hfound :
      existsb (exact_eq_float Before_1_13 (RInt a)) hs = true).
    { apply existsb_exists. exists (inject_Z a).
      split; [apply list_elem_of_In; exact Hhole |].
      change (Qeq_bool (inject_Z a) (inject_Z a) = true).
      apply Qeq_bool_iff. reflexivity. }
    congruence.
  - destruct (Z.eqb_spec a 0) as [-> | Hnz].
    + split; [| intros [_ Hne]; contradiction].
      intros Htest. exfalso.
      assert (Hfound :
        existsb (exact_eq_float Since_1_13 (RInt 0)) hs = true).
      { apply existsb_exists. exists (inject_Z 0).
        split; [apply list_elem_of_In; exact Hhole | reflexivity]. }
      congruence.
    + split; [auto |]. intros _.
      clear -Hnz. induction hs as [| h hs IH]; [reflexivity |].
      cbn [existsb exact_eq_float].
      destruct (Z.eqb_spec a 0); [contradiction |]. exact IH.
Qed.

Lemma shared_factor_is_a_hole_witness :
  exists an,
    analyze_function plain_lib_1_13 spec_shared_factor = Ok an
    /\ inject_Z 4 ∈ holes an
    /\ (inject_Z 4 ∉ vertical_asymptotes an)
    /\ (inject_Z 4 ∈ x_intercepts an <-> Since_1_13 = Since_1_13 /\ 4 <> 0).
Proof.
  apply (shared_factor_is_a_hole Since_1_13 show_quotient show_quotient
           show_fraction spec_shared_factor (linear 1) (linear 3) 4);
    [simpl; lia | simpl; lia | reflexivity | reflexivity].
Defined.

Lemma generated_roots_in_range md mf p z :
  generated_polynomial md mf p -> z ∈ exact_roots p -> -5 <= z <= 5.
Proof.
  intros (_ & _ & Hl & _) Hz.
  apply elem_of_exact_roots in Hz as [[-> _] | Hz]; [lia |].
  rewrite Forall_forall in Hl. apply Hl. exact Hz.
Qed.

Lemma factor_roots_in_range md mf p a z :
  generated_polynomial md mf p -> -5 <= a <= 5 ->
  z ∈ exact_roots (pmul p (linear a)) -> -5 <= z <= 5.
Proof.
  intros (_ & _ & Hl & _) Ha Hz.
  apply elem_of_exact_roots in Hz as [[-> _] | Hz]; [lia |].
  simpl in Hz. apply elem_of_app in Hz as [Hz | Hz].
  - rewrite Forall_forall in Hl. apply Hl. exact Hz.
  - apply list_elem_of_singleton in Hz. lia.
Qed.

(** The features of a spec whose roots lie in [-5, 5]. *)
Lemma analysis_in_range (L : Lib) spec an :
  sp_solve L (denominator spec) = exact_solve (denominator spec) ->
  sp_solve L (numerator spec) = exact_solve (numerator spec) ->
  (forall z, z ∈ exact_roots (denominator spec) -> -5 <= z <= 5) ->
  (forall z, z ∈ exact_roots (numerator spec) -> -5 <= z <= 5) ->
  analyze_function L spec = Ok an ->
  forall q,
    q ∈ vertical_asymptotes an ++ holes an ++ x_intercepts an ->
    exists z, q = inject_Z z /\ -5 <= z <= 5.
Proof.
  intros Hsd Hsn Hrd Hrn Hrun q Hq.
  destruct (exact_solve_total (denominator spec)) as [den_roots Hden].
  destruct (exact_solve_total (numerator spec)) as [num_roots Hnum].
  assert (Hden_in : forall z, RInt z ∈ den_roots -> -5 <= z <= 5).
  { intros z Hz. unfold exact_solve in Hden.
    destruct (is_zero (denominator spec)); injection Hden as <-;
      [inversion Hz |].
    apply Hrd. apply elem_of_map_RInt. exact Hz. }
  assert (Hnum_in : forall z, RInt z ∈ num_roots -> -5 <= z <= 5).
  { intros z Hz. unfold exact_solve in Hnum.
    destruct (is_zero (numerator spec)); injection Hnum as <-;
      [inversion Hz |].
    apply Hrn. apply elem_of_map_RInt. exact Hz. }
  rewrite Hden in Hsd. rewrite Hnum in Hsn.
  destruct (analyze_function_solved L spec den_roots num_roots Hsd Hsn)
    as (vas & hs & xs & Hcl & Hxs & Hrun').
  rewrite Hrun in Hrun'. injection Hrun' as ->.
  cbn [holes vertical_asymptotes x_intercepts] in Hq.
  destruct (classify_den_roots_spec num_roots den_roots [] [])
    as (vas' & hs' & Hcl' & Hh & Hv).
  rewrite Hcl in Hcl'. injection Hcl' as <- <-.
  assert (Hxin : forall x, x ∈ xs -> exists z, RInt z ∈ num_roots /\ x = inject_Z z).
  { clear -Hxs. revert Hxs.
    assert (Hgen : forall acc,
              (forall x, x ∈ acc -> exists z, RInt z ∈ num_roots /\ x = inject_Z z) ->
              forall roots, (forall r, r ∈ roots -> r ∈ num_roots) ->
              forall out, collect_x_intercepts L hs roots acc = Ok out ->
              forall x, x ∈ out -> exists z, RInt z ∈ num_roots /\ x = inject_Z z).
    { intros acc Hacc roots. revert acc Hacc.
      induction roots as [| r rest IH]; intros acc Hacc Hsub out Hout x Hx.
      - injection Hout as <-. auto.
      - cbn [collect_x_intercepts] in Hout.
        destruct (is_real r && negb (existsb (sp_eq_float L r) hs)) eqn:Hc.
        + destruct r as [z | k]; [| discriminate]. cbn [root_float rbind] in Hout.
          apply (IH (acc ++ [inject_Z z])) with (out := out); auto.
          * intros y Hy. apply elem_of_app in Hy as [Hy | Hy]; [auto |].
            apply list_elem_of_singleton in Hy. subst y.
            exists z. split; [apply Hsub; left | reflexivity].
          * intros r Hr. apply Hsub. right. exact Hr.
        + apply (IH acc) with (out := out); auto.
          intros r' Hr. apply Hsub. right. exact Hr. }
    intros Hxs x Hx.
    apply (Hgen [] ltac:(intros y Hy; inversion Hy) num_roots
             ltac:(auto) xs Hxs x Hx). }
  rewrite !elem_of_app in Hq. destruct Hq as [Hq | [Hq | Hq]].
  - apply Hv in Hq as [Hq | (z & Hz & _ & ->)]; [inversion Hq | eauto].
  - apply Hh in Hq as [Hq | (z & Hz & _ & ->)]; [inversion Hq | eauto].
  - apply Hxin in Hq as (z & Hz & ->). eauto.
Qed.

Lemma generated_spec_roots_in_range (bound : Z) spec n d :
  generated_polynomial bound bound n ->
  generated_polynomial bound bound d ->
  ((numerator spec = n /\ denominator spec = d)
   \/ exists a, -5 <= a <= 5
                /\ numerator spec = pmul n (linear a)
                /\ denominator spec = pmul d (linear a)) ->
  (forall z, z ∈ exact_roots (denominator spec) -> -5 <= z <= 5)
  /\ (forall z, z ∈ exact_roots (numerator spec) -> -5 <= z <= 5).
Proof.
  intros Hn Hd [[-> ->] | (a & Ha & -> & ->)]; split; intros z Hz;
    eauto using generated_roots_in_range, factor_roots_in_range.
Qed.

(** X5.  On sympy's exact answers, every function [generate_function]
    returns is analysed without error, and every vertical asymptote,
    hole and x-intercept found is an integer between -5 and 5. *)
Theorem generated_features_in_range
    (release : sympy_release)
    (str_of latex_of : Quotient -> string) (repr_of : Q -> string)
    (fuel : nat) (difficulty : Z) (s : rng) :
  let L := exact_lib release str_of latex_of repr_of in
  exists spec s' an,
    generate_function L fuel difficulty s = Returns (spec, s')
    /\ analyze_function L spec = Ok an
    /\ forall q,
         q ∈ vertical_asymptotes an ++ holes an ++ x_intercepts an ->
         exists z, q = inject_Z z /\ -5 <= z <= 5.
Proof.
  intros L.
  destruct (generate_function_spec L fuel difficulty s)
    as (spec & s' & Hgen & _ & _ & _ & _ & n & d & Hn & Hd & Hshape).
  destruct (generated_spec_roots_in_range _ spec n d Hn Hd Hshape)
    as [Hrd Hrn].
  destruct (exact_solve_total (denominator spec)) as [den_roots Hden].
  destruct (exact_solve_total (numerator spec)) as [num_roots Hnum].
  destruct (analyze_function_solved L spec den_roots num_roots Hden Hnum)
    as (vas & hs & xs & _ & _ & Hrun).
  eexists spec, s', _. split; [exact Hgen |]. split; [exact Hrun |].
  apply (analysis_in_range L spec _ eq_refl eq_refl Hrd Hrn Hrun).
Qed.

(** * Further properties of the question builder *)

(** ** Printed integers *)

Lemma numeral_pretty_N_go (x : N) : forall s,
  numeral s = true -> numeral (pretty_N_go x s) = true.
Proof.
  induction x as [x IH] using (well_founded_induction N.lt_wf_0).
  intros s Hs.
  destruct (decide (x = 0)%N) as [-> | Hx].
  - rewrite pretty_N_go_0. exact Hs.
  - rewrite pretty_N_go_step by lia.
    apply IH; [apply N.div_lt; lia |].
    cbn [numeral]. rewrite Hs, andb_true_r.
    unfold pretty_N_char. repeat case_match; reflexivity.
Qed.

Lemma numeral_pretty_N (x : N) : numeral (pretty x) = true.
Proof.
  unfold pretty, pretty_N. destruct (decide (x = 0)%N); [reflexivity |].
  apply numeral_pretty_N_go. reflexivity.
Qed.

Lemma numeral_pretty_Z (z : Z) : numeral (pretty z) = true.
Proof.
  destruct z as [| p | p]; [reflexivity | |].
  - apply (numeral_pretty_N (N.pos p)).
  - change (pretty (Z.neg p)) with ("-" +:+ pretty (N.pos p)).
    cbn [String.append numeral numeral_char andb].
    apply (numeral_pretty_N (N.pos p)).
Qed.

(** Two strings that agree share their leading run of numeral characters
    and the character that ends it. *)
Lemma numeral_prefix_unique (a : string) : forall b c1 c2 r1 r2,
  numeral a = true -> numeral b = true ->
  numeral_char c1 = false -> numeral_char c2 = false ->
  a +:+ String c1 r1 = b +:+ String c2 r2 ->
  a = b /\ c1 = c2 /\ r1 = r2.
Proof.
  induction a as [| x a IH]; intros [| y b] c1 c2 r1 r2 Ha Hb Hc1 Hc2 Heq;
    cbn [String.append numeral] in *.
  - injection Heq as -> ->. auto.
  - injection Heq as -> _. apply andb_true_iff in Hb as [Hy _]. congruence.
  - injection Heq as -> _. apply andb_true_iff in Ha as [Hx _]. congruence.
  - injection Heq as -> Heq.
    apply andb_true_iff in Ha as [_ Ha]. apply andb_true_iff in Hb as [_ Hb].
    destruct (IH b c1 c2 r1 r2 Ha Hb Hc1 Hc2 Heq) as (-> & -> & ->). auto.
Qed.

Lemma bracketed_inj v w : bracketed v = bracketed w -> v = w.
Proof.
  unfold bracketed. intros Heq. cbn [String.append] in Heq.
  injection Heq as Heq.
  apply (numeral_prefix_unique _ _ "]"%char "]"%char EmptyString EmptyString)
    in Heq as [Heq _]; try reflexivity; try apply numeral_pretty_Z.
  apply (inj pretty). exact Heq.
Qed.

Lemma choice_str_singleton_answer (L : Lib) v :
  choice_str L (singleton_answer v) = bracketed v.
Proof. reflexivity. Qed.

Lemma float_str_integral (L : Lib) (q : Q) :
  Qden (Qred q) = 1%positive ->
  float_str L q = pretty (Qnum (Qred q)) +:+ ".0".
Proof. intros Hq. unfold float_str. rewrite Hq. reflexivity. Qed.

Lemma string_app_nil_r (s : string) : s +:+ EmptyString = s.
Proof.
  induction s as [| c s IH]; [reflexivity |].
  change (String c (s +:+ EmptyString) = String c s). congruence.
Qed.

Lemma string_app_assoc (a b c : string) : (a +:+ b) +:+ c = a +:+ b +:+ c.
Proof.
  induction a as [| x a IH]; [reflexivity |].
  change (String x ((a +:+ b) +:+ c) = String x (a +:+ b +:+ c)). congruence.
Qed.

Lemma join_cons sep s rest :
  exists tail, join sep (s :: rest) = s +:+ tail.
Proof.
  cbn [join]. revert s. induction rest as [| t rest IH]; intros s.
  - exists EmptyString. cbn [foldl]. symmetry. apply string_app_nil_r.
  - cbn [foldl]. destruct (IH (s +:+ sep +:+ t)) as [tail Htail].
    exists (sep +:+ t +:+ tail). rewrite Htail.
    rewrite !string_app_assoc. reflexivity.
Qed.

(** The printed list of a nonempty feature of integral floats is no
    printed one-element list of an integer: it has a decimal point where
    the other closes its bracket. *)
Lemma float_list_not_bracketed (L : Lib) (feature : list Q) (v : Z) :
  feature <> [] ->
  Forall (fun q => Qden (Qred q) = 1%positive) feature ->
  choice_str L (PList (floats feature)) <> bracketed v.
Proof.
  intros Hne Hint Heq. destruct feature as [| q rest]; [congruence |].
  apply Forall_cons in Hint as [Hq _].
  unfold choice_str, bracketed in Heq.
  cbn [py_eqb negb py_str py_repr floats map] in Heq.
  destruct (join_cons ", " (float_str L q) (map (py_repr L) (map PFloat rest)))
    as [tail Htail].
  rewrite Htail, (float_str_integral L q Hq) in Heq.
  cbn [String.append] in Heq. injection Heq as Heq.
  rewrite !string_app_assoc in Heq. cbn [String.append] in Heq.
  apply numeral_prefix_unique in Heq as (_ & Hc & _);
    try reflexivity; try apply numeral_pretty_Z.
  discriminate.
Qed.

(** ** The three wrong answers, for any correct answer *)

Lemma py_eqb_int_unique (x : pyval) (v v' : Z) :
  py_eqb (PInt v) x = true -> py_eqb (PInt v') x = true -> v = v'.
Proof.
  destruct x as [| y | q | t | l]; cbn [py_eqb]; try discriminate.
  - intros H1 H2. apply Z.eqb_eq in H1, H2. congruence.
  - intros H1 H2. apply Qeq_bool_iff in H1, H2.
    assert (Heq : (inject_Z v == inject_Z v')%Q) by (rewrite H1, H2; reflexivity).
    unfold Qeq in Heq. simpl in Heq. lia.
Qed.

Lemma singleton_answer_eq_unique (correct : list pyval) (v v' : Z) :
  py_eqb (singleton_answer v) (PList correct) = true ->
  py_eqb (singleton_answer v') (PList correct) = true -> v = v'.
Proof.
  destruct correct as [| x [| y rest]]; cbn [py_eqb singleton_answer];
    try discriminate.
  - rewrite !andb_true_r. apply py_eqb_int_unique.
  - rewrite !andb_false_r. discriminate.
Qed.

Lemma three_distinct_members (ws : list Z) (x y z : Z) :
  (length ws <= 2)%nat -> x <> y -> y <> z -> x <> z ->
  x ∈ ws -> y ∈ ws -> z ∈ ws -> False.
Proof.
  intros Hlen Hxy Hyz Hxz Hx Hy Hz.
  destruct ws as [| a [| b [| c ws]]]; simpl in Hlen; try lia;
    repeat match goal with
           | H : _ ∈ [] |- _ => inversion H
           | H : _ ∈ _ :: _ |- _ => apply elem_of_cons in H as [H | H]
           end; lia.
Qed.

(** The three rounds of a list kind on a fair tape: three distinct
    integers of [-5, 5], none of which makes a one-element list equal to
    the correct answer. *)
Lemma list_wrong_answers_fresh (correct : list pyval) :
  forall n ws s,
    fair (tape s) ->
    (length ws + n <= 3)%nat ->
    NoDup ws ->
    settles
      (fun fuel =>
         for_range n
           (fun wrong_answers =>
              let draw := w <- randint (-5) 5 ;; ret (PList [PInt w]) in
              wrong <- draw ;;
              wrong <- while_loop fuel
                         (fun wrong => py_eqb wrong (PList correct)
                                       || py_in wrong wrong_answers)
                         draw wrong ;;
              ret (wrong_answers ++ [wrong]))
           (map singleton_answer ws))
      s
      (fun wrongs s' =>
         tape s' = tape s
         /\ exists new,
              wrongs = map singleton_answer (ws ++ new)
              /\ length new = n
              /\ NoDup (ws ++ new)
              /\ Forall (fun v => -5 <= v <= 5
                                  /\ py_eqb (singleton_answer v) (PList correct)
                                     = false) new).
Proof.
  induction n as [| n IH]; intros ws s Hfair Hlen Hnd.
  - apply (settles_returns (ret (map singleton_answer ws))).
    apply returns_ret. split; [reflexivity |]. exists [].
    rewrite app_nil_r. auto.
  - cbn [for_range]. cbv zeta.
    set (f := fun raw : Z => singleton_answer (-5 + raw mod 11)).
    set (draw := w <- randint (-5) 5 ;; ret (PList [PInt w])).
    set (cond := fun wrong => py_eqb wrong (PList correct)
                              || py_in wrong (map singleton_answer ws)).
    assert (Hdraw : forall s0, draw s0 = Returns (f (tape s0 (pos s0)), advance s0)).
    { intros s0. unfold draw.
      rewrite (bind_returns _ _ _ _ _ (randint_run (-5) 5 s0 ltac:(lia))).
      reflexivity. }
    destruct (fresh_value
                (fun v => py_eqb (singleton_answer v) (PList correct)) ws
                (singleton_answer_eq_unique correct)
                ltac:(lia)) as (v & Hv & Hc0 & Hnew).
    destruct (fair_draw (tape s) (S (pos s)) v Hfair Hv) as [k Hk].
    apply (settles_bind
             (fun fuel =>
                wrong <- draw ;;
                wrong <- while_loop fuel cond draw wrong ;;
                ret (map singleton_answer ws ++ [wrong]))
             (fun fuel acc =>
                for_range n
                  (fun wrong_answers =>
                     wrong <- draw ;;
                     wrong <- while_loop fuel
                                (fun wrong => py_eqb wrong (PList correct)
                                              || py_in wrong wrong_answers)
                                draw wrong ;;
                     ret (wrong_answers ++ [wrong]))
                  acc)).
    apply (settles_bind (fun _ => draw)
             (fun fuel wrong =>
                wrong <- while_loop fuel cond draw wrong ;;
                ret (map singleton_answer ws ++ [wrong]))).
    apply settles_returns. eexists; eexists; split; [apply Hdraw |].
    apply (settles_bind
             (fun fuel => while_loop fuel cond draw (f (tape s (pos s))))
             (fun _ wrong => ret (map singleton_answer ws ++ [wrong]))).
    eapply settles_mono;
      [| apply (settles_while f cond draw Hdraw k (advance s))].
    2:{ cbn [advance tape pos]. unfold f, cond. rewrite Hk.
        rewrite Hc0. cbn [orb].
        destruct (py_in (singleton_answer v) (map singleton_answer ws)) eqn:Hin;
          [| reflexivity].
        apply py_in_singleton_answers in Hin. contradiction. }
    intros x' s1 (Hgood & Htape & Hform).
    assert (Hx' : exists v', x' = singleton_answer v' /\ -5 <= v' <= 5).
    { destruct Hform as [-> | [raw ->]]; unfold f; eexists; (split; [reflexivity |]);
        match goal with
        | |- -5 <= -5 + ?x mod 11 <= 5 => pose proof (Z.mod_pos_bound x 11); lia
        end. }
    destruct Hx' as (v' & -> & Hv').
    unfold cond in Hgood. apply orb_false_iff in Hgood as [Hc0' Hin'].
    assert (Hnotin : v' ∉ ws).
    { intros Hin. apply py_in_singleton_answers in Hin. congruence. }
    apply settles_returns, returns_ret.
    replace (map singleton_answer ws ++ [singleton_answer v'])
      with (map singleton_answer (ws ++ [v'])) by apply map_app.
    eapply settles_mono; [| apply (IH (ws ++ [v']) s1)].
    + intros wrongs s2 (Htape2 & new & -> & Hlen' & Hnd' & Hall).
      split; [rewrite Htape2; exact Htape |].
      exists (v' :: new). rewrite <- app_assoc in *. cbn [app] in *.
      split; [reflexivity |]. split; [simpl; lia |]. split; [exact Hnd' |].
      constructor; auto.
    + rewrite Htape. exact Hfair.
    + rewrite length_app. simpl. lia.
    + apply NoDup_app. split; [exact Hnd |]. split.
      * intros x Hx Hx'. apply list_elem_of_singleton in Hx'. subst x.
        contradiction.
      * apply NoDup_singleton.
Qed.

(** What a list kind returns on a fair tape. *)
Lemma list_question_settles (L : Lib) (feature : list Q)
    (question_text explanation_text : string) s :
  fair (tape s) ->
  settles (fun fuel => list_question L fuel feature question_text
                         explanation_text) s
    (fun q _ =>
       question q = question_text /\ explanation q = explanation_text
       /\ correct_answer q
          = match feature with
            | [] => "None"
            | _ => choice_str L (PList (floats feature))
            end
       /\ exists ws,
            choices q ≡ₚ correct_answer q :: map bracketed ws
            /\ length ws = 3%nat /\ NoDup ws
            /\ Forall (fun v => -5 <= v <= 5) ws
            /\ (feature <> [] ->
                Forall (fun v => py_eqb (singleton_answer v)
                                   (PList (floats feature)) = false) ws)).
Proof.
  intros Hfair. unfold list_question.
  apply settles_bind.
  eapply settles_mono;
    [| apply (list_wrong_answers_fresh (floats feature) 3 [] s Hfair);
       [simpl; lia | apply NoDup_nil_2]].
  intros wrongs s1 (_ & new & -> & Hlen & Hnd & Hall).
  cbn [app] in *.
  apply settles_returns, returns_bind.
  eapply returns_mono; [| apply shuffle_Permutation].
  intros order s2 [Hperm _]. apply returns_ret.
  cbn [question explanation correct_answer choices].
  apply (Permutation_map (choice_str L)) in Hperm.
  split; [reflexivity |]. split; [reflexivity |].
  destruct feature as [| q0 rest].
  - split; [reflexivity |]. exists [-1; 0; 1].
    split; [exact Hperm |]. split; [reflexivity |]. split.
    + repeat (apply NoDup_cons; split;
              [rewrite ?not_elem_of_cons; repeat split;
               first [lia | apply not_elem_of_nil] |]).
      apply NoDup_nil_2.
    + split; [repeat constructor; lia | congruence].
  - split; [reflexivity |]. exists new.
    cbn [py_truth floats map negb fst snd] in Hperm.
    cbn [map] in Hperm. rewrite map_map in Hperm.
    split; [exact Hperm |]. split; [exact Hlen |]. split; [exact Hnd |].
    split.
    + eapply Forall_impl; [exact Hall |]. intros v [Hv _]. exact Hv.
    + intros _. eapply Forall_impl; [exact Hall |]. intros v [_ Hv]. exact Hv.
Qed.

Lemma py_in_int_floats (v : Z) (va : list Q) :
  py_in (PInt v) (floats va) = false
  <-> forall x, x ∈ va -> ~ (inject_Z v == x)%Q.
Proof.
  unfold py_in, floats. split.
  - intros Hnone x Hx Heq.
    assert (existsb (fun e => py_eqb e (PInt v)) (map PFloat va) = true);
      [| congruence].
    apply existsb_exists. exists (PFloat x). split.
    + apply in_map. apply list_elem_of_In. exact Hx.
    + cbn [py_eqb]. apply Qeq_bool_iff. exact Heq.
  - intros Hall.
    destruct (existsb _ _) eqn:Hex; [| reflexivity].
    apply existsb_exists in Hex as (e & Hin & Heq).
    apply in_map_iff in Hin as (x & <- & Hx). cbn [py_eqb] in Heq.
    apply Qeq_bool_iff in Heq.
    elim (Hall x); [apply list_elem_of_In; exact Hx | exact Heq].
Qed.

(** The three rounds of the vertical-asymptote builder on a fair tape,
    when some integer of [-5, 5] is not an asymptote: three integers of
    [-5, 5] that are not asymptotes. *)
Lemma va_wrong_answers_settle (va : list Q) :
  (exists v, -5 <= v <= 5 /\ py_in (PInt v) (floats va) = false) ->
  forall n ws s,
    fair (tape s) ->
    settles
      (fun fuel =>
         for_range n
           (fun wrong_answers =>
              wrong <- randint (-5) 5 ;;
              wrong <- while_loop fuel
                         (fun wrong => py_in (PInt wrong) (floats va)
                                       || py_in (PInt wrong) wrong_answers)
                         (randint (-5) 5) wrong ;;
              ret (wrong_answers ++ [PList [PInt wrong]]))
           (map singleton_answer ws))
      s
      (fun wrongs s' =>
         tape s' = tape s
         /\ exists new,
              wrongs = map singleton_answer (ws ++ new)
              /\ length new = n
              /\ Forall (fun v => -5 <= v <= 5
                                  /\ py_in (PInt v) (floats va) = false) new).
Proof.
  intros (v & Hv & Hfree). induction n as [| n IH]; intros ws s Hfair.
  - apply (settles_returns (ret (map singleton_answer ws))).
    apply returns_ret. split; [reflexivity |]. exists [].
    rewrite app_nil_r. auto.
  - cbn [for_range].
    set (f := fun raw : Z => -5 + raw mod 11).
    set (cond := fun wrong => py_in (PInt wrong) (floats va)
                              || py_in (PInt wrong) (map singleton_answer ws)).
    assert (Hdraw : forall s0, randint (-5) 5 s0
                               = Returns (f (tape s0 (pos s0)), advance s0)).
    { intros s0. apply (randint_run (-5) 5 s0). lia. }
    destruct (fair_draw (tape s) (S (pos s)) v Hfair Hv) as [k Hk].
    apply (settles_bind
             (fun fuel =>
                wrong <- randint (-5) 5 ;;
                wrong <- while_loop fuel cond (randint (-5) 5) wrong ;;
                ret (map singleton_answer ws ++ [PList [PInt wrong]]))
             (fun fuel acc =>
                for_range n
                  (fun wrong_answers =>
                     wrong <- randint (-5) 5 ;;
                     wrong <- while_loop fuel
                                (fun wrong => py_in (PInt wrong) (floats va)
                                              || py_in (PInt wrong) wrong_answers)
                                (randint (-5) 5) wrong ;;
                     ret (wrong_answers ++ [PList [PInt wrong]]))
                  acc)).
    apply (settles_bind (fun _ => randint (-5) 5)
             (fun fuel wrong =>
                wrong <- while_loop fuel cond (randint (-5) 5) wrong ;;
                ret (map singleton_answer ws ++ [PList [PInt wrong]]))).
    apply settles_returns. eexists; eexists; split; [apply Hdraw |].
    apply (settles_bind
             (fun fuel => while_loop fuel cond (randint (-5) 5)
                            (f (tape s (pos s))))
             (fun _ wrong =>
                ret (map singleton_answer ws ++ [PList [PInt wrong]]))).
    eapply settles_mono;
      [| apply (settles_while f cond (randint (-5) 5) Hdraw k (advance s))].
    2:{ cbn [advance tape pos]. unfold f, cond. rewrite Hk, Hfree.
        apply py_in_int_among_lists. }
    intros w s1 (Hgood & Htape & Hform).
    assert (Hw : -5 <= w <= 5).
    { destruct Hform as [-> | [raw ->]]; unfold f;
        match goal with
        | |- -5 <= -5 + ?x mod 11 <= 5 => pose proof (Z.mod_pos_bound x 11); lia
        end. }
    unfold cond in Hgood. apply orb_false_iff in Hgood as [Hnot _].
    apply settles_returns, returns_ret.
    change (PList [PInt w]) with (singleton_answer w).
    replace (map singleton_answer ws ++ [singleton_answer w])
      with (map singleton_answer (ws ++ [w])) by apply map_app.
    eapply settles_mono; [| apply (IH (ws ++ [w]) s1)].
    + intros wrongs s2 (Htape2 & new & -> & Hlen' & Hall).
      split; [rewrite Htape2; exact Htape |].
      exists (w :: new). rewrite <- app_assoc. cbn [app].
      split; [reflexivity |]. split; [simpl; lia |]. constructor; auto.
    + rewrite Htape. exact Hfair.
Qed.

(** What the vertical-asymptote builder returns on a fair tape. *)
Lemma va_question_settles (L : Lib) fd an s :
  fair (tape s) ->
  (exists v, -5 <= v <= 5
             /\ py_in (PInt v) (floats (vertical_asymptotes an)) = false) ->
  settles (fun fuel => _generate_va_question L fuel fd an) s
    (fun q _ =>
       correct_answer q
       = match vertical_asymptotes an with
         | [] => "None"
         | _ => choice_str L (PList (floats (vertical_asymptotes an)))
         end
       /\ exists ws,
            choices q ≡ₚ correct_answer q :: map bracketed ws
            /\ length ws = 3%nat
            /\ Forall (fun v => -5 <= v <= 5
                                /\ py_in (PInt v)
                                     (floats (vertical_asymptotes an)) = false)
                 ws).
Proof.
  intros Hfair Hfree. unfold _generate_va_question.
  apply settles_bind.
  eapply settles_mono;
    [| apply (va_wrong_answers_settle (vertical_asymptotes an) Hfree 3 [] s
                Hfair)].
  intros wrongs s1 (_ & new & -> & Hlen & Hall). cbn [app] in *.
  apply settles_returns, returns_bind.
  eapply returns_mono; [| apply shuffle_Permutation].
  intros order s2 [Hperm _]. apply returns_ret.
  cbn [correct_answer choices].
  apply (Permutation_map (choice_str L)) in Hperm.
  destruct (vertical_asymptotes an) as [| q0 rest].
  - split; [reflexivity |]. exists [-1; 0; 1].
    split; [exact Hperm |]. split; [reflexivity |].
    repeat constructor; lia.
  - split; [reflexivity |]. exists new.
    cbn [py_truth floats map negb fst snd] in Hperm.
    cbn [map] in Hperm. rewrite map_map in Hperm.
    split; [exact Hperm |]. split; [exact Hlen |]. exact Hall.
Qed.

Lemma fair_offset (t : nat -> Z) (p : nat) (k : Z) :
  fair t -> -3 <= k <= 3 ->
  exists n, -3 + t (p + n)%nat mod 7 = k.
Proof.
  intros Hfair Hk.
  destruct (Hfair 7 (k + 3) p ltac:(lia)) as (m & Hm & Hmod).
  exists (m - p)%nat. replace (p + (m - p))%nat with m by lia. lia.
Qed.

Lemma Qplus_int_eq (q : Q) (j k : Z) :
  Qeq_bool (q + inject_Z j) (q + inject_Z k) = (j =? k).
Proof.
  destruct (Z.eqb_spec j k) as [-> | Hne].
  - apply Qeq_bool_iff. reflexivity.
  - destruct (Qeq_bool _ _) eqn:Heq; [| reflexivity].
    apply Qeq_bool_iff in Heq. apply Qplus_inj_l in Heq.
    unfold Qeq in Heq. simpl in Heq. lia.
Qed.

Lemma ha_offset_add (correct : pyval) (k : Z) :
  (exists q, correct = PFloat q) \/ (exists n, correct = PInt n) ->
  py_add_int correct k = Ok (ha_offset correct k).
Proof. intros [[q ->] | [n ->]]; reflexivity. Qed.

Lemma ha_offset_eqb (correct : pyval) (j k : Z) :
  (exists q, correct = PFloat q) \/ (exists n, correct = PInt n) ->
  py_eqb (ha_offset correct j) (ha_offset correct k) = (j =? k).
Proof.
  intros [[q ->] | [n ->]]; cbn [ha_offset py_eqb].
  - apply Qplus_int_eq.
  - destruct (Z.eqb_spec j k), (Z.eqb_spec (n + j) (n + k)); lia || reflexivity.
Qed.

Lemma ha_offset_zero (correct : pyval) (k : Z) :
  (exists q, correct = PFloat q) \/ (exists n, correct = PInt n) ->
  py_eqb (ha_offset correct k) correct = (k =? 0).
Proof.
  intros [[q ->] | [n ->]]; cbn [ha_offset py_eqb].
  - destruct (Z.eqb_spec k 0) as [-> | Hne].
    + apply Qeq_bool_iff. unfold Qeq, Qplus, inject_Z. simpl. lia.
    + destruct (Qeq_bool _ _) eqn:Heq; [| reflexivity].
      apply Qeq_bool_iff in Heq. unfold Qeq, Qplus, inject_Z in Heq.
      simpl in Heq. nia.
  - destruct (Z.eqb_spec k 0), (Z.eqb_spec (n + k) n); lia || reflexivity.
Qed.

Lemma py_in_ha_offsets (correct : pyval) (k : Z) (ks : list Z) :
  (exists q, correct = PFloat q) \/ (exists n, correct = PInt n) ->
  py_in (ha_offset correct k) (map (ha_offset correct) ks) = true <-> k ∈ ks.
Proof.
  intros Hnum. unfold py_in. rewrite existsb_exists. split.
  - intros (e & Hin & Heq). apply in_map_iff in Hin as (j & <- & Hj).
    rewrite (ha_offset_eqb correct j k Hnum) in Heq.
    apply Z.eqb_eq in Heq. subst j. apply list_elem_of_In. exact Hj.
  - intros Hin. exists (ha_offset correct k). split.
    + apply in_map. apply list_elem_of_In. exact Hin.
    + rewrite (ha_offset_eqb correct k k Hnum). apply Z.eqb_refl.
Qed.

Lemma fresh_offset (ks : list Z) :
  (length ks <= 2)%nat ->
  exists k, -3 <= k <= 3 /\ k <> 0 /\ k ∉ ks.
Proof.
  intros Hlen.
  destruct (decide (1 ∈ ks)) as [M1 | M1]; [| exists 1; repeat split; auto; lia].
  destruct (decide (2 ∈ ks)) as [M2 | M2]; [| exists 2; repeat split; auto; lia].
  destruct (decide (3 ∈ ks)) as [M3 | M3]; [| exists 3; repeat split; auto; lia].
  exfalso. apply (three_distinct_members ks 1 2 3); auto; lia.
Qed.

(** The three rounds of the horizontal-asymptote builder on a fair tape,
    for a numeric asymptote: the asymptote moved by three distinct
    nonzero integers of [-3, 3]. *)
Lemma ha_wrong_answers_settle (correct : pyval) :
  (exists q, correct = PFloat q) \/ (exists n, correct = PInt n) ->
  forall n ks s,
    fair (tape s) ->
    (length ks + n <= 3)%nat ->
    NoDup ks ->
    settles
      (fun fuel =>
         for_range n
           (fun wrong_answers =>
              let draw :=
                k <- randint (-3) 3 ;; lift (py_add_int correct k) in
              wrong <- draw ;;
              wrong <- while_loop fuel
                         (fun wrong => py_eqb wrong correct
                                       || py_in wrong wrong_answers)
                         draw wrong ;;
              ret (wrong_answers ++ [wrong]))
           (map (ha_offset correct) ks))
      s
      (fun wrongs s' =>
         tape s' = tape s
         /\ exists new,
              wrongs = map (ha_offset correct) (ks ++ new)
              /\ length new = n
              /\ NoDup (ks ++ new)
              /\ Forall (fun k => -3 <= k <= 3 /\ k <> 0) new).
Proof.
  intros Hnum. induction n as [| n IH]; intros ks s Hfair Hlen Hnd.
  - apply (settles_returns (ret (map (ha_offset correct) ks))).
    apply returns_ret. split; [reflexivity |]. exists [].
    rewrite app_nil_r. auto.
  - cbn [for_range]. cbv zeta.
    set (f := fun raw : Z => ha_offset correct (-3 + raw mod 7)).
    set (draw := k <- randint (-3) 3 ;; lift (py_add_int correct k)).
    set (cond := fun wrong => py_eqb wrong correct
                              || py_in wrong (map (ha_offset correct) ks)).
    assert (Hdraw : forall s0, draw s0 = Returns (f (tape s0 (pos s0)), advance s0)).
    { intros s0. unfold draw.
      rewrite (bind_returns _ _ _ _ _ (randint_run (-3) 3 s0 ltac:(lia))).
      unfold lift. rewrite (ha_offset_add correct _ Hnum). reflexivity. }
    destruct (fresh_offset ks ltac:(lia)) as (k0 & Hk0 & Hnz & Hnew).
    destruct (fair_offset (tape s) (S (pos s)) k0 Hfair Hk0) as [m Hm].
    apply (settles_bind
             (fun fuel =>
                wrong <- draw ;;
                wrong <- while_loop fuel cond draw wrong ;;
                ret (map (ha_offset correct) ks ++ [wrong]))
             (fun fuel acc =>
                for_range n
                  (fun wrong_answers =>
                     wrong <- draw ;;
                     wrong <- while_loop fuel
                                (fun wrong => py_eqb wrong correct
                                              || py_in wrong wrong_answers)
                                draw wrong ;;
                     ret (wrong_answers ++ [wrong]))
                  acc)).
    apply (settles_bind (fun _ => draw)
             (fun fuel wrong =>
                wrong <- while_loop fuel cond draw wrong ;;
                ret (map (ha_offset correct) ks ++ [wrong]))).
    apply settles_returns. eexists; eexists; split; [apply Hdraw |].
    apply (settles_bind
             (fun fuel => while_loop fuel cond draw (f (tape s (pos s))))
             (fun _ wrong => ret (map (ha_offset correct) ks ++ [wrong]))).
    eapply settles_mono;
      [| apply (settles_while f cond draw Hdraw m (advance s))].
    2:{ cbn [advance tape pos]. unfold f, cond. rewrite Hm.
        rewrite (ha_offset_zero correct k0 Hnum).
        destruct (Z.eqb_spec k0 0); [contradiction |]. cbn [orb].
        destruct (py_in _ _) eqn:Hin; [| reflexivity].
        apply (py_in_ha_offsets correct k0 ks Hnum) in Hin. contradiction. }
    intros x' s1 (Hgood & Htape & Hform).
    assert (Hx' : exists k', x' = ha_offset correct k' /\ -3 <= k' <= 3).
    { destruct Hform as [-> | [raw ->]]; unfold f; eexists; (split; [reflexivity |]);
        match goal with
        | |- -3 <= -3 + ?x mod 7 <= 3 => pose proof (Z.mod_pos_bound x 7); lia
        end. }
    destruct Hx' as (k' & -> & Hk').
    unfold cond in Hgood. apply orb_false_iff in Hgood as [Hzero Hin'].
    rewrite (ha_offset_zero correct k' Hnum) in Hzero.
    apply Z.eqb_neq in Hzero.
    assert (Hnotin : k' ∉ ks).
    { intros Hin. apply (py_in_ha_offsets correct k' ks Hnum) in Hin.
      congruence. }
    apply settles_returns, returns_ret.
    replace (map (ha_offset correct) ks ++ [ha_offset correct k'])
      with (map (ha_offset correct) (ks ++ [k'])) by apply map_app.
    eapply settles_mono; [| apply (IH (ks ++ [k']) s1)].
    + intros wrongs s2 (Htape2 & new & -> & Hlen' & Hnd' & Hall).
      split; [rewrite Htape2; exact Htape |].
      exists (k' :: new). rewrite <- app_assoc in *. cbn [app] in *.
      split; [reflexivity |]. split; [simpl; lia |]. split; [exact Hnd' |].
      constructor; auto.
    + rewrite Htape. exact Hfair.
    + rewrite length_app. simpl. lia.
    + apply NoDup_app. split; [exact Hnd |]. split.
      * intros x Hx Hx'. apply list_elem_of_singleton in Hx'. subst x.
        contradiction.
      * apply NoDup_singleton.
Qed.

(** The numeric branch of the horizontal-asymptote builder. *)
Lemma ha_numeric_settles (L : Lib) fd (correct : pyval) s :
  fair (tape s) ->
  (exists q, correct = PFloat q) \/ (exists n, correct = PInt n) ->
  settles
    (fun fuel =>
       cw <- (wrong_answers <-
                for_range 3
                  (fun wrong_answers =>
                     let draw :=
                       k <- randint (-3) 3 ;; lift (py_add_int correct k) in
                     wrong <- draw ;;
                     wrong <- while_loop fuel
                                (fun wrong => py_eqb wrong correct
                                              || py_in wrong wrong_answers)
                                draw wrong ;;
                     ret (wrong_answers ++ [wrong]))
                  [] ;;
              ret (correct, wrong_answers)) ;;
       let correct_answer := fst cw in
       let wrong_answers := snd cw in
       choices <- shuffle (correct_answer :: wrong_answers) ;;
       ret {| question := "What is the horizontal asymptote of f(x) = "
                          +:+ function_str fd +:+ "?";
              choices := map (choice_str L) choices;
              correct_answer := choice_str L correct_answer;
              explanation := "Horizontal asymptotes depend on the degrees of numerator and denominator." |})
    s
    (fun q _ =>
       correct_answer q = choice_str L correct
       /\ exists ks,
            choices q
            ≡ₚ correct_answer q
               :: map (fun k => choice_str L (ha_offset correct k)) ks
            /\ length ks = 3%nat /\ NoDup ks
            /\ Forall (fun k => -3 <= k <= 3 /\ k <> 0) ks).
Proof.
  intros Hfair Hnum.
  apply settles_bind. apply settles_bind.
  eapply settles_mono;
    [| apply (ha_wrong_answers_settle correct Hnum 3 [] s Hfair);
       [simpl; lia | apply NoDup_nil_2]].
  intros wrongs s1 (Htape & new & -> & Hlen & Hnd & Hall). cbn [app] in *.
  apply settles_returns, returns_ret. cbn [fst snd].
  apply settles_returns, returns_bind.
  eapply returns_mono; [| apply shuffle_Permutation].
  intros order s2 [Hperm _]. apply returns_ret.
  cbn [correct_answer choices]. split; [reflexivity |].
  exists new. apply (Permutation_map (choice_str L)) in Hperm.
  cbn [map] in Hperm. rewrite map_map in Hperm. auto.
Qed.

(** What the horizontal-asymptote builder returns on a fair tape. *)
Lemma ha_question_settles (L : Lib) fd an s :
  fair (tape s) ->
  number_or_none (horizontal_asymptote an) ->
  settles (fun fuel => _generate_ha_question L fuel fd an) s
    (fun q _ =>
       (horizontal_asymptote an = PNone
        /\ correct_answer q = "None"
        /\ choices q ≡ₚ ["None"; "0"; "1"; "-1"])
       \/ (horizontal_asymptote an <> PNone
           /\ correct_answer q = choice_str L (horizontal_asymptote an)
           /\ exists ks,
                choices q
                ≡ₚ correct_answer q
                   :: map (fun k => choice_str L
                                      (ha_offset (horizontal_asymptote an) k))
                        ks
                /\ length ks = 3%nat /\ NoDup ks
                /\ Forall (fun k => -3 <= k <= 3 /\ k <> 0) ks)).
Proof.
  intros Hfair [Hnone | Hnum].
  - destruct (ha_question_none L 0 fd an s Hnone) as (q & s' & Hrun & Hc & Hp).
    exists 0%nat, q, s'. split; [left; auto |]. intros fuel _.
    rewrite (ha_question_none_fuel L fuel fd an s Hnone). exact Hrun.
  - unfold _generate_ha_question.
    destruct Hnum as [[x Hx] | [n Hn]].
    + rewrite Hx.
      eapply settles_mono;
        [| apply (ha_numeric_settles L fd (PFloat x) s Hfair); eauto].
      intros q _ [Hc Hks]. right. split; [discriminate | auto].
    + rewrite Hn.
      eapply settles_mono;
        [| apply (ha_numeric_settles L fd (PInt n) s Hfair); eauto].
      intros q _ [Hc Hks]. right. split; [discriminate | auto].
Qed.

(** ** Every builder returns a question one can play *)

Lemma settles_ext {A} (c c' : nat -> M A) s (P : A -> rng -> Prop) :
  (forall fuel, c fuel s = c' fuel s) -> settles c' s P -> settles c s P.
Proof.
  intros Hext (f0 & a & s' & HP & Hrun). exists f0, a, s'.
  split; [exact HP |]. intros fuel Hfuel. rewrite Hext. auto.
Qed.

Lemma four_choices (cs : list string) (c : string) (ws : list string) :
  cs ≡ₚ c :: ws -> length ws = 3%nat -> length cs = 4%nat /\ c ∈ cs.
Proof.
  intros Hperm Hlen. split.
  - rewrite Hperm. simpl. lia.
  - rewrite Hperm. left.
Qed.

(** A question type among the four kinds, on a fair tape. *)
Lemma named_question_settles (L : Lib) fd an kind s :
  fair (tape s) -> answerable an -> kind ∈ question_types ->
  settles (fun fuel => generate_multiple_choice_question L fuel fd an kind) s
    (fun q _ => length (choices q) = 4%nat /\ correct_answer q ∈ choices q).
Proof.
  intros Hfair (Hfree & Hnum & _) Hkind. unfold question_types in Hkind.
  repeat (apply elem_of_cons in Hkind as [-> | Hkind]); [| | | | inversion Hkind].
  - apply (settles_ext _ (fun fuel => _generate_va_question L fuel fd an)).
    { intros fuel. rewrite (proj1 (dispatch_named L fuel fd an)). reflexivity. }
    eapply settles_mono; [| apply (va_question_settles L fd an s Hfair Hfree)].
    intros q _ (_ & ws & Hperm & Hlen & _).
    apply (four_choices _ _ _ Hperm). rewrite length_map. exact Hlen.
  - apply (settles_ext _ (fun fuel => _generate_ha_question L fuel fd an)).
    { intros fuel.
      rewrite (proj1 (proj2 (dispatch_named L fuel fd an))). reflexivity. }
    eapply settles_mono; [| apply (ha_question_settles L fd an s Hfair Hnum)].
    intros q _ [(_ & Hc & Hperm) | (_ & _ & ks & Hperm & Hlen & _)].
    + rewrite Hc. apply (four_choices _ _ _ Hperm). reflexivity.
    + apply (four_choices _ _ _ Hperm). rewrite length_map. exact Hlen.
  - apply (settles_ext _
             (fun fuel => _generate_x_intercept_question L fuel fd an)).
    { intros fuel.
      rewrite (proj1 (proj2 (proj2 (dispatch_named L fuel fd an)))).
      reflexivity. }
    eapply settles_mono; [| apply (list_question_settles L _ _ _ s Hfair)].
    intros q _ (_ & _ & _ & ws & Hperm & Hlen & _).
    apply (four_choices _ _ _ Hperm). rewrite length_map. exact Hlen.
  - apply (settles_ext _ (fun fuel => _generate_holes_question L fuel fd an)).
    { intros fuel.
      rewrite (proj2 (proj2 (proj2 (dispatch_named L fuel fd an)))).
      reflexivity. }
    eapply settles_mono; [| apply (list_question_settles L _ _ _ s Hfair)].
    intros q _ (_ & _ & _ & ws & Hperm & Hlen & _).
    apply (four_choices _ _ _ Hperm). rewrite length_map. exact Hlen.
Qed.

(** The call back through [_generate_random_question]. *)
Lemma random_question_step (L : Lib) fd an question_type s :
  question_type ∉ question_types ->
  exists kind,
    kind ∈ question_types
    /\ forall fuel,
         generate_multiple_choice_question L (S fuel) fd an question_type s
         = generate_multiple_choice_question L fuel fd an kind (advance s).
Proof.
  intros Hq.
  pose proof (Z.mod_pos_bound (tape s (pos s)) 4 ltac:(lia)) as Hi.
  destruct (question_types !! Z.to_nat (tape s (pos s) mod 4))
    as [kind |] eqn:Hkind.
  2:{ apply lookup_ge_None in Hkind. simpl in Hkind. lia. }
  exists kind. split; [apply list_elem_of_lookup; eauto |].
  intros fuel. cbn [generate_multiple_choice_question].
  rewrite (questions_lookup_other L (S fuel) question_type Hq).
  unfold _generate_random_question, choice, bind.
  rewrite randbelow_run.
  change (Z.of_nat (length question_types)) with 4.
  rewrite Hkind. reflexivity.
Qed.

Lemma question_settles (L : Lib) fd an question_type s :
  fair (tape s) -> answerable an ->
  settles (fun fuel => generate_multiple_choice_question L fuel fd an
                         question_type) s
    (fun q _ => length (choices q) = 4%nat /\ correct_answer q ∈ choices q).
Proof.
  intros Hfair Hans.
  destruct (decide (question_type ∈ question_types)) as [Hin | Hout].
  - apply named_question_settles; assumption.
  - destruct (random_question_step L fd an question_type s Hout)
      as (kind & Hkind & Hstep).
    destruct (named_question_settles L fd an kind (advance s) Hfair Hans Hkind)
      as (f0 & q & s' & HP & Hrun).
    exists (S f0), q, s'. split; [exact HP |].
    intros [| fuel] Hfuel; [lia |].
    rewrite Hstep. apply Hrun. lia.
Qed.

(** X6.  For every question type, one of the four kinds or anything
    else, when some integer of [-5, 5] is not a vertical asymptote and the
    horizontal asymptote is the none-marker, an int, or a float of
    magnitude at most 2^51 (where adding the integers of [-3, 3] gives
    different floats), on a fair tape there is a fuel from which
    [generate_multiple_choice_question] returns one and the same
    question, with exactly four choices, the correct answer among
    them. *)
Theorem every_question_is_playable
    (L : Lib) (function_dict : FunctionSpec) (analysis : Analysis)
    (question_type : string) (s : rng) :
  fair (tape s) ->
  answerable analysis ->
  exists fuel0 q s',
    (length (choices q) = 4%nat /\ correct_answer q ∈ choices q)
    /\ forall fuel, (fuel0 <= fuel)%nat ->
         generate_multiple_choice_question L fuel function_dict analysis
           question_type s
         = Returns (q, s').
Proof.
  intros Hfair Hans.
  exact (question_settles L function_dict analysis question_type s Hfair Hans).
Qed.

Lemma analysis_one_pole_answerable : answerable analysis_one_pole.
Proof.
  split; [| split].
  - exists 0. split; [lia | reflexivity].
  - right. left. eexists. reflexivity.
  - cbn [float_bounded analysis_one_pole horizontal_asymptote].
    split; discriminate.
Qed.

Lemma every_question_is_playable_witness :
  exists fuel0 q s',
    (length (choices q) = 4%nat /\ correct_answer q ∈ choices q)
    /\ forall fuel, (fuel0 <= fuel)%nat ->
         generate_multiple_choice_question plain_lib fuel spec_one_pole
           analysis_one_pole "random" (Rng counting_tape 0)
         = Returns (q, s').
Proof.
  apply (every_question_is_playable plain_lib spec_one_pole analysis_one_pole
           "random" (Rng counting_tape 0)).
  - exact counting_tape_fair.
  - exact analysis_one_pole_answerable.
Defined.

Lemma none_not_bracketed (v : Z) : "None" <> bracketed v.
Proof. unfold bracketed. intros Heq. inversion Heq. Qed.

Lemma NoDup_bracketed (ws : list Z) : NoDup ws -> NoDup (map bracketed ws).
Proof.
  induction 1 as [| v ws Hnotin Hnd IH]; cbn [map]; constructor; [| exact IH].
  intros Hin. apply list_elem_of_In, in_map_iff in Hin as (w & Heq & Hw).
  apply bracketed_inj in Heq. subst w.
  apply Hnotin, list_elem_of_In. exact Hw.
Qed.

(** X7.  The x-intercept and the holes builders, on a feature of
    integral floats (as the analyzer produces them) and a fair tape: there
    is a fuel from which the builder returns one and the same question,
    whose four choices are pairwise distinct and contain the correct
    answer, so exactly one choice is the correct one. *)
Theorem list_question_choices_distinct
    (L : Lib) (function_dict : FunctionSpec) (analysis : Analysis)
    (kind : string) (feature : list Q) (s : rng) :
  fair (tape s) ->
  (kind = "x_intercepts" /\ feature = x_intercepts analysis)
  \/ (kind = "holes" /\ feature = holes analysis) ->
  Forall (fun q => Qden (Qred q) = 1%positive) feature ->
  exists fuel0 q s',
    (length (choices q) = 4%nat /\ NoDup (choices q)
     /\ correct_answer q ∈ choices q)
    /\ forall fuel, (fuel0 <= fuel)%nat ->
         generate_multiple_choice_question L fuel function_dict analysis kind s
         = Returns (q, s').
Proof.
  intros Hfair Hkind Hint.
  assert (Hpost : forall question_text explanation_text,
            settles (fun fuel => list_question L fuel feature question_text
                                   explanation_text) s
              (fun q _ => length (choices q) = 4%nat /\ NoDup (choices q)
                          /\ correct_answer q ∈ choices q)).
  { intros qt et.
    eapply settles_mono; [| apply (list_question_settles L feature qt et s Hfair)].
    intros q _ (_ & _ & Hc & ws & Hperm & Hlen & Hnd & _ & _).
    destruct (four_choices _ _ _ Hperm ltac:(rewrite length_map; exact Hlen))
      as [H4 Hin].
    split; [exact H4 |]. split; [| exact Hin].
    rewrite Hperm. constructor; [| apply NoDup_bracketed; exact Hnd].
    intros Hmem. apply list_elem_of_In, in_map_iff in Hmem as (w & Heq & _).
    rewrite Hc in Heq. destruct feature as [| q0 rest].
    - apply (none_not_bracketed w). congruence.
    - apply (float_list_not_bracketed L (q0 :: rest) w); [discriminate | exact Hint |].
      congruence. }
  change (settles
            (fun fuel => generate_multiple_choice_question L fuel function_dict
                           analysis kind) s
            (fun q _ => length (choices q) = 4%nat /\ NoDup (choices q)
                        /\ correct_answer q ∈ choices q)).
  destruct Hkind as [[-> ->] | [-> ->]].
  - apply (settles_ext _
             (fun fuel => _generate_x_intercept_question L fuel function_dict
                            analysis)).
    { intros fuel.
      rewrite (proj1 (proj2 (proj2
                 (dispatch_named L fuel function_dict analysis)))).
      reflexivity. }
    apply Hpost.
  - apply (settles_ext _
             (fun fuel => _generate_holes_question L fuel function_dict
                            analysis)).
    { intros fuel.
      rewrite (proj2 (proj2 (proj2
                 (dispatch_named L fuel function_dict analysis)))).
      reflexivity. }
    apply Hpost.
Qed.

Lemma list_question_choices_distinct_witness :
  exists fuel0 q s',
    (length (choices q) = 4%nat /\ NoDup (choices q)
     /\ correct_answer q ∈ choices q)
    /\ forall fuel, (fuel0 <= fuel)%nat ->
         generate_multiple_choice_question plain_lib fuel spec_one_pole
           analysis_one_pole "x_intercepts" (Rng counting_tape 0)
         = Returns (q, s').
Proof.
  apply (list_question_choices_distinct plain_lib spec_one_pole
           analysis_one_pole "x_intercepts" [1%Q] (Rng counting_tape 0)).
  - exact counting_tape_fair.
  - left. split; reflexivity.
  - repeat constructor.
Defined.

(** X8.  The vertical-asymptote builder, when some integer of [-5, 5] is
    not an asymptote, on a fair tape: there is a fuel from which it
    returns one and the same question, with four choices, each of which
    is the correct answer or the printed list [[w]] of an integer [w] of
    [-5, 5] that is none of the vertical asymptotes. *)
Theorem va_question_offers_no_asymptote
    (L : Lib) (function_dict : FunctionSpec) (analysis : Analysis) (s : rng) :
  fair (tape s) ->
  (exists v, -5 <= v <= 5
             /\ forall x, x ∈ vertical_asymptotes analysis ->
                          ~ (inject_Z v == x)%Q) ->
  exists fuel0 q s',
    (length (choices q) = 4%nat
     /\ correct_answer q ∈ choices q
     /\ forall c, c ∈ choices q ->
          c = correct_answer q
          \/ exists w, -5 <= w <= 5 /\ c = bracketed w
                       /\ forall x, x ∈ vertical_asymptotes analysis ->
                                    ~ (inject_Z w == x)%Q)
    /\ forall fuel, (fuel0 <= fuel)%nat ->
         _generate_va_question L fuel function_dict analysis s
         = Returns (q, s').
Proof.
  intros Hfair (v & Hv & Hfree).
  assert (Hfree' : exists v, -5 <= v <= 5
             /\ py_in (PInt v) (floats (vertical_asymptotes analysis)) = false).
  { exists v. split; [exact Hv |]. apply py_in_int_floats. exact Hfree. }
  change (settles
            (fun fuel => _generate_va_question L fuel function_dict analysis) s
            (fun q _ =>
               length (choices q) = 4%nat
               /\ correct_answer q ∈ choices q
               /\ forall c, c ∈ choices q ->
                    c = correct_answer q
                    \/ exists w, -5 <= w <= 5 /\ c = bracketed w
                                 /\ forall x, x ∈ vertical_asymptotes analysis ->
                                              ~ (inject_Z w == x)%Q)).
  eapply settles_mono;
    [| apply (va_question_settles L function_dict analysis s Hfair Hfree')].
  intros q _ (_ & ws & Hperm & Hlen & Hall). cbv beta.
  destruct (four_choices _ _ _ Hperm ltac:(rewrite length_map; exact Hlen))
    as [H4 Hin].
  split; [exact H4 |]. split; [exact Hin |].
  intros c Hc. rewrite Hperm in Hc.
  apply elem_of_cons in Hc as [-> | Hc]; [left; reflexivity |].
  right. apply list_elem_of_In, in_map_iff in Hc as (w & <- & Hw).
  rewrite Forall_forall in Hall.
  destruct (Hall w (proj2 (list_elem_of_In _ _) Hw)) as [Hrange Hnot].
  exists w. split; [exact Hrange |]. split; [reflexivity |].
  apply py_in_int_floats. exact Hnot.
Qed.

Lemma va_question_offers_no_asymptote_witness :
  exists fuel0 q s',
    (length (choices q) = 4%nat
     /\ correct_answer q ∈ choices q
     /\ forall c, c ∈ choices q ->
          c = correct_answer q
          \/ exists w, -5 <= w <= 5 /\ c = bracketed w
                       /\ forall x, x ∈ vertical_asymptotes analysis_one_pole ->
                                    ~ (inject_Z w == x)%Q)
    /\ forall fuel, (fuel0 <= fuel)%nat ->
         _generate_va_question plain_lib fuel spec_one_pole analysis_one_pole
           (Rng counting_tape 0)
         = Returns (q, s').
Proof.
  apply (va_question_offers_no_asymptote plain_lib spec_one_pole
           analysis_one_pole (Rng counting_tape 0)).
  - exact counting_tape_fair.
  - exists 0. split; [lia |]. intros x Hx.
    apply list_elem_of_singleton in Hx. subst x. discriminate.
Defined.

(** X9.  The horizontal-asymptote builder on a fair tape, for an
    asymptote that is an int, or a float to which every integer of
    [-3, 3] adds exactly in binary64: there is a fuel from which it
    returns one and the same question, whose choices are the printed
    asymptote and the printed values of the asymptote moved by three
    distinct nonzero integers of [-3, 3]. *)
Theorem ha_question_offsets
    (L : Lib) (function_dict : FunctionSpec) (analysis : Analysis) (s : rng) :
  fair (tape s) ->
  (exists x, horizontal_asymptote analysis = PFloat x
             /\ forall k, -3 <= k <= 3 -> binary64_exact (x + inject_Z k))
  \/ (exists n, horizontal_asymptote analysis = PInt n) ->
  exists fuel0 q s',
    (correct_answer q = choice_str L (horizontal_asymptote analysis)
     /\ exists ks,
          choices q
          ≡ₚ correct_answer q
             :: map (fun k => choice_str L
                                (ha_offset (horizontal_asymptote analysis) k))
                  ks
          /\ length ks = 3%nat /\ NoDup ks
          /\ Forall (fun k => -3 <= k <= 3 /\ k <> 0) ks)
    /\ forall fuel, (fuel0 <= fuel)%nat ->
         _generate_ha_question L fuel function_dict analysis s
         = Returns (q, s').
Proof.
  intros Hfair Hexact.
  assert (Hnum : (exists x, horizontal_asymptote analysis = PFloat x)
                 \/ (exists n, horizontal_asymptote analysis = PInt n)).
  { destruct Hexact as [(x & Hx & _) | Hn]; [left; eauto | right; exact Hn]. }
  change (settles
            (fun fuel => _generate_ha_question L fuel function_dict analysis) s
            (fun q _ =>
               correct_answer q = choice_str L (horizontal_asymptote analysis)
               /\ exists ks,
                    choices q
                    ≡ₚ correct_answer q
                       :: map (fun k => choice_str L
                                 (ha_offset (horizontal_asymptote analysis) k))
                            ks
                    /\ length ks = 3%nat /\ NoDup ks
                    /\ Forall (fun k => -3 <= k <= 3 /\ k <> 0) ks)).
  eapply settles_mono;
    [| apply (ha_question_settles L function_dict analysis s Hfair);
       right; exact Hnum].
  intros q _ [(Hnone & _) | (_ & Hc & Hks)]; cbv beta.
  - destruct Hnum as [[x Hx] | [n Hn]]; congruence.
  - auto.
Qed.

Lemma ha_question_offsets_witness :
  exists fuel0 q s',
    (correct_answer q = choice_str plain_lib
                          (horizontal_asymptote analysis_one_pole)
     /\ exists ks,
          choices q
          ≡ₚ correct_answer q
             :: map (fun k => choice_str plain_lib
                                (ha_offset
                                   (horizontal_asymptote analysis_one_pole) k))
                  ks
          /\ length ks = 3%nat /\ NoDup ks
          /\ Forall (fun k => -3 <= k <= 3 /\ k <> 0) ks)
    /\ forall fuel, (fuel0 <= fuel)%nat ->
         _generate_ha_question plain_lib fuel spec_one_pole analysis_one_pole
           (Rng counting_tape 0)
         = Returns (q, s').
Proof.
  apply (ha_question_offsets plain_lib spec_one_pole analysis_one_pole
           (Rng counting_tape 0)).
  - exact counting_tape_fair.
  - left. exists 1%Q. split; [reflexivity |].
    intros k Hk. exists (1 + k), 0%nat.
    split; [lia |]. split; [lia |].
    unfold Qeq, Qplus, Qdiv, Qmult, Qinv, inject_Z. simpl. lia.
Defined.

(** * Practice mode *)

Lemma free_value_outside (l : list Z) :
  (length l <= 10)%nat -> exists v, -5 <= v <= 5 /\ v ∉ l.
Proof.
  intros Hlen.
  destruct (decide (Forall (fun v => v ∈ l) (seqZ (-5) 11))) as [Hall | Hnot].
  - exfalso.
    assert (Hsub : seqZ (-5) 11 ⊆+ l).
    { apply NoDup_submseteq; [apply NoDup_seqZ |].
      rewrite Forall_forall in Hall. exact Hall. }
    apply submseteq_length in Hsub. rewrite length_seqZ in Hsub. lia.
  - apply not_Forall_Exists in Hnot; [| intros x; apply _].
    apply Exists_exists in Hnot as (v & Hv & Hout).
    apply elem_of_seqZ in Hv. exists v. split; [lia | exact Hout].
Qed.

Lemma exact_limit_number_or_none (L : Lib) num den :
  sp_limit L num den = exact_limit num den ->
  number_or_none (_find_horizontal_asymptote L num den).
Proof.
  intros Hlim. unfold _find_horizontal_asymptote, number_or_none.
  rewrite Hlim. unfold exact_limit.
  destruct (is_zero den); [right; right; eexists; reflexivity |].
  destruct (is_zero num); [right; left; eexists; reflexivity |].
  destruct (_ ?= _)%nat; [right; left; eexists; reflexivity
                         | right; left; eexists; reflexivity |].
  destruct (0 <? _); left; reflexivity.
Qed.

Lemma exact_limit_float_bounded (L : Lib) num den :
  sp_limit L num den = exact_limit num den ->
  -5 <= coeff num <= 5 -> coeff den <> 0 ->
  float_bounded (_find_horizontal_asymptote L num den).
Proof.
  intros Hlim Hn Hd. unfold _find_horizontal_asymptote.
  rewrite Hlim. unfold exact_limit.
  destruct (is_zero den); [exact I |].
  destruct (is_zero num); [split; discriminate |].
  destruct (_ ?= _)%nat; [| split; discriminate |].
  - cbn [rbind lim_is_finite lim_is_real truthy andb lim_float try_except
         float_bounded].
    rewrite Qred_correct.
    destruct (coeff den) as [| b | b]; [contradiction | |];
      unfold Qle, Qdiv, Qmult, Qinv, inject_Z; cbn [Qnum Qden];
      split; nia.
  - destruct (0 <? _); exact I.
Qed.

(** On sympy's exact answers the analysis of a generated spec is one
    every builder can make a question of. *)
Lemma generated_analysis_answerable
    (release : sympy_release)
    (str_of latex_of : Quotient -> string) (repr_of : Q -> string)
    (bound : Z) spec n d :
  bound <= 6 ->
  generated_polynomial bound bound n ->
  generated_polynomial bound bound d ->
  ((numerator spec = n /\ denominator spec = d)
   \/ exists a, -5 <= a <= 5
                /\ numerator spec = pmul n (linear a)
                /\ denominator spec = pmul d (linear a)) ->
  exists an,
    analyze_function (exact_lib release str_of latex_of repr_of) spec = Ok an
    /\ answerable an.
Proof.
  intros Hb Hn Hd Hshape.
  set (L := exact_lib release str_of latex_of repr_of).
  destruct (exact_solve_total (denominator spec)) as [den_roots Hden].
  destruct (exact_solve_total (numerator spec)) as [num_roots Hnum].
  destruct (analyze_function_solved L spec den_roots num_roots Hden Hnum)
    as (vas & hs & xs & Hcl & _ & Hrun).
  eexists. split; [exact Hrun |]. split; [| split];
    cbn [vertical_asymptotes horizontal_asymptote].
  - assert (Hlen : (length (0%Z :: lin (denominator spec)) <= 10)%nat).
    { destruct Hd as (_ & _ & _ & Hl & _).
      destruct Hshape as [[_ ->] | (a & _ & _ & ->)]; simpl;
        rewrite ?length_app; simpl; lia. }
    destruct (free_value_outside _ Hlen) as (v & Hv & Hout).
    exists v. split; [exact Hv |]. apply py_in_int_floats.
    intros x Hx Heq.
    destruct (classify_den_roots_spec num_roots den_roots [] [])
      as (vas' & hs' & Hcl' & _ & Hvas).
    rewrite Hcl in Hcl'. injection Hcl' as <- <-.
    apply Hvas in Hx as [Hx | (z & Hz & _ & ->)]; [inversion Hx |].
    unfold Qeq in Heq. simpl in Heq. assert (v = z) by lia. subst z.
    apply Hout. unfold exact_solve in Hden.
    destruct (is_zero (denominator spec)); injection Hden as <-;
      [inversion Hz |].
    apply elem_of_map_RInt, elem_of_exact_roots in Hz as [[-> _] | Hz];
      [left | right; exact Hz].
  - apply exact_limit_number_or_none. reflexivity.
  - destruct Hn as (_ & Hcn & _). destruct Hd as (Hcd & _).
    apply exact_limit_float_bounded; [reflexivity | |];
      destruct Hshape as [[Hsn Hsd] | (a & _ & Hsn & Hsd)];
      rewrite ?Hsn, ?Hsd; cbn [pmul linear coeff]; lia.
Qed.

Lemma generate_function_fuel (L : Lib) (fuel : nat) (difficulty : Z) s :
  generate_function L fuel difficulty s = generate_function L 0 difficulty s.
Proof.
  unfold generate_function.
  rewrite !(bind_returns (getitem difficulty_configs 1) _ s
              {| max_degree := 2; max_factors := 2; holes_prob := 3 # 10 |} s
              eq_refl).
  destruct (config_bounds _ difficulty eq_refl) as [Hmd Hmf].
  set (config := default _ (difficulty_configs !! difficulty)) in *.
  destruct (generate_polynomial_nonzero _ _ s Hmd Hmf) as (n & s1 & Hn & _).
  rewrite !(bind_returns _ _ _ _ _ Hn).
  destruct (generate_polynomial_nonzero _ _ s1 Hmd Hmf) as (d & s2 & Hd & Hc).
  rewrite !(bind_returns _ _ _ _ _ Hd).
  assert (Hz : is_zero d = false) by (apply Z.eqb_neq; exact Hc).
  rewrite (bind_returns _ _ _ _ _
             (while_loop_skip fuel is_zero
                (_generate_polynomial (max_degree config) (max_factors config))
                d s2 Hz)).
  rewrite (bind_returns _ _ _ _ _
             (while_loop_skip 0 is_zero
                (_generate_polynomial (max_degree config) (max_factors config))
                d s2 Hz)).
  reflexivity.
Qed.

Lemma type_mapping_kind (question_type : string) :
  default "vertical_asymptotes" (type_mapping !! question_type)
  ∈ question_types.
Proof.
  unfold type_mapping, question_types.
  destruct (decide (question_type = "Vertical Asymptotes")) as [-> | H1];
    [vm_compute; left |].
  destruct (decide (question_type = "Horizontal Asymptotes")) as [-> | H2];
    [vm_compute; right; left |].
  destruct (decide (question_type = "X-intercepts")) as [-> | H3];
    [vm_compute; do 2 right; left |].
  destruct (decide (question_type = "Holes")) as [-> | H4];
    [vm_compute; do 3 right; left |].
  rewrite !lookup_insert_ne by congruence.
  rewrite lookup_singleton_ne by congruence. left.
Qed.

Lemma generate_function_settles (L : Lib) (difficulty : Z) s :
  let bound := if decide (1 <= difficulty <= 5) then difficulty + 1 else 2 in
  settles (fun fuel => generate_function L fuel difficulty) s
    (fun spec s' =>
       tape s' = tape s
       /\ exists n d,
            generated_polynomial bound bound n
            /\ generated_polynomial bound bound d
            /\ ((numerator spec = n /\ denominator spec = d)
                \/ exists a, -5 <= a <= 5
                             /\ numerator spec = pmul n (linear a)
                             /\ denominator spec = pmul d (linear a))).
Proof.
  intros bound.
  destruct (generate_function_spec L 0 difficulty s)
    as (spec & s' & Hrun & Htape & _ & _ & _ & Hshape).
  exists 0%nat, spec, s'. split; [auto |].
  intros fuel _. rewrite generate_function_fuel. exact Hrun.
Qed.

(** X10.  Practice mode, on sympy's exact answers and a fair tape, for
    every difficulty and every selector string: there is a fuel from which
    [_generate_new_question] returns one and the same record.  Its
    question type is one of the four kinds (for a selector other than
    "Random" the mapped kind, vertical asymptotes when the selector is
    not in the mapping), its analysis is the analysis of its function, and
    its question has four choices with the correct answer among them. *)
Theorem practice_question_is_playable
    (release : sympy_release)
    (str_of latex_of : Quotient -> string) (repr_of : Q -> string)
    (difficulty : Z) (selector : string) (s : rng) :
  let L := exact_lib release str_of latex_of repr_of in
  fair (tape s) ->
  exists fuel0 pq s',
    (pq_difficulty pq = difficulty
     /\ pq_question_type pq ∈ question_types
     /\ (selector <> "Random" ->
         pq_question_type pq
         = default "vertical_asymptotes" (type_mapping !! selector))
     /\ analyze_function L (pq_function_dict pq) = Ok (pq_analysis pq)
     /\ length (choices (pq_question_data pq)) = 4%nat
     /\ correct_answer (pq_question_data pq) ∈ choices (pq_question_data pq))
    /\ forall fuel, (fuel0 <= fuel)%nat ->
         _generate_new_question L fuel difficulty selector s
         = Returns (pq, s').
Proof.
  intros L Hfair.
  change (settles
            (fun fuel => _generate_new_question L fuel difficulty selector) s
            (fun pq _ =>
               pq_difficulty pq = difficulty
               /\ pq_question_type pq ∈ question_types
               /\ (selector <> "Random" ->
                   pq_question_type pq
                   = default "vertical_asymptotes" (type_mapping !! selector))
               /\ analyze_function L (pq_function_dict pq) = Ok (pq_analysis pq)
               /\ length (choices (pq_question_data pq)) = 4%nat
               /\ correct_answer (pq_question_data pq)
                  ∈ choices (pq_question_data pq))).
  unfold _generate_new_question.
  apply settles_bind.
  eapply settles_mono; [| apply generate_function_settles].
  intros spec s1 (Ht1 & n & d & Hn & Hd & Hshape).
  assert (Hb : (if decide (1 <= difficulty <= 5) then difficulty + 1 else 2) <= 6)
    by (destruct (decide _); lia).
  destruct (generated_analysis_answerable release str_of latex_of repr_of _ spec n d
              Hb Hn Hd Hshape) as (an & Han & Hans).
  fold L in Han.
  apply settles_bind. apply settles_returns.
  exists an, s1. split; [unfold lift; rewrite Han; reflexivity |].
  apply settles_bind.
  assert (Hfair1 : fair (tape s1)) by (rewrite Ht1; exact Hfair).
  assert (Hkind :
    settles
      (fun _ : nat =>
         if String.eqb selector "Random" then
           choice ["vertical_asymptotes"; "horizontal_asymptote";
                   "x_intercepts"; "holes"]
         else ret (default "vertical_asymptotes" (type_mapping !! selector)))
      s1
      (fun kind s2 =>
         tape s2 = tape s1 /\ kind ∈ question_types
         /\ (selector <> "Random" ->
             kind = default "vertical_asymptotes" (type_mapping !! selector)))).
  { apply settles_returns.
    destruct (String.eqb_spec selector "Random") as [-> | Hsel].
    - unfold choice. apply returns_bind.
      eexists; eexists; split; [apply randbelow_run |].
      pose proof (Z.mod_pos_bound (tape s1 (pos s1)) 4 ltac:(lia)) as Hi.
      change (Z.of_nat (length ["vertical_asymptotes"; "horizontal_asymptote";
                                "x_intercepts"; "holes"])) with 4.
      destruct (["vertical_asymptotes"; "horizontal_asymptote";
                 "x_intercepts"; "holes"] !! Z.to_nat (tape s1 (pos s1) mod 4))
        as [kind |] eqn:Hk.
      2:{ apply lookup_ge_None in Hk. simpl in Hk. lia. }
      apply returns_ret. split; [reflexivity |].
      split; [apply list_elem_of_lookup; eauto | congruence].
    - apply returns_ret. split; [reflexivity |].
      split; [apply type_mapping_kind | reflexivity]. }
  eapply settles_mono; [| exact Hkind].
  intros kind s2 (Ht2 & Hin & Hsel).
  apply settles_bind.
  eapply settles_mono;
    [| apply (question_settles L spec an kind s2);
       [rewrite Ht2; exact Hfair1 | exact Hans]].
  intros q s3 [H4 Hc].
  apply settles_returns, returns_ret.
  cbn [pq_difficulty pq_question_type pq_function_dict pq_analysis
       pq_question_data].
  auto 10.
Qed.

Lemma practice_question_is_playable_witness :
  exists fuel0 pq s',
    (pq_difficulty pq = 3
     /\ pq_question_type pq ∈ question_types
     /\ ("Holes" <> "Random" ->
         pq_question_type pq
         = default "vertical_asymptotes" (type_mapping !! "Holes"))
     /\ analyze_function plain_lib (pq_function_dict pq) = Ok (pq_analysis pq)
     /\ length (choices (pq_question_data pq)) = 4%nat
     /\ correct_answer (pq_question_data pq) ∈ choices (pq_question_data pq))
    /\ forall fuel, (fuel0 <= fuel)%nat ->
         _generate_new_question plain_lib fuel 3 "Holes" (Rng counting_tape 0)
         = Returns (pq, s').
Proof.
  apply (practice_question_is_playable Before_1_13 show_quotient show_quotient
           show_fraction 3 "Holes" (Rng counting_tape 0)).
  exact counting_tape_fair.
Defined.

(** * Scoring *)

Lemma py_int_integral (q : Q) (z : Z) : (q == inject_Z z)%Q -> py_int q = z.
Proof.
  unfold Qeq, py_int. simpl. intros H. rewrite Z.mul_1_r in H. rewrite H.
  apply Z.quot_mul. lia.
Qed.

Lemma difficulty_multiplier_outside (l : Z) :
  ~ (1 <= l <= 5) -> difficulty_multiplier !! l = None.
Proof.
  intros Hl. unfold difficulty_multiplier.
  rewrite !lookup_insert_ne by lia. apply lookup_singleton_ne. lia.
Qed.

(** The score of a correct answer without [int] and without floats. *)
Lemma calculate_score_correct (l : Z) (t : Q) (k : Z) :
  calculate_score true l t k
  = (if decide (l = 2) then 120 else if decide (l = 3) then 150
     else if decide (l = 4) then 180 else if decide (l = 5) then 200 else 100)
    + (if Qltb t 5 then 50 else 0)
    + (if 3 <=? k then Z.min (k - 2) 10 * 25 else 0).
Proof.
  unfold calculate_score. cbn [negb]. cbv zeta.
  apply py_int_integral.
  assert (Hbase :
    (inject_Z 100 * default 1 (difficulty_multiplier !! l)
     == inject_Z (if decide (l = 2) then 120 else if decide (l = 3) then 150
                  else if decide (l = 4) then 180
                  else if decide (l = 5) then 200 else 100)%Z)%Q).
  { destruct (decide (1 <= l <= 5)) as [Hin | Hout].
    - assert (Hl : l = 1 \/ l = 2 \/ l = 3 \/ l = 4 \/ l = 5) by lia.
      destruct Hl as [-> | [-> | [-> | [-> | ->]]]]; reflexivity.
    - rewrite (difficulty_multiplier_outside l Hout).
      repeat (destruct (decide _) as [-> | _]; [lia |]). reflexivity. }
  destruct (Qltb t 5), (3 <=? k);
    rewrite ?inject_Z_plus, Hbase;
    change (inject_Z 50) with (50 # 1)%Q; change (inject_Z 0) with (0 # 1)%Q;
    ring.
Qed.

(** X11.  A wrong answer scores 0 whatever the level, the time and the
    streak; a correct answer scores at least 100 and at most 500. *)
Theorem calculate_score_bounds (l : Z) (t : Q) (k : Z) :
  calculate_score false l t k = 0
  /\ 100 <= calculate_score true l t k <= 500.
Proof.
  split; [reflexivity |].
  rewrite calculate_score_correct.
  repeat destruct (decide _); destruct (Qltb t 5);
    destruct (Z.leb_spec 3 k); lia.
Qed.

(** X12.  Only the part of the streak between 2 and 12 counts: a streak
    below 3 earns no bonus, and from 12 on the bonus stays at 250. *)
Theorem calculate_score_streak_clamped (c : bool) (l : Z) (t : Q) (k : Z) :
  calculate_score c l t k = calculate_score c l t (Z.max 2 (Z.min k 12))
  /\ calculate_score true l t k - calculate_score true l t 0
     = 25 * (Z.max 2 (Z.min k 12) - 2).
Proof.
  destruct c.
  - rewrite !calculate_score_correct.
    repeat destruct (decide _); destruct (Qltb t 5);
      destruct (Z.leb_spec 3 k);
      destruct (Z.leb_spec 3 (Z.max 2 (Z.min k 12)));
      destruct (Z.leb_spec 3 0); lia.
  - split; [reflexivity |].
    rewrite !calculate_score_correct.
    repeat destruct (decide _); destruct (Qltb t 5);
      destruct (Z.leb_spec 3 k); destruct (Z.leb_spec 3 0); lia.
Qed.

(** X13.  A level outside 1..5 scores as level 1 does; among the levels
    1..5 the score of a correct answer does not decrease when the level
    or the streak grows. *)
Theorem calculate_score_monotone (l0 l l' : Z) (t : Q) (k k' : Z) :
  ~ (1 <= l0 <= 5) ->
  1 <= l -> l <= l' -> l' <= 5 ->
  k <= k' ->
  calculate_score true l0 t k = calculate_score true 1 t k
  /\ calculate_score true l t k <= calculate_score true l' t k'.
Proof.
  intros Hl0 Hl Hll Hl' Hk.
  rewrite !calculate_score_correct. split.
  - repeat (destruct (decide _) as [-> | _]; [lia |]).
    repeat (destruct (decide _) as [| _]; [lia |]). reflexivity.
  - repeat destruct (decide _); destruct (Qltb t 5);
      destruct (Z.leb_spec 3 k); destruct (Z.leb_spec 3 k'); lia.
Qed.

Lemma calculate_score_monotone_witness :
  calculate_score true 9 (3 # 1) 4 = calculate_score true 1 (3 # 1) 4
  /\ calculate_score true 2 (3 # 1) 4 <= calculate_score true 4 (3 # 1) 7.
Proof.
  apply (calculate_score_monotone 9 2 4 (3 # 1) 4 7); lia.
Defined.

(** * Achievements *)

(** The list [check_achievements] returns: the keys whose threshold test
    passes, in order, then [level_up] when the level has risen. *)
Lemma check_achievements_eq (s : PlayerStats) :
  check_achievements s
  = let passed := map snd (filter (fun t => fst t = true) (threshold_tests s)) in
    if counter s "max_earned_level" 0 <? counter s "current_level" 1 then
      (passed ++ ["level_up"],
       {| counters := <["max_earned_level" := counter s "current_level" 1]>
                        (counters s);
          earned_achievements := earned_achievements s |})
    else (passed, s).
Proof.
  unfold check_achievements, threshold_tests. cbv zeta.
  destruct ((counter s "total_correct" 0 =? 1) && _);
    destruct ((5 <=? counter s "quick_answers" 0) && _);
    destruct ((10 <=? counter s "max_streak" 0) && _);
    destruct ((20 <=? counter s "asymptotes_correct" 0) && _);
    destruct ((15 <=? counter s "intercepts_correct" 0) && _);
    destruct ((10 <=? counter s "holes_correct" 0) && _);
    reflexivity.
Qed.

Lemma passed_tests (s : PlayerStats) (a : string) :
  a ∈ map snd (filter (fun t => fst t = true) (threshold_tests s)) ->
  a ∈ achievement_keys /\ a <> "level_up"
  /\ a ∉ default [] (earned_achievements s).
Proof.
  intros Ha. apply list_elem_of_fmap in Ha as ([b k] & -> & Hin).
  apply list_elem_of_filter in Hin as [Hb Hin].
  cbn [fst snd] in *. subst b. unfold threshold_tests in Hin.
  rewrite !elem_of_cons in Hin. unfold achievement_keys.
  rewrite !elem_of_cons.
  destruct Hin as [Hin | [Hin | [Hin | [Hin | [Hin | [Hin | Hin]]]]]];
    try (by apply elem_of_nil in Hin);
    injection Hin as Hc ->; symmetry in Hc;
    apply andb_true_iff in Hc as [_ Hc];
    apply bool_decide_eq_true in Hc;
    (split; [tauto |]); (split; [discriminate | exact Hc]).
Qed.

Lemma NoDup_passed_tests (s : PlayerStats) :
  NoDup (map snd (filter (fun t => fst t = true) (threshold_tests s)))
  /\ "level_up" ∉ map snd (filter (fun t => fst t = true) (threshold_tests s)).
Proof.
  split.
  - unfold threshold_tests.
    destruct ((counter s "total_correct" 0 =? 1) && _);
      destruct ((5 <=? counter s "quick_answers" 0) && _);
      destruct ((10 <=? counter s "max_streak" 0) && _);
      destruct ((20 <=? counter s "asymptotes_correct" 0) && _);
      destruct ((15 <=? counter s "intercepts_correct" 0) && _);
      destruct ((10 <=? counter s "holes_correct" 0) && _);
      vm_compute;
      repeat (apply NoDup_cons; split;
              [rewrite ?not_elem_of_cons; repeat split;
               first [discriminate | apply not_elem_of_nil] |]);
      apply NoDup_nil_2.
  - intros Hin. apply passed_tests in Hin as (_ & Hne & _). congruence.
Qed.

(** X14.  [check_achievements] returns known achievement keys, each at
    most once, and, apart from [level_up], none that is already among the
    earned achievements. *)
Theorem check_achievements_reports_new (s : PlayerStats) :
  NoDup (fst (check_achievements s))
  /\ forall a, a ∈ fst (check_achievements s) ->
       a ∈ achievement_keys
       /\ (a = "level_up" \/ a ∉ default [] (earned_achievements s)).
Proof.
  rewrite check_achievements_eq. cbv zeta.
  destruct (NoDup_passed_tests s) as [Hnd Hlvl].
  destruct (_ <? _); cbn [fst].
  - split.
    + apply NoDup_app. split; [exact Hnd |]. split; [| apply NoDup_singleton].
      intros x Hx Hx'. apply list_elem_of_singleton in Hx'. subst x.
      contradiction.
    + intros a Ha. apply elem_of_app in Ha as [Ha | Ha].
      * apply passed_tests in Ha as (Hk & _ & He). auto.
      * apply list_elem_of_singleton in Ha. subst a.
        split; [unfold achievement_keys; set_solver | left; reflexivity].
  - split; [exact Hnd |].
    intros a Ha. apply passed_tests in Ha as (Hk & _ & He). auto.
Qed.

Lemma counter_insert_other (s : PlayerStats) (key k : string) (v d : Z) :
  key <> k ->
  counter {| counters := <[key := v]> (counters s);
             earned_achievements := earned_achievements s |} k d
  = counter s k d.
Proof.
  intros Hne. unfold counter. cbn [counters].
  rewrite lookup_insert_ne by exact Hne. reflexivity.
Qed.

(** X15.  [level_up] is reported exactly when the current level (1 when
    missing) exceeds the highest level recorded (0 when missing); the
    statistics then record the current level, so that checking again
    right away changes nothing more and reports the same achievements
    without [level_up]. *)
Theorem check_achievements_level_up_once (s : PlayerStats) :
  ("level_up" ∈ fst (check_achievements s)
   <-> counter s "max_earned_level" 0 < counter s "current_level" 1)
  /\ counter (snd (check_achievements s)) "max_earned_level" 0
     = Z.max (counter s "max_earned_level" 0) (counter s "current_level" 1)
  /\ check_achievements (snd (check_achievements s))
     = (filter (fun a => a <> "level_up") (fst (check_achievements s)),
        snd (check_achievements s)).
Proof.
  destruct (NoDup_passed_tests s) as [_ Hlvl].
  assert (Hfilter :
    filter (fun a => a <> "level_up")
      (map snd (filter (fun t => fst t = true) (threshold_tests s)))
    = map snd (filter (fun t => fst t = true) (threshold_tests s))).
  { revert Hlvl. generalize (map snd (filter (fun t => fst t = true)
                                        (threshold_tests s))).
    intros l Hl. induction l as [| a l IH]; [reflexivity |].
    apply not_elem_of_cons in Hl as [Ha Hl].
    rewrite filter_cons_True by congruence. f_equal. auto. }
  rewrite (check_achievements_eq s). cbv zeta.
  destruct (Z.ltb_spec (counter s "max_earned_level" 0)
              (counter s "current_level" 1)) as [Hlt | Hge]; cbn [fst snd].
  - split; [| split].
    + split; [intros _; exact Hlt | intros _; set_solver].
    + unfold counter at 1. cbn [counters]. rewrite lookup_insert_eq.
      change (counter s "current_level" 1
              = Z.max (counter s "max_earned_level" 0)
                  (counter s "current_level" 1)). lia.
    + rewrite check_achievements_eq. cbv zeta.
      set (s' := {| counters := _; earned_achievements := _ |}).
      assert (Htests : threshold_tests s' = threshold_tests s).
      { unfold threshold_tests, not_earned. subst s'.
        rewrite !counter_insert_other by discriminate. reflexivity. }
      assert (Hcur : counter s' "current_level" 1 = counter s "current_level" 1).
      { subst s'. apply counter_insert_other. discriminate. }
      assert (Hmax : counter s' "max_earned_level" 0
                     = counter s "current_level" 1).
      { subst s'. unfold counter at 1. cbn [counters].
        rewrite lookup_insert_eq. reflexivity. }
      rewrite Htests, Hcur, Hmax, Z.ltb_irrefl.
      rewrite filter_app, Hfilter. rewrite filter_cons_False by auto.
      rewrite filter_nil, app_nil_r. reflexivity.
  - split; [| split].
    + split; [intros Hin; contradiction | lia].
    + lia.
    + rewrite check_achievements_eq. cbv zeta.
      destruct (Z.ltb_spec (counter s "max_earned_level" 0)
                  (counter s "current_level" 1)); [lia |].
      rewrite Hfilter. reflexivity.
Qed.

(** * The leaderboard *)

Lemma py_slice_from_last {A} (k : nat) (l : list A) :
  (0 < k)%nat -> py_slice_from (- Z.of_nat k) l = drop (length l - k) l.
Proof.
  intros Hk. unfold py_slice_from.
  destruct (Z.ltb_spec (- Z.of_nat k) 0) as [Hneg | Hz]; [| lia].
  f_equal. lia.
Qed.

Lemma keep_last_fifty {A} (scores : list A) :
  (if (50 <? length scores)%nat then py_slice_from (-50) scores else scores)
  = drop (length scores - 50) scores.
Proof.
  destruct (Nat.ltb_spec 50 (length scores)) as [Hlong | Hshort].
  - apply (py_slice_from_last 50). lia.
  - replace (length scores - 50)%nat with 0%nat by lia. reflexivity.
Qed.

Lemma update_player_score_lookup now_played now_recorded
    (data : gmap string PlayerData) player_name score level game_mode :
  let old := default new_player (data !! player_name) in
  let scores := game_scores old
                ++ [{| gr_score := score; gr_level := level;
                       gr_mode := game_mode; gr_date := now_recorded |}] in
  update_player_score now_played now_recorded data player_name score level
    game_mode !! player_name
  = Some {| total_score := total_score old + score;
            games_played := games_played old + 1;
            best_score := Z.max (best_score old) score;
            max_level := Z.max (max_level old) level;
            last_played := Some now_played;
            game_scores := drop (length scores - 50) scores |}.
Proof.
  intros old scores. subst old scores. unfold update_player_score.
  destruct (data !! player_name) as [player_data |] eqn:Hlook.
  - rewrite Hlook. cbv zeta. rewrite lookup_insert_eq, keep_last_fifty.
    reflexivity.
  - rewrite lookup_insert_eq. cbv zeta.
    rewrite lookup_insert_eq, keep_last_fifty. reflexivity.
Qed.

Lemma update_player_score_other now_played now_recorded
    (data : gmap string PlayerData) player_name score level game_mode other :
  other <> player_name ->
  update_player_score now_played now_recorded data player_name score level
    game_mode !! other
  = data !! other.
Proof.
  intros Hne. unfold update_player_score.
  destruct (data !! player_name) as [player_data |] eqn:Hlook.
  - rewrite Hlook. cbv zeta. rewrite lookup_insert_ne by congruence.
    reflexivity.
  - rewrite lookup_insert_eq. cbv zeta.
    rewrite !lookup_insert_ne by congruence. reflexivity.
Qed.

(** X16.  [update_player_score] adds the game to the player's record (a
    new player starts from zero games, best score 0 and level 1): the
    total grows by the score, the count by one, and the history is the
    old one with the new game at its end, cut to its last fifty entries.
    No other player's record changes. *)
Theorem update_player_score_records_game now_played now_recorded
    (data : gmap string PlayerData) player_name score level game_mode :
  let old := default new_player (data !! player_name) in
  let game := {| gr_score := score; gr_level := level;
                 gr_mode := game_mode; gr_date := now_recorded |} in
  let updated := update_player_score now_played now_recorded data player_name
                   score level game_mode in
  (exists new,
     updated !! player_name = Some new
     /\ total_score new = total_score old + score
     /\ games_played new = games_played old + 1
     /\ best_score old <= best_score new /\ score <= best_score new
     /\ max_level old <= max_level new /\ level <= max_level new
     /\ last_played new = Some now_played
     /\ last (game_scores new) = Some game
     /\ length (game_scores new)
        = Nat.min 50 (length (game_scores old) + 1)
     /\ exists dropped,
          game_scores old ++ [game] = dropped ++ game_scores new)
  /\ forall other, other <> player_name -> updated !! other = data !! other.
Proof.
  intros old game updated. split.
  - eexists. split; [apply update_player_score_lookup |].
    fold old game. cbn [total_score games_played best_score max_level
                          last_played game_scores].
    repeat split; try lia.
    + set (scores := game_scores old ++ [game]).
      assert (Hlen : length scores = (length (game_scores old) + 1)%nat)
        by (subst scores; rewrite length_app; reflexivity).
      rewrite last_lookup, length_drop, lookup_drop.
      replace (length scores - 50 + Init.Nat.pred (length scores - (length scores - 50)))%nat
        with (length (game_scores old)) by lia.
      subst scores. rewrite lookup_app_r by lia.
      rewrite Nat.sub_diag. reflexivity.
    + rewrite length_drop, length_app. cbn [length]. lia.
    + exists (take (length (game_scores old ++ [game]) - 50)
                (game_scores old ++ [game])).
      rewrite take_drop. reflexivity.
  - intros other Hne. apply update_player_score_other. exact Hne.
Qed.

Lemma py_sum_snoc (l : list Z) (x : Z) : py_sum (l ++ [x]) = py_sum l + x.
Proof. unfold py_sum. rewrite foldl_app. reflexivity. Qed.

Lemma new_record_consistent now_played (old : PlayerData) game :
  old = new_player \/ consistent_player old ->
  consistent_player
    {| total_score := total_score old + gr_score game;
       games_played := games_played old + 1;
       best_score := Z.max (best_score old) (gr_score game);
       max_level := Z.max (max_level old) (gr_level game);
       last_played := Some now_played;
       game_scores := drop (length (game_scores old ++ [game]) - 50)
                        (game_scores old ++ [game]) |}.
Proof.
  intros Hold.
  assert (Hinv :
    0 <= games_played old
    /\ Z.of_nat (length (game_scores old)) = Z.min 50 (games_played old)
    /\ Forall (fun g => gr_score g <= best_score old
                        /\ gr_level g <= max_level old) (game_scores old)
    /\ 0 <= best_score old /\ 1 <= max_level old
    /\ (games_played old <= 50 ->
        total_score old = py_sum (map gr_score (game_scores old)))).
  { destruct Hold as [-> | (H1 & H2 & H3 & H4 & H5 & _ & H7)].
    - cbn. repeat split; try lia. constructor.
    - repeat split; try assumption; lia. }
  destruct Hinv as (Hg & Hlen & Hall & Hbest & Hlvl & Hsum).
  unfold consistent_player.
  cbn [total_score games_played best_score max_level last_played game_scores].
  rewrite length_drop, length_app. cbn [length].
  repeat split; try lia; try discriminate.
  - apply Forall_drop, Forall_app. split.
    + eapply Forall_impl; [exact Hall |]. cbv beta. intros g [? ?]. lia.
    + repeat constructor; lia.
  - intros Hfew.
    replace (length (game_scores old) + 1 - 50)%nat with 0%nat by lia.
    rewrite drop_0, map_app. cbn [map]. rewrite py_sum_snoc, Hsum by lia.
    reflexivity.
Qed.

Lemma built_consistent (data : gmap string PlayerData)
    (player_name : string) (record : PlayerData) :
  built data -> data !! player_name = Some record ->
  consistent_player record.
Proof.
  intros Hbuilt. revert player_name record.
  induction Hbuilt as [| now_played now_recorded data p score level game_mode
                         Hbuilt IH | data p Hbuilt IH];
    intros player_name record Hlook.
  - rewrite lookup_empty in Hlook. discriminate.
  - destruct (decide (player_name = p)) as [-> | Hne].
    + rewrite update_player_score_lookup in Hlook. cbv zeta in Hlook.
      injection Hlook as <-.
      apply (new_record_consistent now_played _
               {| gr_score := score; gr_level := level; gr_mode := game_mode;
                  gr_date := now_recorded |}).
      destruct (data !! p) as [old |] eqn:Hold; [right | left; reflexivity].
      exact (IH p old Hold).
    + rewrite update_player_score_other in Hlook by exact Hne.
      exact (IH _ _ Hlook).
  - unfold reset_player_data in Hlook.
    destruct (data !! p) eqn:Hp; [| exact (IH _ _ Hlook)].
    apply lookup_delete_Some in Hlook as [_ Hlook]. exact (IH _ _ Hlook).
Qed.

(** X17.  In a leaderboard built from the empty one by updates and
    resets, every record has at least one game; its history holds the
    last fifty games at most, exactly [min 50 games_played] of them; no
    kept game has a score above [best_score] or a level above
    [max_level]; [best_score] is not negative and [max_level] at least 1;
    [last_played] is set; and as long as no game has been dropped,
    [total_score] is the sum of the scores of the history. *)
Theorem built_records_consistent (data : gmap string PlayerData)
    (player_name : string) (record : PlayerData) :
  built data -> data !! player_name = Some record ->
  1 <= games_played record
  /\ length (game_scores record) = Z.to_nat (Z.min 50 (games_played record))
  /\ (forall game, game ∈ game_scores record ->
        gr_score game <= best_score record
        /\ gr_level game <= max_level record)
  /\ 0 <= best_score record
  /\ 1 <= max_level record
  /\ (exists date, last_played record = Some date)
  /\ (games_played record <= 50 ->
      total_score record = py_sum (map gr_score (game_scores record))).
Proof.
  intros Hbuilt Hlook.
  destruct (built_consistent data player_name record Hbuilt Hlook)
    as (Hgames & Hlen & Hall & Hbest & Hlevel & Hlast & Hsum).
  rewrite Forall_forall in Hall.
  repeat split; try assumption; try (apply Hall; assumption).
  - lia.
  - destruct (last_played record) as [date |]; [eauto | congruence].
Qed.

Lemma built_records_consistent_witness :
  1 <= games_played one_game_record
  /\ length (game_scores one_game_record)
     = Z.to_nat (Z.min 50 (games_played one_game_record))
  /\ (forall game, game ∈ game_scores one_game_record ->
        gr_score game <= best_score one_game_record
        /\ gr_level game <= max_level one_game_record)
  /\ 0 <= best_score one_game_record
  /\ 1 <= max_level one_game_record
  /\ (exists date, last_played one_game_record = Some date)
  /\ (games_played one_game_record <= 50 ->
      total_score one_game_record
      = py_sum (map gr_score (game_scores one_game_record))).
Proof.
  apply (built_records_consistent one_game_board "ann" one_game_record).
  - apply built_update, built_empty.
  - reflexivity.
Defined.

(** X18.  [get_player_history] with a positive limit returns the end of
    the player's history: its last [limit] games, all of them when there
    are fewer, in their order; nothing for an unknown player. *)
Theorem get_player_history_last_games (data : gmap string PlayerData)
    (player_name : string) (limit : Z) :
  0 < limit ->
  let history := default [] (game_scores <$> data !! player_name) in
  length (get_player_history data player_name limit)
  = Nat.min (Z.to_nat limit) (length history)
  /\ exists older,
       history = older ++ get_player_history data player_name limit.
Proof.
  intros Hpos history. subst history. unfold get_player_history.
  destruct (data !! player_name) as [record |];
    [change (default [] (game_scores <$> Some record))
       with (game_scores record)
    | change (default [] (game_scores <$> @None PlayerData))
        with (@nil GameRecord)].
  2:{ split; [simpl; lia | exists []; reflexivity]. }
  destruct (game_scores record) as [| game rest] eqn:Hscores.
  { split; [simpl; lia | exists []; reflexivity]. }
  rewrite <- Hscores. clear Hscores.
  replace (- limit) with (- Z.of_nat (Z.to_nat limit)) by lia.
  rewrite py_slice_from_last by lia. split.
  - rewrite length_drop. lia.
  - exists (take (length (game_scores record) - Z.to_nat limit)
              (game_scores record)).
    rewrite take_drop. reflexivity.
Qed.

Lemma get_player_history_last_games_witness :
  length (get_player_history one_game_board "ann" 20)
  = Nat.min (Z.to_nat 20) (length (default [] (game_scores <$> one_game_board !! "ann")))
  /\ exists older,
       default [] (game_scores <$> one_game_board !! "ann")
       = older ++ get_player_history one_game_board "ann" 20.
Proof.
  apply (get_player_history_last_games one_game_board "ann" 20). lia.
Defined.

(** X19.  [get_player_history] with a limit that is not positive
    returns the history without its first [- limit] games: the whole
    history for the limit 0, and nothing once [- limit] reaches the
    number of games, as for an unknown player. *)
Theorem get_player_history_nonpositive_limit (data : gmap string PlayerData)
    (player_name : string) (limit : Z) :
  limit <= 0 ->
  let history := default [] (game_scores <$> data !! player_name) in
  get_player_history data player_name limit
  = drop (Z.to_nat (- limit)) history
  /\ (limit = 0 -> get_player_history data player_name limit = history)
  /\ (get_player_history data player_name limit = []
      <-> (length history <= Z.to_nat (- limit))%nat).
Proof.
  intros Hneg history.
  assert (Hdrop : get_player_history data player_name limit
                  = drop (Z.to_nat (- limit)) history).
  { subst history. unfold get_player_history.
    destruct (data !! player_name) as [record |];
      [change (default [] (game_scores <$> Some record))
         with (game_scores record)
      | change (default [] (game_scores <$> @None PlayerData))
          with (@nil GameRecord)].
    2:{ rewrite drop_nil. reflexivity. }
    destruct (game_scores record) as [| game rest] eqn:Hscores.
    { rewrite drop_nil. reflexivity. }
    unfold py_slice_from.
    destruct (Z.ltb_spec (- limit) 0); [lia | reflexivity]. }
  split; [exact Hdrop |]. split.
  - intros ->. rewrite Hdrop. reflexivity.
  - rewrite Hdrop. split.
    + intros Hnil. apply (f_equal length) in Hnil.
      rewrite length_drop in Hnil. simpl in Hnil. lia.
    + intros Hlen. apply drop_ge. exact Hlen.
Qed.

Lemma get_player_history_nonpositive_limit_witness :
  get_player_history one_game_board "ann" 0
  = drop (Z.to_nat (- 0))
      (default [] (game_scores <$> one_game_board !! "ann"))
  /\ (0 = 0 -> get_player_history one_game_board "ann" 0
               = default [] (game_scores <$> one_game_board !! "ann"))
  /\ (get_player_history one_game_board "ann" 0 = []
      <-> (length (default [] (game_scores <$> one_game_board !! "ann"))
           <= Z.to_nat (- 0))%nat).
Proof.
  apply (get_player_history_nonpositive_limit one_game_board "ann" 0). lia.
Defined.

(** X20.  [reset_player_data] removes the player and nobody else: the
    player's history is then empty for every limit, and a later update
    starts the player again from a new record holding just that game. *)
Theorem reset_player_data_forgets (data : gmap string PlayerData)
    (player_name : string) :
  reset_player_data data player_name !! player_name = None
  /\ (forall other, other <> player_name ->
        reset_player_data data player_name !! other = data !! other)
  /\ (forall limit,
        get_player_history (reset_player_data data player_name) player_name
          limit = [])
  /\ forall now_played now_recorded score level game_mode,
       update_player_score now_played now_recorded
         (reset_player_data data player_name) player_name score level
         game_mode !! player_name
       = Some {| total_score := score; games_played := 1;
                 best_score := Z.max 0 score; max_level := Z.max 1 level;
                 last_played := Some now_played;
                 game_scores := [{| gr_score := score; gr_level := level;
                                    gr_mode := game_mode;
                                    gr_date := now_recorded |}] |}.
Proof.
  assert (Hgone : reset_player_data data player_name !! player_name = None).
  { unfold reset_player_data.
    destruct (data !! player_name) eqn:Hlook;
      [apply lookup_delete_eq | exact Hlook]. }
  split; [exact Hgone |]. split; [| split].
  - intros other Hne. unfold reset_player_data.
    destruct (data !! player_name);
      [apply lookup_delete_ne; congruence | reflexivity].
  - intros limit. unfold get_player_history. rewrite Hgone. reflexivity.
  - intros. rewrite update_player_score_lookup, Hgone. reflexivity.
Qed.

Lemma py_max_bound (x : Z) (rest : list Z) (bound : Z) :
  Forall (fun v => v <= bound) (x :: rest) ->
  foldl Z.max x rest <= bound /\ x <= foldl Z.max x rest.
Proof.
  revert x. induction rest as [| y rest IH]; intros x Hall.
  - apply Forall_inv in Hall. simpl. lia.
  - simpl. inversion Hall as [| ? ? Hx Hrest]. subst.
    inversion Hrest as [| ? ? Hy Hrest']. subst.
    destruct (IH (Z.max x y)) as [Hle Hge]; [constructor; [lia | assumption] |].
    lia.
Qed.

(** X21.  [get_player_stats] never raises: the history it averages and
    takes the maximum of is not empty when it does so, and the number of
    games it divides by is replaced by 1 when not positive.  It returns
    [None] exactly for an unknown player.  For a player of a leaderboard
    built from the empty one it reports the last ten games at most,
    exactly [min 10 games_played] of them and at least one, and a recent
    best that does not exceed the best score. *)
Theorem get_player_stats_never_raises (data : gmap string PlayerData)
    (player_name : string) :
  exists answer,
    get_player_stats data player_name = inr answer
    /\ (answer = None <-> data !! player_name = None)
    /\ (built data ->
        forall stats, answer = Some stats ->
          1 <= stats_recent_games stats <= 10
          /\ stats_recent_games stats = Z.min 10 (stats_games_played stats)
          /\ stats_recent_best stats <= stats_best_score stats).
Proof.
  unfold get_player_stats.
  destruct (data !! player_name) as [record |] eqn:Hlook.
  2:{ exists None. split; [reflexivity |]. split; [tauto | discriminate]. }
  unfold py_truediv at 1.
  destruct (Z.eqb_spec (Z.max (games_played record) 1) 0) as [Hz | _]; [lia |].
  destruct (game_scores record) as [| game rest] eqn:Hscores.
  { eexists. split; [reflexivity |]. split; [split; discriminate |].
    intros Hbuilt stats [= <-].
    destruct (built_consistent _ _ _ Hbuilt Hlook)
      as (Hg & Hlen & _). rewrite Hscores in Hlen. simpl in Hlen. lia. }
  rewrite <- Hscores. cbv zeta.
  rewrite (py_slice_from_last 10) by lia.
  set (recent := drop (length (game_scores record) - 10) (game_scores record)).
  assert (Hrecent : length recent
                    = Nat.min 10 (length (game_scores record))).
  { subst recent. rewrite length_drop. lia. }
  assert (Hsome : (1 <= length (game_scores record))%nat)
    by (rewrite Hscores; simpl; lia).
  unfold py_truediv. rewrite length_map.
  destruct (Z.eqb_spec (Z.of_nat (length recent)) 0) as [Hz | _]; [lia |].
  destruct (map gr_score recent) as [| first others] eqn:Hmap.
  { apply (f_equal length) in Hmap. rewrite length_map in Hmap.
    simpl in Hmap. lia. }
  cbn [py_max]. eexists. split; [reflexivity |].
  split; [split; discriminate |].
  intros Hbuilt stats [= <-].
  cbn [stats_recent_games stats_games_played stats_recent_best
       stats_best_score].
  destruct (built_consistent _ _ _ Hbuilt Hlook)
    as (Hg & Hlen & Hall & _).
  split; [lia |]. split; [lia |].
  apply py_max_bound. rewrite <- Hmap. apply Forall_fmap.
  subst recent. apply Forall_drop.
  eapply Forall_impl; [exact Hall |]. cbv beta. intros g [? _].
  assumption.
Qed.

(** * Generating the questions of a quiz and of a timed challenge *)

Lemma keeps_tape_ret {A} (a : A) : keeps_tape (ret a).
Proof. intros s a' s' [= _ <-]. reflexivity. Qed.

Lemma keeps_tape_raise {A} (e : exn) : keeps_tape (@raise A e).
Proof. intros s a s' H. discriminate. Qed.

Lemma keeps_tape_out_of_fuel {A} : keeps_tape (@out_of_fuel A).
Proof. intros s a s' H. discriminate. Qed.

Lemma keeps_tape_lift {A} (c : result A) : keeps_tape (lift c).
Proof.
  intros s a s' H. unfold lift in H. destruct c; [| discriminate].
  injection H as _ <-. reflexivity.
Qed.

Lemma keeps_tape_bind {A B} (c : M A) (k : A -> M B) :
  keeps_tape c -> (forall a, keeps_tape (k a)) -> keeps_tape (bind c k).
Proof.
  intros Hc Hk s b s' H. unfold bind in H.
  destruct (c s) as [[a s1] | |] eqn:Hrun; try discriminate.
  rewrite (Hk a s1 b s' H). exact (Hc s a s1 Hrun).
Qed.

Lemma keeps_tape_randbelow (n : Z) : keeps_tape (randbelow n).
Proof.
  intros s a s' H. rewrite randbelow_run in H. injection H as _ <-.
  reflexivity.
Qed.

Lemma keeps_tape_randint (a b : Z) : keeps_tape (randint a b).
Proof.
  unfold randint. destruct (b <? a); [apply keeps_tape_raise |].
  apply keeps_tape_bind; [apply keeps_tape_randbelow |].
  intros r. apply keeps_tape_ret.
Qed.

Lemma keeps_tape_choice {A} (seq : list A) : keeps_tape (choice seq).
Proof.
  unfold choice. apply keeps_tape_bind; [apply keeps_tape_randbelow |].
  intros i. destruct (seq !! Z.to_nat i);
    [apply keeps_tape_ret | apply keeps_tape_raise].
Qed.

Lemma keeps_tape_for_range {A} (n : nat) (body : A -> M A) (acc : A) :
  (forall acc, keeps_tape (body acc)) -> keeps_tape (for_range n body acc).
Proof.
  intros Hbody. revert acc. induction n as [| n IH]; intros acc.
  - apply keeps_tape_ret.
  - cbn [for_range]. apply keeps_tape_bind; [apply Hbody | exact IH].
Qed.

Lemma keeps_tape_while_loop {A} (fuel : nat) (cond : A -> bool) (body : M A)
    (x : A) :
  keeps_tape body -> keeps_tape (while_loop fuel cond body x).
Proof.
  intros Hbody. revert x. induction fuel as [| fuel IH]; intros x;
    cbn [while_loop]; destruct (cond x);
    try apply keeps_tape_ret; try apply keeps_tape_out_of_fuel.
  apply keeps_tape_bind; [exact Hbody | exact IH].
Qed.

Lemma keeps_tape_shuffle {A} (x : list A) : keeps_tape (shuffle x).
Proof.
  unfold shuffle. generalize (length x - 1)%nat. intros i. revert x.
  induction i as [| i IH]; intros x; cbn [shuffle_from].
  - apply keeps_tape_ret.
  - apply keeps_tape_bind; [apply keeps_tape_randbelow |].
    intros j. apply IH.
Qed.

Create HintDb keeps_tape.
#[local] Hint Resolve keeps_tape_ret keeps_tape_raise keeps_tape_out_of_fuel
  keeps_tape_lift keeps_tape_randbelow keeps_tape_randint keeps_tape_choice
  keeps_tape_shuffle : keeps_tape.

Ltac keeps_tape_steps :=
  repeat first
    [ progress cbv beta zeta
    | solve [auto with keeps_tape]
    | apply keeps_tape_for_range; intros ?
    | apply keeps_tape_while_loop
    | apply keeps_tape_bind; [| intros ?] ].

Lemma keeps_tape_list_question (L : Lib) (fuel : nat) (feature : list Q)
    (question_text explanation_text : string) :
  keeps_tape (list_question L fuel feature question_text explanation_text).
Proof. unfold list_question. keeps_tape_steps. Qed.

Lemma keeps_tape_named_question (L : Lib) (fuel : nat) fd an kind build :
  questions L fuel !! kind = Some build -> keeps_tape (build fd an).
Proof.
  intros Hbuild.
  assert (Hin : kind ∈ question_types).
  { destruct (decide (kind ∈ question_types)) as [Hin | Hout]; [exact Hin |].
    rewrite (questions_lookup_other L fuel kind Hout) in Hbuild.
    discriminate. }
  unfold question_types in Hin.
  repeat (apply elem_of_cons in Hin as [-> | Hin]); [| | | | inversion Hin].
  - assert (Hva : questions L fuel !! "vertical_asymptotes"
                  = Some (_generate_va_question L fuel)) by reflexivity.
    rewrite Hva in Hbuild. injection Hbuild as <-.
    unfold _generate_va_question. keeps_tape_steps.
  - assert (Hha : questions L fuel !! "horizontal_asymptote"
                  = Some (_generate_ha_question L fuel)) by reflexivity.
    rewrite Hha in Hbuild. injection Hbuild as <-.
    unfold _generate_ha_question. cbv zeta.
    apply keeps_tape_bind; [| intros ?; keeps_tape_steps].
    destruct (horizontal_asymptote an); keeps_tape_steps.
  - assert (Hxi : questions L fuel !! "x_intercepts"
                  = Some (_generate_x_intercept_question L fuel))
      by reflexivity.
    rewrite Hxi in Hbuild. injection Hbuild as <-.
    apply keeps_tape_list_question.
  - assert (Hho : questions L fuel !! "holes"
                  = Some (_generate_holes_question L fuel)) by reflexivity.
    rewrite Hho in Hbuild. injection Hbuild as <-.
    apply keeps_tape_list_question.
Qed.

Lemma keeps_tape_question (L : Lib) (fuel : nat) fd an question_type :
  keeps_tape (generate_multiple_choice_question L fuel fd an question_type).
Proof.
  revert question_type. induction fuel as [| fuel IH]; intros question_type;
    cbn [generate_multiple_choice_question];
    destruct (questions _ _ !! question_type) as [build |] eqn:Hbuild;
    try (eapply keeps_tape_named_question; exact Hbuild).
  - apply keeps_tape_out_of_fuel.
  - unfold _generate_random_question.
    apply keeps_tape_bind; [apply keeps_tape_choice | exact IH].
Qed.

Lemma keeps_tape_question_py (L : Lib) (fuel : nat) fd an question_type :
  keeps_tape (generate_multiple_choice_question_py L fuel fd an question_type).
Proof.
  destruct question_type; cbn [generate_multiple_choice_question_py];
    try apply keeps_tape_question; try apply keeps_tape_raise;
    (destruct fuel; [apply keeps_tape_out_of_fuel |];
     unfold _generate_random_question;
     apply keeps_tape_bind; [apply keeps_tape_choice |];
     intros kind; apply keeps_tape_question).
Qed.

Lemma settles_keeps_tape {A} (c : nat -> M A) s (P : A -> rng -> Prop) :
  (forall fuel, keeps_tape (c fuel)) ->
  settles c s P -> settles c s (fun a s' => P a s' /\ tape s' = tape s).
Proof.
  intros Hkeep (f0 & a & s' & HP & Hrun). exists f0, a, s'.
  split; [| exact Hrun]. split; [exact HP |].
  exact (Hkeep f0 s a s' (Hrun f0 (Nat.le_refl f0))).
Qed.

Lemma settles_for_in {A S} (body : nat -> A -> S -> M S)
    (Inv : list A -> S -> rng -> Prop) (items : list A) :
  (forall done i acc s,
     Inv done acc s ->
     settles (fun fuel => body fuel i acc) s
       (fun acc' s' => Inv (done ++ [i]) acc' s')) ->
  forall done acc s,
    Inv done acc s ->
    settles (fun fuel => for_in items (body fuel) acc) s
      (fun acc' s' => Inv (done ++ items) acc' s').
Proof.
  intros Hbody. induction items as [| i rest IH]; intros done acc s Hinv.
  - apply settles_returns, returns_ret. rewrite app_nil_r. exact Hinv.
  - change (settles
              (fun fuel => acc' <- body fuel i acc ;;
                           for_in rest (body fuel) acc') s
              (fun acc' s' => Inv (done ++ i :: rest) acc' s')).
    apply settles_bind.
    eapply settles_mono; [| apply (Hbody done i acc s Hinv)].
    intros acc' s' Hinv'. cbv beta.
    replace (done ++ i :: rest) with ((done ++ [i]) ++ rest)
      by (rewrite <- app_assoc; reflexivity).
    apply IH. exact Hinv'.
Qed.

Lemma question_py_none_settles (L : Lib) fd an s :
  fair (tape s) -> answerable an ->
  settles (fun fuel => generate_multiple_choice_question_py L fuel fd an PNone)
    s (fun q s' => playable q /\ tape s' = tape s).
Proof.
  intros Hfair Hans.
  apply settles_keeps_tape; [intros fuel; apply keeps_tape_question_py |].
  pose proof (Z.mod_pos_bound (tape s (pos s)) 4 ltac:(lia)) as Hi.
  destruct (question_types !! Z.to_nat (tape s (pos s) mod 4))
    as [kind |] eqn:Hkind.
  2:{ apply lookup_ge_None in Hkind. simpl in Hkind. lia. }
  assert (Hin : kind ∈ question_types) by (apply list_elem_of_lookup; eauto).
  destruct (named_question_settles L fd an kind (advance s) Hfair Hans Hin)
    as (f0 & q & s' & HP & Hrun).
  exists (S f0), q, s'. split; [exact HP |].
  intros [| fuel] Hfuel; [lia |].
  cbn [generate_multiple_choice_question_py].
  unfold _generate_random_question, choice, bind.
  rewrite randbelow_run.
  change (Z.of_nat (length question_types)) with 4.
  rewrite Hkind. apply Hrun. lia.
Qed.

(** One round of either loop after the difficulty is fixed: a function,
    its analysis and a question on it. *)
Lemma round_settles {B}
    (release : sympy_release)
    (str_of latex_of : Quotient -> string) (repr_of : Q -> string)
    (difficulty : Z) (k : FunctionSpec -> Analysis -> Question -> B)
    (P : B -> rng -> Prop) s :
  let L := exact_lib release str_of latex_of repr_of in
  fair (tape s) ->
  (forall fd an q s',
     tape s' = tape s -> analyze_function L fd = Ok an -> playable q ->
     P (k fd an q) s') ->
  settles
    (fun fuel =>
       function_dict <- generate_function L fuel difficulty ;;
       analysis <- lift (analyze_function L function_dict) ;;
       question_data <- generate_multiple_choice_question_py L fuel
                          function_dict analysis PNone ;;
       ret (k function_dict analysis question_data)) s P.
Proof.
  intros L Hfair HP.
  apply settles_bind.
  eapply settles_mono; [| apply generate_function_settles].
  intros spec s1 (Ht1 & n & d & Hn & Hd & Hshape).
  assert (Hb : (if decide (1 <= difficulty <= 5) then difficulty + 1 else 2) <= 6)
    by (destruct (decide _); lia).
  destruct (generated_analysis_answerable release str_of latex_of repr_of _ spec n d
              Hb Hn Hd Hshape) as (an & Han & Hans).
  fold L in Han.
  apply settles_bind. apply settles_returns.
  exists an, s1. split; [unfold lift; rewrite Han; reflexivity |].
  apply settles_bind.
  eapply settles_mono;
    [| apply (question_py_none_settles L spec an s1);
       [rewrite Ht1; exact Hfair | exact Hans]].
  intros q s2 [Hplay Ht2].
  apply settles_returns, returns_ret.
  apply HP; [congruence | exact Han | exact Hplay].
Qed.

Lemma randint_settles (a b : Z) s :
  a <= b ->
  settles (fun _ : nat => randint a b) s
    (fun v s' => a <= v <= b /\ tape s' = tape s).
Proof.
  intros Hab. apply settles_returns.
  exists (a + tape s (pos s) mod (b - a + 1)), (advance s).
  split; [apply randint_run; exact Hab |].
  pose proof (Z.mod_pos_bound (tape s (pos s)) (b - a + 1) ltac:(lia)).
  split; [lia | reflexivity].
Qed.

Lemma generated_list_indexed {A} (P : Z -> A -> Prop) (n : Z) (l : list A) :
  Forall2 P (seqZ 0 n) l ->
  length l = Z.to_nat n
  /\ forall (i : nat) a, l !! i = Some a -> P (Z.of_nat i) a.
Proof.
  intros Hall. split.
  - rewrite <- (Forall2_length _ _ _ Hall), length_seqZ. reflexivity.
  - intros i a Hlook.
    destruct (Forall2_lookup_r _ _ _ _ _ Hall Hlook) as (z & Hz & HP).
    apply lookup_seqZ in Hz as [-> _]. exact HP.
Qed.

(** X22.  On sympy's exact answers and a fair tape,
    [_generate_quiz_questions] settles for every number of questions: it
    leaves that many questions (none for a number that is not positive),
    numbered from 1 in order.  The first third has difficulty 1 or 2, the
    second third 2 to 4 and the rest 3 to 5; each entry carries the
    analysis of its function and a question with four choices, the
    correct answer among them. *)
Theorem quiz_questions_are_generated
    (release : sympy_release)
    (str_of latex_of : Quotient -> string) (repr_of : Q -> string)
    (num_questions : Z) (s : rng) :
  let L := exact_lib release str_of latex_of repr_of in
  fair (tape s) ->
  settles (fun fuel => _generate_quiz_questions L fuel num_questions) s
    (fun mp_questions _ =>
       length mp_questions = Z.to_nat num_questions
       /\ forall (i : nat) q, mp_questions !! i = Some q ->
            qq_number q = Z.of_nat i + 1
            /\ quiz_band num_questions (Z.of_nat i) (qq_difficulty q)
            /\ 1 <= qq_difficulty q <= 5
            /\ analyze_function L (qq_function_dict q) = Ok (qq_analysis q)
            /\ playable (qq_question_data q)).
Proof.
  intros L Hfair.
  set (entry := fun (i : Z) (q : QuizQuestion) =>
         qq_number q = i + 1
         /\ quiz_band num_questions i (qq_difficulty q)
         /\ 1 <= qq_difficulty q <= 5
         /\ analyze_function L (qq_function_dict q) = Ok (qq_analysis q)
         /\ playable (qq_question_data q)).
  eapply settles_mono.
  2:{ unfold _generate_quiz_questions.
      apply (settles_for_in _
               (fun done acc s' => tape s' = tape s /\ Forall2 entry done acc)
               (seqZ 0 num_questions)) with (done := []).
      2:{ split; [reflexivity | constructor]. }
      intros done i acc s1 [Ht1 Hall].
      assert (Hfair1 : fair (tape s1)) by (rewrite Ht1; exact Hfair).
      apply settles_bind.
      assert (Hdraw :
        settles
          (fun _ : nat =>
             if i <? num_questions / 3 then randint 1 2
             else if i <? 2 * num_questions / 3 then randint 2 4
             else randint 3 5) s1
          (fun d s2 => (quiz_band num_questions i d /\ 1 <= d <= 5)
                       /\ tape s2 = tape s1)).
      { unfold quiz_band.
        destruct (i <? num_questions / 3);
          [| destruct (i <? 2 * num_questions / 3)];
          (eapply settles_mono; [| apply randint_settles; lia]);
          cbv beta; intros d s2 [Hd Ht2]; (split; [lia | exact Ht2]). }
      eapply settles_mono; [| exact Hdraw].
      intros d s2 [[Hband Hd] Ht2]. cbv beta.
      apply (round_settles release str_of latex_of repr_of d
               (fun function_dict analysis question_data =>
                  acc ++ [{| qq_function_dict := function_dict;
                             qq_analysis := analysis;
                             qq_question_data := question_data;
                             qq_difficulty := d;
                             qq_number := i + 1 |}])).
      { rewrite Ht2. exact Hfair1. }
      intros fd an q s3 Ht3 Han Hplay. split; [congruence |].
      apply Forall2_app; [exact Hall |].
      constructor; [| constructor].
      unfold entry. cbn [qq_number qq_difficulty qq_function_dict
                           qq_analysis qq_question_data].
      auto. }
  cbv beta. intros qs s' [_ Hall]. rewrite app_nil_l in Hall.
  exact (generated_list_indexed entry num_questions qs Hall).
Qed.

Lemma quiz_questions_are_generated_witness :
  settles (fun fuel => _generate_quiz_questions plain_lib fuel 3)
    (Rng counting_tape 0)
    (fun mp_questions _ =>
       length mp_questions = Z.to_nat 3
       /\ forall (i : nat) q, mp_questions !! i = Some q ->
            qq_number q = Z.of_nat i + 1
            /\ quiz_band 3 (Z.of_nat i) (qq_difficulty q)
            /\ 1 <= qq_difficulty q <= 5
            /\ analyze_function plain_lib (qq_function_dict q)
               = Ok (qq_analysis q)
            /\ playable (qq_question_data q)).
Proof.
  apply (quiz_questions_are_generated Before_1_13 show_quotient show_quotient
           show_fraction 3 (Rng counting_tape 0)).
  exact counting_tape_fair.
Defined.

(** X23.  [_start_challenge] raises [KeyError] for a challenge type that
    is not configured.  For a configured one, on sympy's exact answers and
    a fair tape, it settles with as many questions as the configuration
    asks for (10 for the sprint, 25 for the marathon, 5 for the blitz);
    question [i], counted from 0, has difficulty [min 5 (i / 2 + 1)] in
    the sprint, [min 5 (i / 5 + 1)] in the marathon and 1 to 3 in the
    blitz, so always between 1 and 5; each entry carries the analysis of
    its function and a question with four choices, the correct answer
    among them. *)
Theorem start_challenge_generates
    (release : sympy_release)
    (str_of latex_of : Quotient -> string) (repr_of : Q -> string)
    (challenge_type : string) (s : rng) :
  let L := exact_lib release str_of latex_of repr_of in
  fair (tape s) ->
  match challenge_configs !! challenge_type with
  | None =>
      forall fuel, _start_challenge L fuel challenge_type s = Raises KeyError
  | Some config =>
      settles (fun fuel => _start_challenge L fuel challenge_type) s
        (fun timed_questions _ =>
           length timed_questions = Z.to_nat (config_questions config)
           /\ forall (i : nat) q, timed_questions !! i = Some q ->
                challenge_band challenge_type (Z.of_nat i) (tq_difficulty q)
                /\ 1 <= tq_difficulty q <= 5
                /\ analyze_function L (tq_function_dict q)
                   = Ok (tq_analysis q)
                /\ playable (tq_question_data q))
  end.
Proof.
  intros L Hfair.
  destruct (challenge_configs !! challenge_type) as [config |] eqn:Hconfig.
  2:{ intros fuel. unfold _start_challenge, getitem_str, bind.
      rewrite Hconfig. reflexivity. }
  set (entry := fun (i : Z) (q : TimedQuestion) =>
         challenge_band challenge_type i (tq_difficulty q)
         /\ analyze_function L (tq_function_dict q) = Ok (tq_analysis q)
         /\ playable (tq_question_data q)).
  eapply settles_mono.
  2:{ unfold _start_challenge.
      apply settles_bind. apply settles_returns.
      exists config, s. split.
      { unfold getitem_str. rewrite Hconfig. reflexivity. }
      apply (settles_for_in _
               (fun done acc s' => tape s' = tape s /\ Forall2 entry done acc)
               (seqZ 0 (config_questions config))) with (done := []).
      2:{ split; [reflexivity | constructor]. }
      intros done i acc s1 [Ht1 Hall].
      assert (Hfair1 : fair (tape s1)) by (rewrite Ht1; exact Hfair).
      apply settles_bind.
      assert (Hdraw :
        settles
          (fun _ : nat =>
             if String.eqb challenge_type "sprint" then
               ret (Z.min 5 (i / 2 + 1))
             else if String.eqb challenge_type "marathon" then
               ret (Z.min 5 (i / 5 + 1))
             else randint 1 3) s1
          (fun d s2 => challenge_band challenge_type i d
                       /\ tape s2 = tape s1)).
      { unfold challenge_band.
        destruct (String.eqb challenge_type "sprint");
          [| destruct (String.eqb challenge_type "marathon")].
        - apply settles_returns, returns_ret. auto.
        - apply settles_returns, returns_ret. auto.
        - eapply settles_mono; [| apply randint_settles; lia].
          cbv beta. intros d s2 [Hd Ht2]. split; [lia | exact Ht2]. }
      eapply settles_mono; [| exact Hdraw].
      intros d s2 [Hband Ht2]. cbv beta.
      apply (round_settles release str_of latex_of repr_of d
               (fun function_dict analysis question_data =>
                  acc ++ [{| tq_function_dict := function_dict;
                             tq_analysis := analysis;
                             tq_question_data := question_data;
                             tq_difficulty := d |}])).
      { rewrite Ht2. exact Hfair1. }
      intros fd an q s3 Ht3 Han Hplay. split; [congruence |].
      apply Forall2_app; [exact Hall |].
      constructor; [| constructor].
      unfold entry. cbn [tq_difficulty tq_function_dict tq_analysis
                           tq_question_data].
      auto. }
  cbv beta. intros qs s' [_ Hall]. rewrite app_nil_l in Hall.
  destruct (generated_list_indexed entry _ qs Hall) as [Hlen Hentries].
  split; [exact Hlen |].
  intros i q Hlook. destruct (Hentries i q Hlook) as (Hband & Han & Hplay).
  split; [exact Hband |]. split; [| auto].
  pose proof (Z.div_pos (Z.of_nat i) 2 ltac:(lia) ltac:(lia)).
  pose proof (Z.div_pos (Z.of_nat i) 5 ltac:(lia) ltac:(lia)).
  unfold challenge_band in Hband.
  destruct (String.eqb challenge_type "sprint");
    [| destruct (String.eqb challenge_type "marathon")]; lia.
Qed.

Lemma start_challenge_generates_witness :
  settles (fun fuel => _start_challenge plain_lib fuel "blitz")
    (Rng counting_tape 0)
    (fun timed_questions _ =>
       length timed_questions = 5%nat
       /\ forall (i : nat) q, timed_questions !! i = Some q ->
            challenge_band "blitz" (Z.of_nat i) (tq_difficulty q)
            /\ 1 <= tq_difficulty q <= 5
            /\ analyze_function plain_lib (tq_function_dict q)
               = Ok (tq_analysis q)
            /\ playable (tq_question_data q)).
Proof.
  apply (start_challenge_generates Before_1_13 show_quotient show_quotient show_fraction
           "blitz" (Rng counting_tape 0)).
  exact counting_tape_fair.
Defined.
